(** * DVM miner: vector engine, wire codec and request handlers

    A shallow embedding of the miner node
    ([dvm_miner/engine.py], [dvm_miner/node.py],
    [shared/protocol/serialization.py], [shared/protocol/messages.py])
    together with the properties its specification states about it.

    Python integers are unbounded and are modelled by [Z].  Dictionaries
    are finite maps ([gmap]); byte strings are lists of [byte].  The
    libraries the program calls (hnswlib, numpy's float arithmetic,
    zstandard, base64, hashlib) are interfaces (type classes) whose
    contracts, where a property needs them, are explicit hypotheses. *)

From Stdlib Require Import ZArith List Ascii String Strings.Byte Sorted Lia.
From stdpp Require Import base option list gmap strings.

Local Open Scope Z_scope.

(** ** Exceptions and results *)

Inductive exn : Type :=
  | ValueError_dimension (got expected : Z)
      (* ValueError("Vector dimension mismatch: {got} != {expected}") *)
  | ValueError_count (got expected : Z)
      (* ValueError("Doc IDs count mismatch: {got} != {expected}") *)
  | ValueError (what : string)
  | KeyError (key : string)
  | OverflowError
  | RuntimeError (what : string)
  | ValidationError (field : string)
  | FileExistsError (name : string).

Inductive result (A : Type) : Type :=
  | Ok (a : A)
  | Raise (e : exn).
Arguments Ok {A} a.
Arguments Raise {A} e.

#[global] Instance result_ret : MRet result := fun _ a => Ok a.

#[global] Instance result_bind : MBind result := fun _ _ k r =>
  match r with
  | Ok a => k a
  | Raise e => Raise e
  end.

Definition of_option {A} (o : option A) (e : exn) : result A :=
  match o with
  | Some a => Ok a
  | None => Raise e
  end.

Definition bytes := list byte.

(** ** Interfaces of the libraries *)

(** numpy float32 arithmetic as far as the engine uses it. *)
Class FloatOps (F : Type) := {
  f32_of_bits : Z -> F;          (* the value a 32-bit pattern denotes *)
  fzero : F;
  fone : F;
  feqb : F -> F -> bool;         (* x == y *)
  fltb : F -> F -> bool;         (* x < y *)
  fdiv : F -> F -> F;            (* x / y *)
  fsub : F -> F -> F;            (* x - y *)
  l2norm : list F -> F           (* np.linalg.norm of a 1-D array *)
}.

(** The hnswlib index.  [add_items] returns the index as it is after the
    call and whether the call returned ([true]) or raised ([false]): the
    object is updated in place, also when the call fails half-way.
    [knn_query] is [None] when hnswlib raises; otherwise it is the row
    [zip(labels[0], distances[0])]. *)
Class AnnKernel (F : Type) := {
  Index : Type;
  init_index : Z -> Z -> Index;              (* dim, max_elements *)
  get_current_count : Index -> Z;
  add_items : Index -> list (list F) -> list Z -> Index * bool;
  knn_query : Index -> list F -> Z -> option (list (Z * F))
}.

(** zstandard and base64; [None] stands for [ZstdError] and
    [binascii.Error]. *)
Class Codec := {
  zstd_compress : bytes -> bytes;
  zstd_decompress : bytes -> option bytes;
  b64encode : bytes -> string;
  b64decode : string -> option bytes
}.

(** [hashlib.sha256(m).digest()]. *)
Class Sha256 := {
  sha256 : bytes -> bytes
}.

(** ** Bytes *)

Definition byte_of_Z (z : Z) : byte :=
  default x00 (Byte.of_N (Z.to_N (z mod 256))).

Definition Z_of_byte (b : byte) : Z := Z.of_N (Byte.to_N b).

(** [n.to_bytes(8, 'big')]. *)
Definition to_bytes_8_big (n : Z) : result bytes :=
  if decide (0 <= n < 2 ^ 64) then
    Ok (map (fun i => byte_of_Z (n / 256 ^ i)) [7; 6; 5; 4; 3; 2; 1; 0])
  else Raise OverflowError.

Definition hex_digit (c : ascii) : option Z :=
  let n := Z.of_N (N_of_ascii c) in
  if (48 <=? n) && (n <=? 57) then Some (n - 48)
  else if (97 <=? n) && (n <=? 102) then Some (n - 87)
  else if (65 <=? n) && (n <=? 70) then Some (n - 55)
  else None.

Definition is_ascii_space (c : ascii) : bool :=
  let n := Z.of_N (N_of_ascii c) in
  (n =? 32) || ((9 <=? n) && (n <=? 13)).

(** [bytes.fromhex]: pairs of hexadecimal digits, white space allowed
    between the pairs. *)
Fixpoint fromhex_chars (s : list ascii) : option bytes :=
  match s with
  | [] => Some []
  | c :: t =>
    if is_ascii_space c then fromhex_chars t
    else
      match t with
      | c' :: t' =>
        match hex_digit c, hex_digit c' with
        | Some hi, Some lo =>
          match fromhex_chars t' with
          | Some rest => Some (byte_of_Z (16 * hi + lo) :: rest)
          | None => None
          end
        | _, _ => None
        end
      | [] => None
      end
  end.

Definition fromhex (s : string) : result bytes :=
  of_option (fromhex_chars (list_ascii_of_string s)) (ValueError "fromhex").

(** ** Strings and paths *)

(** [s.endswith(suffix)] and [s.startswith(prefix)] on character lists. *)
Definition starts_with (prefix s : list ascii) : bool :=
  bool_decide (take (length prefix) s = prefix).

Definition ends_with (suffix s : list ascii) : bool :=
  starts_with (reverse suffix) (reverse s).

(** [s.replace(old, "")] for a non-empty [old]: every non-overlapping
    occurrence, found from the left, is removed.  [skip] counts the
    characters of the current occurrence still to drop. *)
Fixpoint remove_all_from (old : list ascii) (skip : nat) (s : list ascii)
    : list ascii :=
  match s with
  | [] => []
  | c :: t =>
    match skip with
    | S n => remove_all_from old n t
    | O =>
      if starts_with old s then remove_all_from old (pred (length old)) t
      else c :: remove_all_from old O t
    end
  end.

Definition str_remove (old s : string) : string :=
  string_of_list_ascii
    (remove_all_from (list_ascii_of_string old) O (list_ascii_of_string s)).

(** [name.rfind(".")]: the index of the last dot, if there is one. *)
Fixpoint rfind_dot (s : list ascii) : option nat :=
  match s with
  | [] => None
  | c :: t =>
    match rfind_dot t with
    | Some i => Some (S i)
    | None => if decide (c = "."%char) then Some O else None
    end
  end.

(** [PurePath.stem]: the name without its last suffix; a leading or a
    trailing dot does not start a suffix. *)
Definition path_stem (name : string) : string :=
  let l := list_ascii_of_string name in
  match rfind_dot l with
  | Some i =>
    if bool_decide (0 < i)%nat && bool_decide (i < length l - 1)%nat
    then string_of_list_ascii (take i l)
    else name
  | None => name
  end.

(** [glob("*.bin")] and [glob("shard_*.bin")] on entry names. *)
Definition glob_bin (name : string) : bool :=
  ends_with (list_ascii_of_string ".bin") (list_ascii_of_string name).

Definition glob_shard_bin (name : string) : bool :=
  let l := list_ascii_of_string name in
  starts_with (list_ascii_of_string "shard_") l
  && ends_with (list_ascii_of_string ".bin") l
  && bool_decide (10 <= length l)%nat.

(** ** The vector engine (engine.py) *)

Section Engine.

Context {F : Type} {FO : FloatOps F} {K : AnnKernel F}.

Record VectorEngine : Type := {
  embedding_dim : Z;
  max_bytes : Z;
  indices : gmap string (gmap string Index);
  id_maps : gmap string (gmap string (gmap Z string));
  next_ids : gmap string (gmap string Z)
}.

Definition _normalize_shard_id (shard_id : option string) : string :=
  match shard_id with
  | Some s => if decide (s = ""%string) then "default"%string else s
  | None => "default"%string
  end.

(** An hnswlib [Index] object defines neither [__bool__] nor [__len__],
    so [if index] holds for every index. *)
Definition get_total_vectors (e : VectorEngine) : Z :=
  map_fold (fun _ collection_shards total =>
    map_fold (fun _ index total => total + get_current_count index)
             total collection_shards) 0 (indices e).

Definition get_bytes_used (e : VectorEngine) : Z :=
  let total_vectors := get_total_vectors e in
  total_vectors * embedding_dim e * 4.

Definition can_accept (e : VectorEngine) (num_vectors : Z) : bool :=
  let bytes_needed := num_vectors * embedding_dim e * 4 in
  bool_decide (get_bytes_used e + bytes_needed <= max_bytes e).

(** A float32 matrix of shape [(shape0, shape1)]. *)
Record ndarray2 : Type := {
  shape0 : Z;
  shape1 : Z;
  rows : list (list F)
}.

(** [self.d[collection_id][shard]] and
    [self.d[collection_id][shard] = v] on the two-level dictionaries;
    both raise [KeyError] when the outer key is missing. *)
Definition lookup2 {V} (d : gmap string (gmap string V))
    (collection_id shard : string) : result V :=
  inner ← of_option (d !! collection_id) (KeyError collection_id);
  of_option (inner !! shard) (KeyError shard).

Definition store2 {V} (d : gmap string (gmap string V))
    (collection_id shard : string) (v : V)
    : result (gmap string (gmap string V)) :=
  inner ← of_option (d !! collection_id) (KeyError collection_id);
  Ok (<[collection_id := <[shard := v]> inner]> d).

(** The same assignment when the outer key is known to be present, and
    the entry of a pair of keys, if there is one. *)
Definition set2 {V} (d : gmap string (gmap string V))
    (collection_id shard : string) (v : V) : gmap string (gmap string V) :=
  <[collection_id := <[shard := v]> (default ∅ (d !! collection_id))]> d.

Definition get2 {V} (d : gmap string (gmap string V))
    (collection_id shard : string) : option V :=
  inner ← d !! collection_id; inner !! shard.

Definition contains2 {V} (d : gmap string (gmap string V))
    (collection_id shard : string) : bool :=
  match d !! collection_id with
  | Some inner => bool_decide (is_Some (inner !! shard))
  | None => false
  end.

(** L2 normalisation of every row; a zero norm is replaced by one. *)
Definition normalize_rows (vectors : list (list F)) : list (list F) :=
  map (fun row =>
         let norm := l2norm row in
         let norm := if feqb norm fzero then fone else norm in
         map (fun x => fdiv x norm) row) vectors.

(** Lines 120-123: the collection's dictionaries are created on first use. *)
Definition ensure_collection (e : VectorEngine) (collection_id : string)
    : VectorEngine :=
  if decide (is_Some (indices e !! collection_id)) then e
  else {| embedding_dim := embedding_dim e;
          max_bytes := max_bytes e;
          indices := <[collection_id := ∅]> (indices e);
          id_maps := <[collection_id := ∅]> (id_maps e);
          next_ids := <[collection_id := ∅]> (next_ids e) |}.

(** Lines 126-137: the shard's index, id-map and counter are created on
    first use.  The state reached when a later assignment raises keeps the
    earlier ones. *)
Definition ensure_shard (e : VectorEngine) (collection_id shard : string)
    : VectorEngine * result unit :=
  if contains2 (indices e) collection_id shard then (e, Ok ())
  else
    let index := init_index (embedding_dim e) 1000000 in
    match store2 (indices e) collection_id shard index with
    | Raise ex => (e, Raise ex)
    | Ok indices' =>
      let e1 := {| embedding_dim := embedding_dim e; max_bytes := max_bytes e;
                   indices := indices'; id_maps := id_maps e;
                   next_ids := next_ids e |} in
      match store2 (id_maps e) collection_id shard ∅ with
      | Raise ex => (e1, Raise ex)
      | Ok id_maps' =>
        let e2 := {| embedding_dim := embedding_dim e; max_bytes := max_bytes e;
                     indices := indices'; id_maps := id_maps';
                     next_ids := next_ids e |} in
        match store2 (next_ids e) collection_id shard 0 with
        | Raise ex => (e2, Raise ex)
        | Ok next_ids' =>
          ({| embedding_dim := embedding_dim e; max_bytes := max_bytes e;
              indices := indices'; id_maps := id_maps';
              next_ids := next_ids' |}, Ok ())
        end
      end
    end.

(** Lines 160-161: [for internal_id, doc_id in zip(internal_ids, doc_ids)]. *)
Definition update_id_map (id_map : gmap Z string)
    (internal_ids : list Z) (doc_ids : list string) : gmap Z string :=
  foldl (fun m p => <[p.1 := p.2]> m) id_map (zip internal_ids doc_ids).

(** Lines 139-164, once the shard exists. *)
Definition add_to_shard (e : VectorEngine) (collection_id shard : string)
    (vectors : ndarray2) (doc_ids : list string)
    : VectorEngine * result unit :=
  match lookup2 (indices e) collection_id shard with
  | Raise ex => (e, Raise ex)
  | Ok index =>
    let normalized_vectors := normalize_rows (rows vectors) in
    match lookup2 (next_ids e) collection_id shard with
    | Raise ex => (e, Raise ex)
    | Ok start_id =>
      let internal_ids := seqZ start_id (Z.of_nat (length doc_ids)) in
      let '(index', returned) :=
        add_items index normalized_vectors internal_ids in
      (* the index object was updated in place *)
      let indices' := set2 (indices e) collection_id shard index' in
      let e1 := {| embedding_dim := embedding_dim e; max_bytes := max_bytes e;
                   indices := indices'; id_maps := id_maps e;
                   next_ids := next_ids e |} in
      if negb returned then (e1, Raise (RuntimeError "add_items"))
      else
        let updated :=
          match doc_ids with
          | [] => Ok (id_maps e)
          | _ :: _ =>
            id_map ← lookup2 (id_maps e) collection_id shard;
            store2 (id_maps e) collection_id shard
                   (update_id_map id_map internal_ids doc_ids)
          end in
        match updated with
        | Raise ex => (e1, Raise ex)
        | Ok id_maps' =>
          let e2 := {| embedding_dim := embedding_dim e;
                       max_bytes := max_bytes e;
                       indices := indices'; id_maps := id_maps';
                       next_ids := next_ids e |} in
          match store2 (next_ids e) collection_id shard
                       (start_id + Z.of_nat (length doc_ids)) with
          | Raise ex => (e2, Raise ex)
          | Ok next_ids' =>
            ({| embedding_dim := embedding_dim e; max_bytes := max_bytes e;
                indices := indices'; id_maps := id_maps';
                next_ids := next_ids' |}, Ok ())
          end
        end
    end
  end.

(** [add_vectors]: the engine after the call and what the call returned
    or raised.  The per-shard lock only serialises concurrent callers and
    has no part in this sequential model. *)
Definition add_vectors (e : VectorEngine) (collection_id : string)
    (vectors : ndarray2) (doc_ids : list string) (shard_id : option string)
    : VectorEngine * result unit :=
  if decide (shape1 vectors ≠ embedding_dim e) then
    (e, Raise (ValueError_dimension (shape1 vectors) (embedding_dim e)))
  else if decide (Z.of_nat (length doc_ids) ≠ shape0 vectors) then
    (e, Raise (ValueError_count (Z.of_nat (length doc_ids)) (shape0 vectors)))
  else
    let normalized_shard := _normalize_shard_id shard_id in
    let e1 := ensure_collection e collection_id in
    match ensure_shard e1 collection_id normalized_shard with
    | (e2, Raise ex) => (e2, Raise ex)
    | (e2, Ok _) => add_to_shard e2 collection_id normalized_shard vectors doc_ids
    end.

(** [list.sort(key=lambda x: x[1], reverse=True)] on scores that [<]
    orders totally, that is without a NaN among them: the stable sort by
    descending score, which compares keys with [<] only.  With a NaN
    among the keys Python still returns a permutation, in an order that
    depends on the runs the sort meets; what is stated about the order
    of results is stated for comparable scores. *)
Fixpoint insert_desc (x : string * F) (l : list (string * F))
    : list (string * F) :=
  match l with
  | [] => [x]
  | y :: l' =>
    if fltb x.2 y.2 then y :: insert_desc x l' else x :: y :: l'
  end.

Definition sort_desc (l : list (string * F)) : list (string * F) :=
  foldr insert_desc [] l.

(** Lines 227-233: a hit is kept when its label has a non-empty doc_id. *)
Definition hit_to_result (id_map : gmap Z string) (hit : Z * F)
    : option (string * F) :=
  match id_map !! hit.1 with
  | Some doc_id =>
    if decide (doc_id = ""%string) then None
    else Some (doc_id, fsub fone hit.2)
  | None => None
  end.

Definition search (e : VectorEngine) (collection_id : string)
    (query_vector : list F) (k : Z) (shard_id : option string)
    : result (list (string * F)) :=
  let normalized_shard := _normalize_shard_id shard_id in
  match indices e !! collection_id with
  | None => Ok []
  | Some shards =>
    match shards !! normalized_shard with
    | None => Ok []
    | Some index =>
      if decide (k <= 0) then Ok []
      else if decide (get_current_count index = 0) then Ok []
      else
        let norm := l2norm query_vector in
        if feqb norm fzero then Ok []
        else
          let normalized_query := map (fun x => fdiv x norm) query_vector in
          hits ← of_option
            (knn_query index normalized_query
                       (Z.min k (get_current_count index)))
            (RuntimeError "knn_query");
          id_map ← lookup2 (id_maps e) collection_id normalized_shard;
          let results := omap (hit_to_result id_map) hits in
          Ok (sort_desc results)
    end
  end.

(** *** Persistence

    The data directory holds plain files and one level of
    sub-directories, with the case-sensitive names of a POSIX file
    system; limits of the file system (space, permissions, lengths of
    names) are left out.  Collection and shard identifiers are taken to
    be single path components, as the engine uses them: only then is
    [data_dir / collection_id] the entry [collection_id] of the data
    directory and [shard_<id>.bin] an entry of that sub-directory
    ([path_component] and [file_name_part] below say which identifiers
    these are).  An index file holds
    what [save_index] wrote and [load_index] reads back; a map file holds
    the JSON object [{"id_map": ..., "next_id": ...}], whose integer keys
    [json.dump] writes as decimal strings and [load_all] converts back
    with [int]. *)
Inductive file : Type :=
  | IndexFile (index : Index)
  | MapFile (id_map : gmap Z string) (next_id : option Z)
  | OtherFile.

Record disk : Type := {
  root_files : gmap string file;
  subdirs : gmap string (gmap string file)
}.

Definition shard_bin_name (shard_id : string) : string :=
  ("shard_" ++ shard_id ++ ".bin")%string.

Definition shard_map_name (shard_id : string) : string :=
  ("shard_" ++ shard_id ++ "_map.json")%string.

(** The body of the loop of [save_collection] for one shard: failures
    after the index file was written are logged and leave it in place. *)
Definition save_shard (e : VectorEngine) (collection_id shard_id : string)
    (index : Index) (dir : gmap string file) : gmap string file :=
  let dir1 := <[shard_bin_name shard_id := IndexFile index]> dir in
  let map_data :=
    id_map ← lookup2 (id_maps e) collection_id shard_id;
    counters ← of_option (next_ids e !! collection_id) (KeyError collection_id);
    Ok (id_map, default 0 (counters !! shard_id)) in
  match map_data with
  | Ok (id_map, next_id) =>
    <[shard_map_name shard_id := MapFile id_map (Some next_id)]> dir1
  | Raise _ => dir1
  end.

Definition save_collection (e : VectorEngine) (collection_id : string)
    (d : disk) : result disk :=
  match indices e !! collection_id with
  | None => Ok d
  | Some shards =>
    (* collection_dir.mkdir(parents=True, exist_ok=True) *)
    if decide (is_Some (root_files d !! collection_id)) then
      Raise (FileExistsError collection_id)
    else
      let dir := default ∅ (subdirs d !! collection_id) in
      let dir' :=
        map_fold (fun shard_id index acc =>
                    save_shard e collection_id shard_id index acc)
                 dir shards in
      Ok {| root_files := root_files d;
            subdirs := <[collection_id := dir']> (subdirs d) |}
  end.

Definition save_all (e : VectorEngine) (d : disk) : result disk :=
  foldl (fun acc collection_id =>
           d' ← acc; save_collection e collection_id d')
        (Ok d) (map_to_list (indices e)).*1.

(** Lines 343-361 (and 295-313 for the legacy layout): the index is
    entered first, then the mappings; an unreadable map file leaves the
    shard without id-map and counter.  [load_all] runs on the engine under
    construction, whose three dictionaries have the same collections. *)
Definition enter_shard (e : VectorEngine) (collection_id shard_id : string)
    (index : Index) (map_file : option file) : VectorEngine :=
  let e0 := ensure_collection e collection_id in
  let indices' := set2 (indices e0) collection_id shard_id index in
  let mappings :=
    match map_file with
    | Some (MapFile id_map next_id) => Some (id_map, default 0 next_id)
    | Some _ => None
    | None => Some (∅, 0)
    end in
  match mappings with
  | Some (id_map, next_id) =>
    {| embedding_dim := embedding_dim e; max_bytes := max_bytes e;
       indices := indices';
       id_maps := set2 (id_maps e0) collection_id shard_id id_map;
       next_ids := set2 (next_ids e0) collection_id shard_id next_id |}
  | None =>
    {| embedding_dim := embedding_dim e; max_bytes := max_bytes e;
       indices := indices'; id_maps := id_maps e0; next_ids := next_ids e0 |}
  end.

(** One [*.bin] file of the root directory (legacy layout). *)
Definition load_legacy (d : disk) (name : string) (f : file)
    (e : VectorEngine) : VectorEngine :=
  if glob_bin name then
    let collection_id := path_stem name in
    match f with
    | IndexFile index =>
      enter_shard e collection_id "default" index
        (root_files d !! (collection_id ++ "_map.json")%string)
    | _ => e
    end
  else e.

(** One [shard_*.bin] file of a collection directory. *)
Definition load_shard (collection_id : string) (dir : gmap string file)
    (name : string) (f : file) (e : VectorEngine) : VectorEngine :=
  if glob_shard_bin name then
    let shard_id := str_remove ".bin" (str_remove "shard_" (path_stem name)) in
    match f with
    | IndexFile index =>
      enter_shard e collection_id shard_id index
        (dir !! shard_map_name shard_id)
    | _ => e
    end
  else e.

Definition load_all (e : VectorEngine) (d : disk) : VectorEngine :=
  let e1 := map_fold (load_legacy d) e (root_files d) in
  map_fold (fun collection_id dir acc =>
              map_fold (load_shard collection_id dir) acc dir)
           e1 (subdirs d).

(** [VectorEngine(data_dir, embedding_dim, max_ram_gb)]. *)
Definition VectorEngine_init (d : disk) (embedding_dim max_ram_gb : Z)
    : VectorEngine :=
  load_all {| embedding_dim := embedding_dim;
              max_bytes := max_ram_gb * 1024 ^ 3;
              indices := ∅; id_maps := ∅; next_ids := ∅ |} d.

End Engine.

(** *** Predicates about engine states *)

Section EnginePredicates.

Context {F : Type} {FO : FloatOps F} {K : AnnKernel F}.


(** The engine constructed on an empty data directory. *)
Definition empty_engine (dim max_ram_gb : Z) : VectorEngine :=
  VectorEngine_init {| root_files := ∅; subdirs := ∅ |} dim max_ram_gb.

(** The states that calls of [add_vectors], failed ones included, lead to
    from an empty engine. *)
Inductive reachable : VectorEngine -> Prop :=
  | reachable_empty dim max_ram_gb :
      reachable (empty_engine dim max_ram_gb)
  | reachable_add e collection_id vectors doc_ids shard_id :
      reachable e ->
      reachable (add_vectors e collection_id vectors doc_ids shard_id).1.

(** The shards of an engine are the keys of [indices]. *)
Definition is_shard (e : VectorEngine) (collection_id shard : string) : Prop :=
  contains2 (indices e) collection_id shard = true.

(** The counter and the id-map of a shard ([0] and the empty map when the
    shard does not exist yet). *)
Definition next_id_of (e : VectorEngine) (collection_id shard : string) : Z :=
  match lookup2 (next_ids e) collection_id shard with
  | Ok n => n
  | Raise _ => 0
  end.

Definition id_map_of (e : VectorEngine) (collection_id shard : string)
    : gmap Z string :=
  match lookup2 (id_maps e) collection_id shard with
  | Ok m => m
  | Raise _ => ∅
  end.

(** The internal ids of a shard are exactly [0, next_id). *)
Definition shard_consistent (e : VectorEngine) (collection_id shard : string)
    : Prop :=
  exists m n,
    lookup2 (id_maps e) collection_id shard = Ok m
    /\ lookup2 (next_ids e) collection_id shard = Ok n
    /\ 0 <= n
    /\ forall j, is_Some (m !! j) <-> 0 <= j < n.

(** The three dictionaries have the same collections, every shard is
    consistent, and there is no id-map or counter without a shard. *)
Definition engine_consistent (e : VectorEngine) : Prop :=
  (forall c, (is_Some (indices e !! c) <-> is_Some (id_maps e !! c))
             /\ (is_Some (indices e !! c) <-> is_Some (next_ids e !! c)))
  /\ (forall c s,
        match get2 (indices e) c s with
        | Some _ => shard_consistent e c s
        | None => get2 (id_maps e) c s = None /\ get2 (next_ids e) c s = None
        end).

End EnginePredicates.

(** ** Vector serialisation (shared/protocol/serialization.py)

    An array is its dtype, its shape and its elements in C order; a
    float32 element is its 32-bit pattern, so that equality of arrays is
    bit-identity. *)

Inductive dtype : Type :=
  | float32
  | other_dtype (name : string).

#[global] Instance dtype_eq_dec : EqDecision dtype.
Proof. solve_decision. Defined.

Record ndarray : Type := {
  nd_dtype : dtype;
  nd_shape : list Z;
  nd_data : list Z
}.

(** [ndarray.astype(np.float32)] on one element of another dtype: the
    float32 pattern, or the exception numpy raises for an element that
    does not convert (a string that is no number, an object). *)
Class DtypeCast := {
  astype_float32 : dtype -> Z -> result Z
}.

(** The four bytes of a float32 element, least significant first. *)
Definition f32_tobytes (w : Z) : bytes :=
  [byte_of_Z w; byte_of_Z (w / 256); byte_of_Z (w / 65536);
   byte_of_Z (w / 16777216)].

Definition f32_frombytes (b0 b1 b2 b3 : byte) : Z :=
  Z_of_byte b0 + 256 * Z_of_byte b1 + 65536 * Z_of_byte b2
  + 16777216 * Z_of_byte b3.

Definition tobytes (data : list Z) : bytes :=
  concat (map f32_tobytes data).

(** [np.frombuffer(b, dtype=np.float32)]: the buffer size has to be a
    multiple of four. *)
Fixpoint frombuffer (b : bytes) : option (list Z) :=
  match b with
  | [] => Some []
  | b0 :: b1 :: b2 :: b3 :: rest =>
    match frombuffer rest with
    | Some ws => Some (f32_frombytes b0 b1 b2 b3 :: ws)
    | None => None
    end
  | _ => None
  end.

Definition product (shape : list Z) : Z := foldr Z.mul 1 shape.

(** [ndarray.reshape(shape)] of a 1-D array: the shape has to account for
    every element; a single [-1] stands for the dimension that makes it
    so. *)
Definition reshape (data : list Z) (shape : list Z) : result ndarray :=
  let size := Z.of_nat (length data) in
  if forallb (fun d => 0 <=? d) shape then
    if product shape =? size then
      Ok {| nd_dtype := float32; nd_shape := shape; nd_data := data |}
    else Raise (ValueError "reshape")
  else if forallb (fun d => -1 <=? d) shape
          && (Z.of_nat (length (filter (fun d => d = -1) shape)) =? 1) then
    let known := product (filter (fun d => d ≠ -1) shape) in
    if negb (known =? 0) && (size mod known =? 0) then
      Ok {| nd_dtype := float32;
            nd_shape := map (fun d => if d =? -1 then size / known else d) shape;
            nd_data := data |}
    else Raise (ValueError "reshape")
  else Raise (ValueError "reshape").

(** A float32 array of shape [(n, dim)]. *)
Definition float32_matrix (vectors : ndarray) (n dim : Z) : Prop :=
  nd_dtype vectors = float32
  /\ nd_shape vectors = [n; dim]
  /\ 0 <= n /\ 0 <= dim
  /\ Z.of_nat (length (nd_data vectors)) = n * dim
  /\ Forall (fun w => 0 <= w < 2 ^ 32) (nd_data vectors).

Section Serialization.

Context {C : Codec} {DC : DtypeCast}.

(** Lines 21-22 and 72-73: an array of another dtype is converted, the
    elements in order; the first element that does not convert ends the
    conversion with its exception. *)
Definition ensure_float32 (vectors : ndarray) : result ndarray :=
  if decide (nd_dtype vectors ≠ float32) then
    data ← mapM (astype_float32 (nd_dtype vectors)) (nd_data vectors);
    Ok {| nd_dtype := float32; nd_shape := nd_shape vectors;
          nd_data := data |}
  else Ok vectors.

Definition encode_vectors (vectors : ndarray) : result (string * list Z) :=
  vectors ← ensure_float32 vectors;
  let vector_bytes := tobytes (nd_data vectors) in
  let compressed := zstd_compress vector_bytes in
  let b64_string := b64encode compressed in
  Ok (b64_string, nd_shape vectors).

Definition decode_vectors (data_b64 : string) (shape : list Z)
    : result ndarray :=
  compressed ← of_option (b64decode data_b64) (ValueError "b64decode");
  vector_bytes ← of_option (zstd_decompress compressed) (RuntimeError "zstd");
  flat ← of_option (frombuffer vector_bytes) (ValueError "frombuffer");
  reshape flat shape.

(** [decode_query_vector] has the body of [decode_vectors]. *)
Definition decode_query_vector (data_b64 : string) (shape : list Z)
    : result ndarray :=
  compressed ← of_option (b64decode data_b64) (ValueError "b64decode");
  vector_bytes ← of_option (zstd_decompress compressed) (RuntimeError "zstd");
  flat ← of_option (frombuffer vector_bytes) (ValueError "frombuffer");
  reshape flat shape.

End Serialization.

(** ** Protocol messages (shared/protocol/messages.py)

    An incoming frame is a JSON object, a dictionary from field names to
    JSON values. *)

#[warnings="-register-all"]
Inductive json : Type :=
  | JNull
  | JInt (z : Z)
  | JStr (s : string)
  | JList (l : list json).

(** pydantic's validators of the two scalar field types. *)
Class Pydantic := {
  validate_str : json -> option string;
  validate_int : json -> option Z
}.

Record SearchRequest : Type := {
  sr_request_id : string;
  sr_collection_id : string;
  sr_shard_id : option string;
  sr_query_b64 : string;
  sr_shape : list Z;
  sr_top_k : Z
}.

Record ChallengeRequest : Type := {
  cr_challenge_id : string;
  cr_epoch_seed : string;
  cr_offsets : list Z;
  cr_chunk_size : Z;
  cr_deadline_ms : Z
}.

Section Messages.

Context {P : Pydantic}.

Definition required {A} (message_dict : gmap string json) (name : string)
    (validate : json -> option A) : result A :=
  match message_dict !! name with
  | Some v => of_option (validate v) (ValidationError name)
  | None => Raise (ValidationError name)
  end.

Definition with_default {A} (message_dict : gmap string json) (name : string)
    (validate : json -> option A) (default : A) : result A :=
  match message_dict !! name with
  | Some v => of_option (validate v) (ValidationError name)
  | None => Ok default
  end.

(** [Optional[str]], [List[int]], [Tuple[int]] and [Literal[tag]]. *)
Definition validate_optional_str (v : json) : option (option string) :=
  match v with
  | JNull => Some None
  | _ => Some <$> validate_str v
  end.

Definition validate_list_int (v : json) : option (list Z) :=
  match v with
  | JList l => mapM validate_int l
  | _ => None
  end.

Definition validate_tuple_int (v : json) : option (list Z) :=
  match v with
  | JList [x] => (fun z => [z]) <$> validate_int x
  | _ => None
  end.

Definition validate_literal (tag : string) (v : json) : option unit :=
  match v with
  | JStr s => if decide (s = tag) then Some () else None
  | _ => None
  end.

(** [SearchRequest] built from the keys of [message_dict];
    [top_k: int = 10]. *)
Definition SearchRequest_parse (message_dict : gmap string json)
    : result SearchRequest :=
  _ ← with_default message_dict "type" (validate_literal "search_request") ();
  request_id ← required message_dict "request_id" validate_str;
  collection_id ← required message_dict "collection_id" validate_str;
  shard_id ← with_default message_dict "shard_id" validate_optional_str None;
  query_b64 ← required message_dict "query_b64" validate_str;
  shape ← required message_dict "shape" validate_tuple_int;
  top_k ← with_default message_dict "top_k" validate_int 10;
  Ok {| sr_request_id := request_id; sr_collection_id := collection_id;
        sr_shard_id := shard_id; sr_query_b64 := query_b64;
        sr_shape := shape; sr_top_k := top_k |}.

(** [ChallengeRequest] built from the keys of [message_dict]. *)
Definition ChallengeRequest_parse (message_dict : gmap string json)
    : result ChallengeRequest :=
  _ ← with_default message_dict "type"
        (validate_literal "challenge_request") ();
  challenge_id ← required message_dict "challenge_id" validate_str;
  epoch_seed ← required message_dict "epoch_seed" validate_str;
  offsets ← required message_dict "offsets" validate_list_int;
  chunk_size ← required message_dict "chunk_size" validate_int;
  deadline_ms ← required message_dict "deadline_ms" validate_int;
  Ok {| cr_challenge_id := challenge_id; cr_epoch_seed := epoch_seed;
        cr_offsets := offsets; cr_chunk_size := chunk_size;
        cr_deadline_ms := deadline_ms |}.

(** [getattr(request, name, default)] on a [SearchRequest]: every
    declared field is an attribute of the instance. *)
Definition SearchRequest_getattr_int (request : SearchRequest)
    (name : string) (default : Z) : Z :=
  if decide (name = "top_k"%string) then sr_top_k request else default.

End Messages.

(** ** The miner node (node.py) *)

Record SearchResponse (F : Type) : Type := {
  resp_request_id : string;
  resp_node_id : string;
  resp_results : list (string * F)       (* SearchResultItem(doc_id, score) *)
}.
Arguments resp_request_id {F} _.
Arguments resp_node_id {F} _.
Arguments resp_results {F} _.

Record ChallengeResponse : Type := {
  chal_challenge_id : string;
  chal_chunks : list string;
  chal_response_time_ms : Z
}.

(** The outcome of the [while] loop of the challenge handler when it is
    run for a bounded number of iterations. *)
Inductive loop_outcome : Type :=
  | Finished (chunk_data : bytes) (current_offset : Z)
  | Raised (e : exn)
  | OutOfFuel.

Section Node.

Context {F : Type} {FO : FloatOps F} {K : AnnKernel F}.
Context {C : Codec} {P : Pydantic} {H : Sha256}.

Record MinerNode : Type := {
  node_id : string;                      (* self.config.node_id *)
  engine : VectorEngine
}.

(** Lines 427-429: the request, the decoded query and the [k] that line
    430 passes to [engine.search]. *)
Definition search_arguments (message_dict : gmap string json)
    : result (SearchRequest * ndarray * Z) :=
  request ← SearchRequest_parse message_dict;
  query_vector ← decode_query_vector (sr_query_b64 request) (sr_shape request);
  let k := SearchRequest_getattr_int request "top_k" 50 in
  Ok (request, query_vector, k).

Definition _handle_search (node : MinerNode) (message_dict : gmap string json)
    : result (SearchResponse F) :=
  let attempt :=
    '(request, query_vector, k) ← search_arguments message_dict;
    results ← search (engine node) (sr_collection_id request)
                     (map f32_of_bits (nd_data query_vector)) k
                     (sr_shard_id request);
    Ok {| resp_request_id := sr_request_id request;
          resp_node_id := node_id node;
          resp_results := results |} in
  match attempt with
  | Ok response => Ok response
  | Raise _ =>
    (* SearchResponse(request_id=message_dict.get("request_id"), ...) *)
    request_id ← required message_dict "request_id" validate_str;
    Ok {| resp_request_id := request_id; resp_node_id := node_id node;
          resp_results := [] |}
  end.

(** Lines 476-486.  [fuel] bounds the number of iterations. *)
Fixpoint challenge_loop (fuel : nat) (epoch_seed : bytes) (chunk_size : Z)
    (chunk_data : bytes) (current_offset : Z) : loop_outcome :=
  if decide (Z.of_nat (length chunk_data) < chunk_size) then
    match fuel with
    | O => OutOfFuel
    | S fuel' =>
      match to_bytes_8_big current_offset with
      | Raise e => Raised e
      | Ok offset_bytes =>
        let seed_input := epoch_seed ++ offset_bytes in
        let hash_bytes := sha256 seed_input in
        let remaining := chunk_size - Z.of_nat (length chunk_data) in
        if decide (remaining >= 32) then
          challenge_loop fuel' epoch_seed chunk_size
            (chunk_data ++ hash_bytes) (current_offset + 32)
        else
          challenge_loop fuel' epoch_seed chunk_size
            (chunk_data ++ take (Z.to_nat remaining) hash_bytes)
            (current_offset + remaining)
      end
    end
  else Finished chunk_data current_offset.

(** Lines 472-488: the chunks of the offsets, in order; the first
    exception ends the computation. *)
Fixpoint challenge_chunks (fuel : nat) (epoch_seed : bytes) (chunk_size : Z)
    (offsets : list Z) : option (result (list string)) :=
  match offsets with
  | [] => Some (Ok [])
  | offset :: offsets' =>
    match challenge_loop fuel epoch_seed chunk_size [] offset with
    | OutOfFuel => None
    | Raised e => Some (Raise e)
    | Finished chunk_data _ =>
      match challenge_chunks fuel epoch_seed chunk_size offsets' with
      | Some (Ok chunks_b64) => Some (Ok (b64encode chunk_data :: chunks_b64))
      | other => other
      end
    end
  end.

(** Line 466: the log line formats [request.chunk_size / 1024].  The true
    division of two integers raises [OverflowError] when the quotient,
    rounded to the nearest double, is beyond the largest one,
    [(2^53 - 1) * 2^971]: that is for [|chunk_size| / 1024 >= 2^1024 -
    2^970]. *)
Definition chunk_size_kb_overflows (chunk_size : Z) : bool :=
  2 ^ 1034 - 2 ^ 980 <=? Z.abs chunk_size.

(** [_handle_challenge]; [elapsed_ms] is the wall time the handler
    measures.  The result is [None] only when [fuel] ran out. *)
Definition _handle_challenge (fuel : nat) (elapsed_ms : Z)
    (message_dict : gmap string json) : option (result ChallengeResponse) :=
  let failed :=
    challenge_id ← with_default message_dict "challenge_id"
                      validate_str "unknown"%string;
    Ok {| chal_challenge_id := challenge_id; chal_chunks := [];
          chal_response_time_ms := 0 |} in
  match ChallengeRequest_parse message_dict with
  | Raise _ => Some failed
  | Ok request =>
    if chunk_size_kb_overflows (cr_chunk_size request) then Some failed
    else
      match fromhex (cr_epoch_seed request) with
      | Raise _ => Some failed
      | Ok epoch_seed =>
        match challenge_chunks fuel epoch_seed (cr_chunk_size request)
                               (cr_offsets request) with
        | None => None
        | Some (Raise _) => Some failed
        | Some (Ok chunks_b64) =>
          Some (Ok {| chal_challenge_id := cr_challenge_id request;
                      chal_chunks := chunks_b64;
                      chal_response_time_ms := elapsed_ms |})
        end
      end
  end.

End Node.

(** ** The challenge bytes as the specification words them

    Successive SHA-256 digests of [epoch_seed || big_endian_uint64(offset)],
    the offset advancing by 32 from one digest to the next, cut to
    [chunk_size] bytes. *)

Definition big_endian_uint64 (n : Z) : bytes :=
  map (fun i => byte_of_Z (n / 256 ^ i)) [7; 6; 5; 4; 3; 2; 1; 0].

Section ChallengeSpec.

Context {H : Sha256}.

Fixpoint digest_stream (epoch_seed : bytes) (offset : Z) (digests : nat)
    : bytes :=
  match digests with
  | O => []
  | S n =>
    sha256 (epoch_seed ++ big_endian_uint64 offset)
    ++ digest_stream epoch_seed (offset + 32) n
  end.

Definition digests_needed (chunk_size : Z) : nat :=
  Z.to_nat ((chunk_size + 31) / 32).

Definition spec_chunk (epoch_seed : bytes) (offset chunk_size : Z) : bytes :=
  take (Z.to_nat chunk_size)
       (digest_stream epoch_seed offset (digests_needed chunk_size)).

(** Every offset that is hashed for a chunk fits an unsigned 64-bit
    integer. *)
Definition offsets_fit (chunk_size offset : Z) : Prop :=
  chunk_size <= 0
  \/ (0 <= offset
      /\ offset + 32 * (Z.of_nat (digests_needed chunk_size) - 1) < 2 ^ 64).

#[global] Instance offsets_fit_dec chunk_size offset :
  Decision (offsets_fit chunk_size offset).
Proof. unfold offsets_fit. apply _. Defined.

End ChallengeSpec.

(** ** Reference instances

    Stand-ins for the libraries, used to run the model on concrete
    inputs: exact integer arithmetic for the floats, an exhaustive
    nearest-neighbour scan for the index, a codec that stores its input
    verbatim, validators that accept a value of the field's own JSON
    kind, and a digest that is 32 bytes folded from the message. *)

Module Reference.

#[export] Instance float_ops : FloatOps Z := {|
  f32_of_bits := fun w => w;
  fzero := 0;
  fone := 1;
  feqb := Z.eqb;
  fltb := Z.ltb;
  fdiv := Z.div;
  fsub := Z.sub;
  l2norm := fun v => Z.sqrt (foldr (fun x acc => x * x + acc) 0 v)
|}.

Definition dot (u v : list Z) : Z :=
  foldr (fun p acc => p.1 * p.2 + acc) 0 (zip u v).

Fixpoint insert_hit (h : Z * Z) (l : list (Z * Z)) : list (Z * Z) :=
  match l with
  | [] => [h]
  | h' :: l' => if h'.2 <? h.2 then h' :: insert_hit h l' else h :: l
  end.

Definition scan_index : Type := list (Z * list Z).

Definition scan_add (index : scan_index) (vectors : list (list Z))
    (ids : list Z) : scan_index * bool :=
  if decide (length vectors = length ids) then (index ++ zip ids vectors, true)
  else (index, false).

Definition scan_query (index : scan_index) (query : list Z) (k : Z)
    : option (list (Z * Z)) :=
  if decide (0 <= k <= Z.of_nat (length index)) then
    Some (take (Z.to_nat k)
            (foldr insert_hit []
               (map (fun entry => (entry.1, 1 - dot query entry.2)) index)))
  else None.

#[export] Instance scan_kernel : AnnKernel Z := {|
  Index := scan_index;
  init_index := fun _ _ => [];
  get_current_count := fun index => Z.of_nat (length index);
  add_items := scan_add;
  knn_query := scan_query
|}.

Definition bytes_of_string (s : string) : bytes :=
  map byte_of_ascii (list_ascii_of_string s).

Definition string_of_bytes (b : bytes) : string :=
  string_of_list_ascii (map ascii_of_byte b).

#[export] Instance store_codec : Codec := {|
  zstd_compress := fun b => b;
  zstd_decompress := fun b => Some b;
  b64encode := string_of_bytes;
  b64decode := fun s => Some (bytes_of_string s)
|}.

#[export] Instance no_cast : DtypeCast := {|
  astype_float32 := fun dt w =>
    if decide (dt = other_dtype "str") then Raise (ValueError "astype")
    else Ok (w mod 2 ^ 32)
|}.

#[export] Instance own_kind : Pydantic := {|
  validate_str := fun v => match v with JStr s => Some s | _ => None end;
  validate_int := fun v => match v with JInt z => Some z | _ => None end
|}.

#[export] Instance fold_digest : Sha256 := {|
  sha256 := fun m =>
    let sum := foldr (fun b acc => Z_of_byte b + 31 * acc) 7 m in
    map (fun i => byte_of_Z (sum + Z.of_nat i)) (seq 0 32)
|}.

(** A search request without the field [top_k]; the query is the 16 bytes
    of four float32 values. *)
Definition search_message : gmap string json :=
  list_to_map
    [("type"%string, JStr "search_request");
     ("request_id"%string, JStr "r1");
     ("collection_id"%string, JStr "c1");
     ("query_b64"%string, JStr "0000000000000000");
     ("shape"%string, JList [JInt 4])].

(** A challenge for one chunk of 40 bytes at offset 0 under a seed of 32
    zero bytes. *)
Definition challenge_message : gmap string json :=
  list_to_map
    [("type"%string, JStr "challenge_request");
     ("challenge_id"%string, JStr "ch1");
     ("epoch_seed"%string,
      JStr "0000000000000000000000000000000000000000000000000000000000000000");
     ("offsets"%string, JList [JInt 0]);
     ("chunk_size"%string, JInt 40);
     ("deadline_ms"%string, JInt 1000)].

Definition empty_disk : disk :=
  {| root_files := ∅; subdirs := ∅ |}.

(** An engine for dimension 4 and 1 GiB on an empty data directory. *)
Definition engine0 : VectorEngine := VectorEngine_init empty_disk 4 1.

Definition one_row (row : list Z) : ndarray2 :=
  {| shape0 := 1; shape1 := Z.of_nat (length row); rows := [row] |}.

(** Two documents in the default shard of collection [c1]. *)
Definition engine_two : VectorEngine :=
  (add_vectors engine0 "c1"
     {| shape0 := 2; shape1 := 4; rows := [[0; 3; 0; 0]; [2; 0; 0; 0]] |}
     ["b"%string; "a"%string] None).1.

(** One document in shard [shard_0] of collection [c1], and a second one
    in shard [0]. *)
Definition engine_a : VectorEngine :=
  (add_vectors engine0 "c1" (one_row [1; 0; 0; 0]) ["a"%string]
     (Some "shard_0"%string)).1.

Definition engine_ab : VectorEngine :=
  (add_vectors engine_a "c1" (one_row [0; 1; 0; 0]) ["b"%string]
     (Some "0"%string)).1.

(** [save_all()] into an empty data directory, then a fresh engine on
    that directory. *)
Definition save_and_reload (e : VectorEngine) : result VectorEngine :=
  d ← save_all e empty_disk;
  Ok (VectorEngine_init d 4 1).

Definition node0 : MinerNode := {| node_id := "n1"; engine := engine0 |}.

(** A 1 x 2 float32 array holding 1.0 and 0.0. *)
Definition array_1_2 : ndarray :=
  {| nd_dtype := float32; nd_shape := [1; 2]; nd_data := [1065353216; 0] |}.

End Reference.

(** * Further parts of the program *)

(** ** [encode_query_vector] (serialization.py) *)

Section QueryVector.

Context {C : Codec} {DC : DtypeCast}.

(** Lines 61-87: the conversion to float32 comes first; then a query
    has to be one-dimensional ([vector.ndim] is the length of the
    shape). *)
Definition encode_query_vector (vector : ndarray) : result (string * list Z) :=
  vector ← ensure_float32 vector;
  if decide (length (nd_shape vector) ≠ 1%nat) then
    Raise (ValueError "Query vector must be 1D")
  else
    let vector_bytes := tobytes (nd_data vector) in
    let compressed := zstd_compress vector_bytes in
    let b64_string := b64encode compressed in
    Ok (b64_string, nd_shape vector).

End QueryVector.

(** An array that numpy can hold: the shape accounts for every element
    and a float32 element is a 32-bit pattern. *)
Definition float32_array (a : ndarray) : Prop :=
  nd_dtype a = float32
  /\ Forall (fun d => 0 <= d) (nd_shape a)
  /\ product (nd_shape a) = Z.of_nat (length (nd_data a))
  /\ Forall (fun w => 0 <= w < 2 ^ 32) (nd_data a).

(** ** The store handler and the dispatcher (node.py, messages.py) *)

Record StoreRequest : Type := {
  st_request_id : string;
  st_collection_id : string;
  st_shard_id : option string;
  st_doc_ids : list string;
  st_vectors_b64 : string;
  st_shape : list Z
}.

Inductive store_status : Type :=
  | status_ok
  | status_full
  | status_error.

(** The text of a response: a literal of the program or [str(e)] of the
    exception caught. *)
Inductive message_text : Type :=
  | Literal (s : string)
  | StrOf (e : exn)
  | UnknownType (message_type : option json).

Record StoreResponse : Type := {
  sto_request_id : string;
  sto_node_id : string;
  sto_stored_count : Z;
  sto_status : store_status;
  sto_error_message : option message_text
}.

Inductive ErrorCode : Type :=
  | STORAGE_FULL
  | INDEX_CORRUPTED
  | UNKNOWN_COLLECTION
  | INVALID_MESSAGE
  | INTERNAL_ERROR.

Record ErrorResponse : Type := {
  err_request_id : option string;
  err_node_id : option string;
  err_error_code : ErrorCode;
  err_error_message : message_text
}.

(** What [json.loads(raw_message)] gives; the handlers work on JSON
    objects. *)
Inductive parsed_message : Type :=
  | NotJson
  | NotAnObject
  | Object (message_dict : gmap string json).

Section StoreMessages.

Context {P : Pydantic}.

(** [List[str]] and [Tuple[int, int]]. *)
Definition validate_list_str (v : json) : option (list string) :=
  match v with
  | JList l => mapM validate_str l
  | _ => None
  end.

Definition validate_pair_int (v : json) : option (list Z) :=
  match v with
  | JList [x; y] =>
    a ← validate_int x; b ← validate_int y; Some [a; b]
  | _ => None
  end.

(** [StoreRequest] built from the keys of [message_dict]. *)
Definition StoreRequest_parse (message_dict : gmap string json)
    : result StoreRequest :=
  _ ← with_default message_dict "type" (validate_literal "store_request") ();
  request_id ← required message_dict "request_id" validate_str;
  collection_id ← required message_dict "collection_id" validate_str;
  shard_id ← with_default message_dict "shard_id" validate_optional_str None;
  doc_ids ← required message_dict "doc_ids" validate_list_str;
  vectors_b64 ← required message_dict "vectors_b64" validate_str;
  shape ← required message_dict "shape" validate_pair_int;
  Ok {| st_request_id := request_id; st_collection_id := collection_id;
        st_shard_id := shard_id; st_doc_ids := doc_ids;
        st_vectors_b64 := vectors_b64; st_shape := shape |}.

(** [ErrorResponse(request_id=message_dict.get("request_id"), ...)]: the
    field is [Optional[str]], so a value that is neither null nor a
    string fails the validation. *)
Definition ErrorResponse_build (message_dict : gmap string json)
    (node_id : string) (code : ErrorCode) (text : message_text)
    : result ErrorResponse :=
  request_id ← with_default message_dict "request_id"
                  validate_optional_str None;
  Ok {| err_request_id := request_id; err_node_id := Some node_id;
        err_error_code := code; err_error_message := text |}.

End StoreMessages.

(** A frame written to the connection. *)
Inductive frame (F : Type) : Type :=
  | StoreFrame (r : StoreResponse)
  | SearchFrame (r : SearchResponse F)
  | ChallengeFrame (r : ChallengeResponse)
  | ErrorFrame (r : ErrorResponse).
Arguments StoreFrame {F} r.
Arguments SearchFrame {F} r.
Arguments ChallengeFrame {F} r.
Arguments ErrorFrame {F} r.

Section StoreHandler.

Context {F : Type} {FO : FloatOps F} {K : AnnKernel F}.
Context {C : Codec} {P : Pydantic} {H : Sha256}.

(** The decoded array as the engine reads it: [shape[0]], [shape[1]] and
    the rows.  An array of another rank has no [shape[1]]. *)
Definition as_matrix (a : ndarray) : result ndarray2 :=
  match nd_shape a with
  | [n; d] =>
    Ok {| shape0 := n; shape1 := d;
          rows := map (fun i => map f32_of_bits
                                  (take (Z.to_nat d)
                                        (drop (i * Z.to_nat d) (nd_data a))))
                      (seq 0 (Z.to_nat n)) |}
  | _ => Raise (RuntimeError "IndexError")
  end.

(** Lines 389-413: the node after the attempt and the response, or the
    exception the attempt ended with. *)
Definition store_attempt (node : MinerNode) (message_dict : gmap string json)
    : MinerNode * result StoreResponse :=
  match StoreRequest_parse message_dict with
  | Raise ex => (node, Raise ex)
  | Ok request =>
    match decode_vectors (st_vectors_b64 request) (st_shape request) with
    | Raise ex => (node, Raise ex)
    | Ok vectors =>
      if negb (can_accept (engine node)
                          (Z.of_nat (length (st_doc_ids request)))) then
        (node, Ok {| sto_request_id := st_request_id request;
                     sto_node_id := node_id node;
                     sto_stored_count := 0;
                     sto_status := status_full;
                     sto_error_message :=
                       Some (Literal "Storage capacity exceeded") |})
      else
        match as_matrix vectors with
        | Raise ex => (node, Raise ex)
        | Ok matrix =>
          let '(engine', added) :=
            add_vectors (engine node) (st_collection_id request) matrix
                        (st_doc_ids request) (st_shard_id request) in
          let node' := {| node_id := node_id node; engine := engine' |} in
          match added with
          | Raise ex => (node', Raise ex)
          | Ok _ =>
            (node', Ok {| sto_request_id := st_request_id request;
                          sto_node_id := node_id node;
                          sto_stored_count :=
                            Z.of_nat (length (st_doc_ids request));
                          sto_status := status_ok;
                          sto_error_message := None |})
          end
        end
    end
  end.

Definition _handle_store (node : MinerNode) (message_dict : gmap string json)
    : MinerNode * result StoreResponse :=
  match store_attempt node message_dict with
  | (node', Ok response) => (node', Ok response)
  | (node', Raise ex) =>
    (node',
     request_id ← required message_dict "request_id" validate_str;
     Ok {| sto_request_id := request_id; sto_node_id := node_id node;
           sto_stored_count := 0; sto_status := status_error;
           sto_error_message := Some (StrOf ex) |})
  end.

(** The connection: whether it is open and the frames written to it, the
    latest first.  [ws.send] on a closed connection raises. *)
Record websocket : Type := {
  ws_open : bool;
  ws_sent : list (frame F)
}.

Definition ws_send (ws : websocket) (f : frame F) : websocket * result unit :=
  if ws_open ws then
    ({| ws_open := true; ws_sent := f :: ws_sent ws |}, Ok ())
  else (ws, Raise (RuntimeError "ConnectionClosed")).

(** [message_type == tag] for a JSON value and a string literal. *)
Definition type_is (message_type : option json) (tag : string) : bool :=
  match message_type with
  | Some (JStr s) => bool_decide (s = tag)
  | _ => false
  end.

(** Lines 351-371, the [try] block of [_handle_message] on a JSON
    object.  The result is [None] only when [fuel] ran out in the
    challenge handler. *)
Definition dispatch (fuel : nat) (elapsed_ms : Z) (node : MinerNode)
    (ws : websocket) (message_dict : gmap string json)
    : option (MinerNode * websocket * result unit) :=
  let message_type := message_dict !! "type"%string in
  if type_is message_type "store_request" then
    match _handle_store node message_dict with
    | (node', Ok response) =>
      let '(ws', sent) := ws_send ws (StoreFrame response) in
      Some (node', ws', sent)
    | (node', Raise ex) => Some (node', ws, Raise ex)
    end
  else if type_is message_type "search_request" then
    match _handle_search node message_dict with
    | Ok response =>
      let '(ws', sent) := ws_send ws (SearchFrame response) in
      Some (node, ws', sent)
    | Raise ex => Some (node, ws, Raise ex)
    end
  else if type_is message_type "challenge_request" then
    match _handle_challenge fuel elapsed_ms message_dict with
    | None => None
    | Some (Ok response) =>
      let '(ws', sent) := ws_send ws (ChallengeFrame response) in
      Some (node, ws', sent)
    | Some (Raise ex) => Some (node, ws, Raise ex)
    end
  else
    match ErrorResponse_build message_dict (node_id node) INVALID_MESSAGE
                              (UnknownType message_type) with
    | Ok error =>
      let '(ws', sent) := ws_send ws (ErrorFrame error) in
      Some (node, ws', sent)
    | Raise ex => Some (node, ws, Raise ex)
    end.

(** [_handle_message]: the node and the connection after the message,
    and the exception that escapes the handler, if one does.  An
    exception of the [try] block is answered with an [INTERNAL_ERROR]
    frame; building that frame can raise in turn, and a failure to send
    it is ignored. *)
Definition _handle_message (fuel : nat) (elapsed_ms : Z) (node : MinerNode)
    (ws : websocket) (raw_message : parsed_message)
    : option (MinerNode * websocket * result unit) :=
  match raw_message with
  | NotJson =>
    (* message_dict is not bound: request_id=None *)
    let error := {| err_request_id := None; err_node_id := Some (node_id node);
                    err_error_code := INTERNAL_ERROR;
                    err_error_message := StrOf (ValueError "JSONDecodeError") |} in
    Some (node, (ws_send ws (ErrorFrame error)).1, Ok ())
  | NotAnObject =>
    (* message_dict.get raises in the try block and again in the handler *)
    Some (node, ws, Raise (RuntimeError "AttributeError"))
  | Object message_dict =>
    match dispatch fuel elapsed_ms node ws message_dict with
    | None => None
    | Some (node', ws', Ok _) => Some (node', ws', Ok ())
    | Some (node', ws', Raise ex) =>
      match ErrorResponse_build message_dict (node_id node) INTERNAL_ERROR
                                (StrOf ex) with
      | Ok error => Some (node', (ws_send ws' (ErrorFrame error)).1, Ok ())
      | Raise ex' => Some (node', ws', Raise ex')
      end
    end
  end.

End StoreHandler.

(** ** Predicates for the further properties *)

Section FurtherPredicates.

Context {F : Type} {FO : FloatOps F} {K : AnnKernel F}.

(** What a step of [add_vectors] on shard [(c, s)] leaves alone: the
    index of every other shard and, where there is one, its id-map. *)
Definition others_kept (c s : string) (e e' : VectorEngine) : Prop :=
  forall c' s', (c', s') ≠ (c, s) ->
    get2 (indices e') c' s' = get2 (indices e) c' s'
    /\ (is_Some (get2 (indices e) c' s') ->
        lookup2 (id_maps e') c' s' = lookup2 (id_maps e) c' s').

(** The identifiers the persistence model is about.  [data_dir / name]
    is the entry [name] of the data directory when [name] is one path
    component: not empty, not [.] or [..], without [/] and without a NUL
    character.  [shard_<id>.bin] and [shard_<id>_map.json] are entries
    of the collection directory when [id] has neither [/] nor NUL. *)
Definition file_name_part (name : string) : Prop :=
  Forall (fun ch => ch ≠ "/"%char /\ ch ≠ "000"%char)
         (list_ascii_of_string name).

Definition path_component (name : string) : Prop :=
  name ≠ ""%string /\ name ≠ "."%string /\ name ≠ ".."%string
  /\ file_name_part name.

(** Every collection id of the engine is a path component and every
    shard id can be part of a file name. *)
Definition ids_are_names (e : VectorEngine) : Prop :=
  (forall c, is_Some (indices e !! c) -> path_component c)
  /\ (forall c s, is_shard e c s -> file_name_part s).

(** The three dictionaries of an engine have the same collections. *)
Definition same_collections (e : VectorEngine) : Prop :=
  forall c, (is_Some (indices e !! c) <-> is_Some (id_maps e !! c))
            /\ (is_Some (indices e !! c) <-> is_Some (next_ids e !! c)).

(** A shard id that [load_all] reads back from the file name
    [shard_<id>.bin] as it is: the removal of ["shard_"] and [".bin"]
    (line 335) leaves it unchanged. *)
Definition plain_shard_id (shard_id : string) : Prop :=
  str_remove ".bin" (str_remove "shard_" shard_id) = shard_id.

(** The directory of a collection holds, for every shard of [shards],
    the index file and the map file of the shard as [e] has them, and
    nothing else. *)
Definition saved_dir (e : VectorEngine) (c : string)
    (shards : gmap string Index) (dir : gmap string file) : Prop :=
  (forall s, dir !! shard_bin_name s = IndexFile <$> shards !! s)
  /\ (forall s, is_Some (shards !! s) ->
        exists m n,
          get2 (id_maps e) c s = Some m
          /\ get2 (next_ids e) c s = Some n
          /\ dir !! shard_map_name s = Some (MapFile m (Some n)))
  /\ (forall name, is_Some (dir !! name) ->
        exists s, is_Some (shards !! s)
                  /\ (name = shard_bin_name s \/ name = shard_map_name s)).

End FurtherPredicates.

(** ** The RAM reservation (node.py, [_initialize_poram_memory]) *)

(** A [bytearray(n)]: its length and the bytes written so far; every
    other byte is zero. *)
Record bytearray : Type := {
  ba_length : Z;
  ba_written : gmap Z byte
}.

Definition ba_new (n : Z) : bytearray :=
  {| ba_length := n; ba_written := ∅ |}.

(** [chunk[i]] for an index within the array. *)
Definition ba_get (a : bytearray) (i : Z) : option byte :=
  if decide (0 <= i < ba_length a) then Some (default x00 (ba_written a !! i))
  else None.

(** [chunk[i] = v]. *)
Definition ba_set (a : bytearray) (i : Z) (v : byte) : bytearray :=
  {| ba_length := ba_length a; ba_written := <[i := v]> (ba_written a) |}.

Record poram_memory : Type := {
  pm_chunks : list bytearray;
  pm_chunk_size : Z;
  pm_total_gb : Z;
  pm_total_bytes : Z
}.

Definition poram_chunk_size : Z := 1024 * 1024 * 1024.
Definition poram_page_size : Z := 4096.

(** Lines 533-535: [for offset in range(0, chunk_size, page_size)]. *)
Definition touch_pages (chunk_idx : Z) (chunk : bytearray) : bytearray :=
  foldl (fun c page =>
           let offset := page * poram_page_size in
           ba_set c offset (byte_of_Z ((chunk_idx + offset) mod 256)))
        chunk (seqZ 0 (poram_chunk_size / poram_page_size)).

(** Lines 527-548.  [allocates chunk_idx] tells whether the operating
    system grants the [bytearray] of the chunk; a refusal ends the
    initialisation with a [RuntimeError]. *)
Fixpoint allocate_chunks (allocates : Z -> bool) (chunk_indices : list Z)
    (allocated_chunks : list bytearray) : result (list bytearray) :=
  match chunk_indices with
  | [] => Ok allocated_chunks
  | chunk_idx :: rest =>
    if allocates chunk_idx then
      let chunk := touch_pages chunk_idx (ba_new poram_chunk_size) in
      allocate_chunks allocates rest (allocated_chunks ++ [chunk])
    else Raise (RuntimeError "Cannot allocate")
  end.

Definition _initialize_poram_memory (allocates : Z -> bool) (max_ram_gb : Z)
    : result poram_memory :=
  let claimed_bytes := max_ram_gb * 1024 * 1024 * 1024 in
  let num_chunks := max_ram_gb in
  allocated_chunks ← allocate_chunks allocates (seqZ 0 num_chunks) [];
  Ok {| pm_chunks := allocated_chunks;
        pm_chunk_size := poram_chunk_size;
        pm_total_gb := num_chunks;
        pm_total_bytes := claimed_bytes |}.

(** ** Connecting to a coordinator (node.py, [_connect_and_run]) *)

(** What [websockets.connect(url)] does: the connection is made, it
    fails with one of [OSError], [TimeoutError] and [InvalidURI], or it
    fails with another exception. *)
Inductive connect_outcome : Type :=
  | Accepts
  | Refuses
  | Breaks (e : exn).

(** How [_connect_and_run] ends: it returns after the session on a URL,
    or it raises.  The course of the session is not part of this
    account: [_run_session] is left by [return] whatever happens in it,
    and closing the connection is taken not to raise. *)
Inductive connect_result : Type :=
  | SessionOn (url : string)
  | ConnectRaised (e : exn)
  | NoCoordinator.

(** Lines 131-161 on the list of URLs: the URLs contacted, in order, and
    the end. *)
Fixpoint connect_first (connect : string -> connect_outcome)
    (urls : list string) : list string * connect_result :=
  match urls with
  | [] => ([], NoCoordinator)
  | url :: rest =>
    match connect url with
    | Accepts => ([url], SessionOn url)
    | Breaks e => ([url], ConnectRaised e)
    | Refuses =>
      let '(contacted, ending) := connect_first connect rest in
      (url :: contacted, ending)
    end
  end.

(** [str.isspace] on the characters below 256, [str.strip] and
    [str.split(",")]. *)
Definition is_space (c : ascii) : bool :=
  let n := Z.of_N (N_of_ascii c) in
  ((9 <=? n) && (n <=? 13)) || ((28 <=? n) && (n <=? 32))
  || (n =? 133) || (n =? 160).

Fixpoint lstrip (s : list ascii) : list ascii :=
  match s with
  | [] => []
  | c :: t => if is_space c then lstrip t else s
  end.

Definition strip (s : list ascii) : list ascii :=
  reverse (lstrip (reverse (lstrip s))).

Fixpoint split_comma (s : list ascii) : list (list ascii) :=
  match s with
  | [] => [[]]
  | c :: t =>
    if decide (c = ","%char) then [] :: split_comma t
    else
      match split_comma t with
      | piece :: pieces => (c :: piece) :: pieces
      | [] => [[c]]
      end
  end.

(** Line 129: [[url.strip() for url in coordinator_url.split(",")]]. *)
Definition coordinator_urls (coordinator_url : string) : list string :=
  map (fun piece => string_of_list_ascii (strip piece))
      (split_comma (list_ascii_of_string coordinator_url)).

Definition _connect_and_run (connect : string -> connect_outcome)
    (coordinator_url : string) : list string * connect_result :=
  connect_first connect (coordinator_urls coordinator_url).

(** ** The miner configuration (dvm_miner/config.py) *)

Module Config.

(** The values [json.load] returns.  A float is its 64-bit pattern. *)
#[warnings="-register-all"]
Inductive jvalue : Type :=
  | VNull
  | VBool (b : bool)
  | VInt (z : Z)
  | VFloat (bits : Z)
  | VStr (s : string)
  | VList (l : list jvalue)
  | VDict (entries : list (string * jvalue)).

(** [bool(v)]: [None], [False], zero, the empty string and the empty
    containers are false. *)
Definition truthy (v : jvalue) : bool :=
  match v with
  | VNull => false
  | VBool b => b
  | VInt z => negb (z =? 0)
  | VFloat bits => negb ((bits =? 0) || (bits =? 2 ^ 63))
  | VStr s => negb (String.eqb s "")
  | VList l => match l with [] => false | _ => true end
  | VDict entries => match entries with [] => false | _ => true end
  end.

(** [not data.get(key)]. *)
Definition missing_or_empty (data : gmap string jvalue) (key : string)
    : bool :=
  match data !! key with
  | Some v => negb (truthy v)
  | None => true
  end.

(** The dataclass stores what it is given, of whatever type. *)
Record MinerConfig : Type := {
  coordinator_url : jvalue;
  data_dir : jvalue;
  node_id : jvalue;
  max_ram_gb : jvalue;
  embedding_dim : jvalue;
  index_version : jvalue;
  miner_secret : jvalue;
  sui_address : jvalue;
  referral_address : jvalue
}.

Inductive config_exn : Type :=
  | FileNotFoundError
  | JSONDecodeError
  | AttributeError
  | TypeError
  | KeyError
  | RuntimeError.

Inductive outcome (A : Type) : Type :=
  | Returns (a : A)
  | Raises (e : config_exn).

Arguments Returns {A} a.
Arguments Raises {A} e.

Definition default_referral : string :=
  "f5e3a292-b3fc-480e-93c6-b475cffd6c18".

(** [MinerConfig.default()]. *)
Definition default : MinerConfig :=
  {| coordinator_url := VStr "wss://api.getrem.online/miners_ws";
     data_dir := VStr "~/.dvm_miner";
     node_id := VStr "";
     max_ram_gb := VInt 4;
     embedding_dim := VInt 384;
     index_version := VInt 1;
     miner_secret := VStr "xuLHbzL7awVGHe-PQpAmwRuVJodUtwFRKGhSnAKS8pQ";
     sui_address := VStr "";
     referral_address := VStr default_referral |}.

Definition config_fields : list string :=
  ["coordinator_url"; "data_dir"; "node_id"; "max_ram_gb"; "embedding_dim";
   "index_version"; "miner_secret"; "sui_address"; "referral_address"]%string.

(** The constructor called with keyword arguments: a keyword that is no
    field, or a field without a keyword, is a [TypeError]. *)
Definition MinerConfig_init (kwargs : gmap string jvalue)
    : outcome MinerConfig :=
  if decide (Forall (fun k => k ∈ config_fields) (map_to_list kwargs).*1) then
    let fields :=
      coordinator_url ← kwargs !! "coordinator_url"%string;
      data_dir ← kwargs !! "data_dir"%string;
      node_id ← kwargs !! "node_id"%string;
      max_ram_gb ← kwargs !! "max_ram_gb"%string;
      embedding_dim ← kwargs !! "embedding_dim"%string;
      index_version ← kwargs !! "index_version"%string;
      miner_secret ← kwargs !! "miner_secret"%string;
      sui_address ← kwargs !! "sui_address"%string;
      referral_address ← kwargs !! "referral_address"%string;
      Some {| coordinator_url := coordinator_url; data_dir := data_dir;
              node_id := node_id; max_ram_gb := max_ram_gb;
              embedding_dim := embedding_dim; index_version := index_version;
              miner_secret := miner_secret; sui_address := sui_address;
              referral_address := referral_address |} in
    match fields with
    | Some config => Returns config
    | None => Raises TypeError
    end
  else Raises TypeError.

(** [asdict(self)]. *)
Definition to_dict (config : MinerConfig) : gmap string jvalue :=
  list_to_map
    [("coordinator_url"%string, coordinator_url config);
     ("data_dir"%string, data_dir config);
     ("node_id"%string, node_id config);
     ("max_ram_gb"%string, max_ram_gb config);
     ("embedding_dim"%string, embedding_dim config);
     ("index_version"%string, index_version config);
     ("miner_secret"%string, miner_secret config);
     ("sui_address"%string, sui_address config);
     ("referral_address"%string, referral_address config)].

(** The file at the path of the configuration: absent, not JSON, JSON
    that is no object, or an object. *)
Inductive config_file : Type :=
  | Absent
  | NotJson
  | NotAnObject
  | Object (data : gmap string jvalue).

(** [load_config(path)]; [fresh_uuid] is what [str(uuid.uuid4())]
    returns. *)
Definition load_config (fresh_uuid : string) (file : config_file)
    : outcome MinerConfig :=
  match file with
  | Absent => Raises FileNotFoundError
  | NotJson => Raises JSONDecodeError
  | NotAnObject => Raises AttributeError      (* data.get *)
  | Object data =>
    let data :=
      if missing_or_empty data "node_id"
      then <["node_id"%string := VStr fresh_uuid]> data else data in
    let data :=
      if missing_or_empty data "referral_address"
      then <["referral_address"%string := VStr default_referral]> data
      else data in
    let filtered_data :=
      filter (fun kv : string * jvalue => kv.1 ∈ config_fields) data in
    MinerConfig_init filtered_data
  end.


End Config.

(** ** Stand-ins with a NaN

    A float is an integer or NaN ([None]): arithmetic on a NaN gives a
    NaN and every comparison with a NaN is false.  The index is an
    exhaustive scan. *)

Module WithNaN.

Definition lift2 (f : Z -> Z -> Z) (x y : option Z) : option Z :=
  a ← x; b ← y; Some (f a b).

#[export] Instance float_ops : FloatOps (option Z) := {|
  f32_of_bits := Some;
  fzero := Some 0;
  fone := Some 1;
  feqb := fun x y =>
    match x, y with Some a, Some b => a =? b | _, _ => false end;
  fltb := fun x y =>
    match x, y with Some a, Some b => a <? b | _, _ => false end;
  fdiv := lift2 Z.div;
  fsub := lift2 Z.sub;
  l2norm := fun v =>
    foldr (fun x acc => lift2 Z.add (lift2 Z.mul x x) acc) (Some 0) v
    ≫= fun sum => Some (Z.sqrt sum)
|}.

Definition dot (u v : list (option Z)) : option Z :=
  foldr (fun p acc => lift2 Z.add (lift2 Z.mul p.1 p.2) acc) (Some 0)
        (zip u v).

Fixpoint insert_hit (h : Z * option Z) (l : list (Z * option Z))
    : list (Z * option Z) :=
  match l with
  | [] => [h]
  | h' :: l' => if fltb h'.2 h.2 then h' :: insert_hit h l' else h :: l
  end.

Definition scan_index : Type := list (Z * list (option Z)).

Definition scan_add (index : scan_index) (vectors : list (list (option Z)))
    (ids : list Z) : scan_index * bool :=
  if decide (length vectors = length ids) then (index ++ zip ids vectors, true)
  else (index, false).

Definition scan_query (index : scan_index) (query : list (option Z)) (k : Z)
    : option (list (Z * option Z)) :=
  if decide (0 <= k <= Z.of_nat (length index)) then
    Some (take (Z.to_nat k)
            (foldr insert_hit []
               (map (fun entry => (entry.1, fsub fone (dot query entry.2)))
                    index)))
  else None.

#[export] Instance scan_kernel : AnnKernel (option Z) := {|
  Index := scan_index;
  init_index := fun _ _ => [];
  get_current_count := fun index => Z.of_nat (length index);
  add_items := scan_add;
  knn_query := scan_query
|}.

(** Two documents in the default shard of collection [c1] of an engine
    for dimension 4, and a query whose first component is NaN. *)
Definition engine_two : VectorEngine :=
  (add_vectors
     (VectorEngine_init {| root_files := ∅; subdirs := ∅ |} 4 1) "c1"
     {| shape0 := 2; shape1 := 4;
        rows := [[Some 0; Some 3; Some 0; Some 0];
                 [Some 2; Some 0; Some 0; Some 0]] |}
     ["b"%string; "a"%string] None).1.


End WithNaN.

(** ** Further sample inputs *)

Module Samples.

Import Reference.

(** A store request for one document of collection [c1]; the 16 bytes
    of the text are four float32 values. *)
Definition store_message : gmap string json :=
  list_to_map
    [("type"%string, JStr "store_request");
     ("request_id"%string, JStr "r2");
     ("collection_id"%string, JStr "c1");
     ("doc_ids"%string, JList [JStr "a"]);
     ("vectors_b64"%string, JStr "0000000000000000");
     ("shape"%string, JList [JInt 1; JInt 4])].

Definition open_connection : websocket (F := Z) :=
  {| ws_open := true; ws_sent := [] |}.

(** A float64 array of three elements, and a float32 query. *)
Definition array_3 : ndarray :=
  {| nd_dtype := other_dtype "float64"; nd_shape := [3];
     nd_data := [1; 2; 3] |}.

(** A configuration file as [save_config] writes the default
    configuration, with a key of an older version. *)
Definition old_config_file : Config.config_file :=
  Config.Object
    (<["wallet"%string := Config.VStr "w"]>
       (Config.to_dict Config.default)).

End Samples.
(** * Properties *)

Lemma result_bind_Ok {A B} (a : A) (f : A -> result B) : Ok a ≫= f = f a.
Proof. reflexivity. Qed.

Lemma result_bind_Raise {A B} (e : exn) (f : A -> result B) :
  Raise e ≫= f = Raise e.
Proof. reflexivity. Qed.

(** ** Capacity *)

Section EngineProperties.

Context {F : Type} {FO : FloatOps F} {K : AnnKernel F}.

Lemma ensure_collection_config (e : VectorEngine) c :
  embedding_dim (ensure_collection e c) = embedding_dim e
  /\ max_bytes (ensure_collection e c) = max_bytes e.
Proof. unfold ensure_collection. by case_decide. Qed.

Lemma enter_shard_config (e : VectorEngine) c s index map_file :
  embedding_dim (enter_shard e c s index map_file) = embedding_dim e
  /\ max_bytes (enter_shard e c s index map_file) = max_bytes e.
Proof.
  unfold enter_shard.
  destruct map_file as [[ | id_map next_id | ] | ]; done.
Qed.

Lemma load_all_config (e : VectorEngine) (d : disk) :
  embedding_dim (load_all e d) = embedding_dim e
  /\ max_bytes (load_all e d) = max_bytes e.
Proof.
  unfold load_all.
  apply (map_fold_weak_ind
           (fun (r : VectorEngine) _ =>
              embedding_dim r = embedding_dim e /\ max_bytes r = max_bytes e)).
  - apply (map_fold_weak_ind
             (fun (r : VectorEngine) _ =>
                embedding_dim r = embedding_dim e /\ max_bytes r = max_bytes e));
      [done|].
    intros name f m r _ [IH1 IH2]. unfold load_legacy.
    destruct (glob_bin name); [|done].
    destruct f; try done.
    destruct (enter_shard_config r (path_stem name) "default" index
                (root_files d !! (path_stem name ++ "_map.json")%string))
      as [-> ->]; done.
  - intros collection_id dir m r _ IH.
    apply (map_fold_weak_ind
             (fun (r' : VectorEngine) _ =>
                embedding_dim r' = embedding_dim e /\ max_bytes r' = max_bytes e));
      [done|].
    intros name f m' r' _ [IH1 IH2]. unfold load_shard.
    destruct (glob_shard_bin name); [|done].
    destruct f; try done.
    match goal with
    | |- context [enter_shard ?a ?b ?c ?i ?mf] =>
      destruct (enter_shard_config a b c i mf) as [-> ->]
    end; done.
Qed.

(** C4.  [can_accept(n)] holds exactly when
    [bytes_used + n * D * 4 <= max_bytes], where [bytes_used] is
    [get_bytes_used() = get_total_vectors() * D * 4] and a constructed
    engine has [max_bytes = max_ram_gb * 2^30]; equivalently it is false
    exactly when [(total_vectors + n) * D * 4 > max_bytes]. *)
Theorem can_accept_iff (e : VectorEngine) (n : Z) :
  (can_accept e n = true
     <-> get_bytes_used e + n * embedding_dim e * 4 <= max_bytes e)
  /\ get_bytes_used e = get_total_vectors e * embedding_dim e * 4
  /\ (can_accept e n = false
        <-> (get_total_vectors e + n) * embedding_dim e * 4 > max_bytes e)
  /\ (forall (d : disk) (dim max_ram_gb : Z),
        max_bytes (VectorEngine_init d dim max_ram_gb) = max_ram_gb * 2 ^ 30
        /\ embedding_dim (VectorEngine_init d dim max_ram_gb) = dim).
Proof.
  unfold can_accept, get_bytes_used. cbn zeta.
  split; [apply bool_decide_eq_true|].
  split; [reflexivity|].
  split.
  - rewrite bool_decide_eq_false. lia.
  - intros d dim g. unfold VectorEngine_init.
    match goal with
    | |- context [load_all ?e0 d] => destruct (load_all_config e0 d) as [-> ->]
    end.
    done.
Qed.

(** ** Argument checks of [add_vectors] *)

(** C7 (amended).  [add_vectors] raises the dimension-mismatch error
    whenever [vectors.shape[1]] differs from the embedding dimension, and
    raises the count-mismatch error whenever the widths agree and the
    number of doc_ids differs from the number of vectors; in both cases
    the engine is left as it was. *)
Theorem add_vectors_checks (e : VectorEngine) (collection_id : string)
    (vectors : ndarray2) (doc_ids : list string) (shard_id : option string) :
  (shape1 vectors ≠ embedding_dim e ->
     add_vectors e collection_id vectors doc_ids shard_id
     = (e, Raise (ValueError_dimension (shape1 vectors) (embedding_dim e))))
  /\ (shape1 vectors = embedding_dim e ->
      Z.of_nat (length doc_ids) ≠ shape0 vectors ->
        add_vectors e collection_id vectors doc_ids shard_id
        = (e, Raise (ValueError_count (Z.of_nat (length doc_ids))
                                      (shape0 vectors)))).
Proof.
  unfold add_vectors. split.
  - intros Hdim. by rewrite decide_True.
  - intros Hdim Hcount. rewrite decide_False by (intros ?; done).
    by rewrite decide_True.
Qed.

(** ** Early exits of [search] *)

(** C8.  [search] returns the empty list, and does not raise, whenever
    the collection is absent, the addressed shard is absent, the shard's
    index is empty, [k <= 0], or the query has zero L2 norm. *)
Theorem search_empty_cases (e : VectorEngine) (collection_id : string)
    (query_vector : list F) (k : Z) (shard_id : option string) :
  indices e !! collection_id = None
  \/ (exists shards, indices e !! collection_id = Some shards
        /\ shards !! _normalize_shard_id shard_id = None)
  \/ (exists shards index, indices e !! collection_id = Some shards
        /\ shards !! _normalize_shard_id shard_id = Some index
        /\ get_current_count index = 0)
  \/ k <= 0
  \/ feqb (l2norm query_vector) fzero = true ->
  search e collection_id query_vector k shard_id = Ok [].
Proof.
  unfold search.
  intros Hcase.
  destruct (indices e !! collection_id) as [shards|] eqn:Hc; [|done].
  destruct (shards !! _normalize_shard_id shard_id) as [index|] eqn:Hs; [|done].
  case_decide as Hk; [done|].
  case_decide as Hn; [done|].
  destruct (feqb (l2norm query_vector) fzero) eqn:Hz; [done|].
  destruct Hcase as [?|[(? & ? & ?)|[(? & ? & ? & ? & ?)|[?|?]]]];
    simplify_eq; done.
Qed.

End EngineProperties.

(** ** Results of [search] *)

Section SearchResults.

Context {F : Type} {FO : FloatOps F} {K : AnnKernel F}.

Lemma insert_desc_perm (x : string * F) l : insert_desc x l ≡ₚ x :: l.
Proof.
  induction l as [|y l IH]; simpl; [done|].
  destruct (fltb x.2 y.2); [|done].
  rewrite IH. apply Permutation_swap.
Qed.

Lemma sort_desc_perm (l : list (string * F)) : sort_desc l ≡ₚ l.
Proof.
  induction l as [|x l IH]; simpl; [done|].
  by rewrite insert_desc_perm, IH.
Qed.






End SearchResults.

(** C10.  A hit of the index query whose label has no entry in the
    shard's id-map, or whose doc_id is the empty string, is left out of
    the results: the results are, up to order, the remaining hits with
    their doc_ids, so the doc_id [""] is never returned; and there is a
    non-empty shard and a [k > 0] for which fewer than
    [min(k, current_count)] results come back. *)
Theorem search_drops_unmapped_hits :
  (forall (F : Type) (FO : FloatOps F) (K : AnnKernel F)
          (id_map : gmap Z string) (hit : Z * F),
      (hit_to_result id_map hit = None
         <-> id_map !! hit.1 = None \/ id_map !! hit.1 = Some ""%string)
      /\ (forall r, hit_to_result id_map hit = Some r ->
            id_map !! hit.1 = Some r.1 /\ r.1 ≠ ""%string
            /\ r.2 = fsub fone hit.2))
  /\ (forall (F : Type) (FO : FloatOps F) (K : AnnKernel F)
             (e : VectorEngine) collection_id query_vector k shard_id results,
        search e collection_id query_vector k shard_id = Ok results ->
        (forall score, ((""%string, score) : string * F) ∉ results)
        /\ (results = []
            \/ exists shards index hits id_map,
                 indices e !! collection_id = Some shards
                 /\ shards !! _normalize_shard_id shard_id = Some index
                 /\ knn_query index
                      (map (fun x => fdiv x (l2norm query_vector)) query_vector)
                      (Z.min k (get_current_count index)) = Some hits
                 /\ lookup2 (id_maps e) collection_id
                      (_normalize_shard_id shard_id) = Ok id_map
                 /\ results ≡ₚ omap (hit_to_result id_map) hits))
  /\ (exists (e : @VectorEngine Z Reference.scan_kernel) index results,
        lookup2 (indices e) "c1" "default" = Ok index
        /\ @get_current_count Z Reference.scan_kernel index = 1
        /\ @search Z Reference.float_ops Reference.scan_kernel
             e "c1" [1; 0; 0; 0] 1 None = Ok results
        /\ Z.of_nat (length results)
           < Z.min 1 (@get_current_count Z Reference.scan_kernel index)).
Proof.
  split; [|split].
  - intros F FO K id_map hit. unfold hit_to_result.
    destruct (id_map !! hit.1) as [doc_id|].
    2: { split; [split; [by left|done]|done]. }
    destruct (decide (doc_id = ""%string)) as [->|Hne].
    + split; [split; [by right|done]|done].
    + split.
      * split; [done|]. intros [?|[= ?]]; done.
      * intros r [= <-]. done.
  - intros F FO K e collection_id query_vector k shard_id results.
    assert (Hhit : forall (id_map : gmap Z string) (hits : list (Z * F)) score,
               ((""%string, score) : string * F)
                 ∉ omap (hit_to_result id_map) hits).
    { intros id_map hits score Hin.
      apply list_elem_of_omap in Hin as (hit & _ & Hr).
      unfold hit_to_result in Hr.
      destruct (id_map !! hit.1) as [doc_id|]; [|done].
      destruct (decide (doc_id = ""%string)) as [|Hne]; [done|].
      injection Hr as Hdoc _. by apply Hne. }
    unfold search.
    destruct (indices e !! collection_id) as [shards|] eqn:Hc.
    2: { intros [= <-]. split; [intros ?; apply not_elem_of_nil | by left]. }
    destruct (shards !! _normalize_shard_id shard_id) as [index|] eqn:Hs.
    2: { intros [= <-]. split; [intros ?; apply not_elem_of_nil | by left]. }
    case_decide.
    { intros [= <-]. split; [intros ?; apply not_elem_of_nil | by left]. }
    case_decide.
    { intros [= <-]. split; [intros ?; apply not_elem_of_nil | by left]. }
    destruct (feqb (l2norm query_vector) fzero).
    { intros [= <-]. split; [intros ?; apply not_elem_of_nil | by left]. }
    destruct (knn_query index _ _) as [hits|] eqn:Hq; simpl; [|done].
    destruct (lookup2 (id_maps e) collection_id _) as [id_map|] eqn:Hm;
      simpl; [|done].
    intros [= <-]. split.
    + intros score. rewrite sort_desc_perm. apply Hhit.
    + right. exists shards, index, hits, id_map.
      repeat split; try done. apply sort_desc_perm.
  - eexists (@add_vectors Z Reference.float_ops Reference.scan_kernel
               Reference.engine0 "c1"
               (Reference.one_row [1; 0; 0; 0]) [""%string] None).1.
    eexists _, _. vm_compute. repeat split; reflexivity.
Qed.

(** ** Internal ids *)

Section ShardInvariant.

Context {F : Type} {FO : FloatOps F} {K : AnnKernel F}.

Lemma lookup2_Ok {V} (d : gmap string (gmap string V)) c s v :
  lookup2 d c s = Ok v <-> get2 d c s = Some v.
Proof.
  unfold lookup2, get2. destruct (d !! c) as [inner|]; simpl; [|done].
  destruct (inner !! s); simpl; split; intros; simplify_eq; done.
Qed.

Lemma lookup2_Raise {V} (d : gmap string (gmap string V)) c s :
  get2 d c s = None -> exists ex, lookup2 d c s = Raise ex.
Proof.
  unfold lookup2, get2. destruct (d !! c) as [inner|]; simpl; [|by eexists].
  destruct (inner !! s); simpl; [done|by eexists].
Qed.

Lemma contains2_true {V} (d : gmap string (gmap string V)) c s :
  contains2 d c s = true <-> is_Some (get2 d c s).
Proof.
  unfold contains2, get2. destruct (d !! c) as [inner|]; simpl.
  - apply bool_decide_eq_true.
  - split; [done|]. by intros [? ?].
Qed.

Lemma get2_set2 {V} (d : gmap string (gmap string V)) c s v c' s' :
  get2 (set2 d c s v) c' s'
  = if decide (c = c' /\ s = s') then Some v else get2 d c' s'.
Proof.
  unfold get2, set2. destruct (decide (c = c')) as [<-|Hc].
  - rewrite lookup_insert_eq. simpl.
    destruct (decide (s = s')) as [<-|Hs].
    + rewrite lookup_insert_eq. by rewrite decide_True.
    + rewrite lookup_insert_ne by done.
      rewrite decide_False by (by intros [_ ?]).
      destruct (d !! c); simpl; [done|apply lookup_empty].
  - rewrite lookup_insert_ne by done.
    by rewrite decide_False by (by intros [? _]).
Qed.

Lemma set2_outer {V} (d : gmap string (gmap string V)) c s v c' :
  is_Some (set2 d c s v !! c') <-> c = c' \/ is_Some (d !! c').
Proof.
  unfold set2. destruct (decide (c = c')) as [<-|Hc].
  - rewrite lookup_insert_eq. split; [by left|by eexists].
  - rewrite lookup_insert_ne by done. split; [by right|].
    by intros [?|?].
Qed.

Lemma store2_Ok {V} (d : gmap string (gmap string V)) c s v :
  is_Some (d !! c) -> store2 d c s v = Ok (set2 d c s v).
Proof. intros [inner Hc]. unfold store2, set2. by rewrite Hc. Qed.

Lemma get2_is_Some_outer {V} (d : gmap string (gmap string V)) c s :
  is_Some (get2 d c s) -> is_Some (d !! c).
Proof. unfold get2. destruct (d !! c); [by eexists|]. by intros [? ?]. Qed.

Lemma next_id_of_get2 (e : VectorEngine) c s :
  next_id_of e c s = default 0 (get2 (next_ids e) c s).
Proof.
  unfold next_id_of. destruct (get2 (next_ids e) c s) as [n|] eqn:Hn.
  - apply lookup2_Ok in Hn. by rewrite Hn.
  - apply lookup2_Raise in Hn as [ex ->]. done.
Qed.

Lemma id_map_of_get2 (e : VectorEngine) c s :
  id_map_of e c s = default ∅ (get2 (id_maps e) c s).
Proof.
  unfold id_map_of. destruct (get2 (id_maps e) c s) as [n|] eqn:Hn.
  - apply lookup2_Ok in Hn. by rewrite Hn.
  - apply lookup2_Raise in Hn as [ex ->]. done.
Qed.

(** The ids of a batch are entered at [start, start + n). *)
Lemma update_id_map_lookup (doc_ids : list string) :
  forall (m : gmap Z string) (start j : Z),
    update_id_map m (seqZ start (Z.of_nat (length doc_ids))) doc_ids !! j
    = if decide (start <= j < start + Z.of_nat (length doc_ids))
      then doc_ids !! Z.to_nat (j - start)
      else m !! j.
Proof.
  unfold update_id_map.
  induction doc_ids as [|d doc_ids IH]; intros m start j.
  - simpl. rewrite decide_False by lia. done.
  - rewrite seqZ_cons by (simpl; lia).
    replace (Z.pred (Z.of_nat (length (d :: doc_ids))))
      with (Z.of_nat (length doc_ids)) by (simpl; lia).
    cbn [zip_with foldl fst snd]. rewrite IH.
    replace (Z.of_nat (length (d :: doc_ids)))
      with (Z.succ (Z.of_nat (length doc_ids))) by (simpl; lia).
    destruct (decide (Z.succ start <= j < Z.succ start + Z.of_nat (length doc_ids)))
      as [Hin|Hout].
    + rewrite decide_True by lia.
      replace (Z.to_nat (j - start)) with (S (Z.to_nat (j - Z.succ start)))
        by lia.
      done.
    + destruct (decide (j = start)) as [->|Hj].
      * rewrite decide_True by lia. rewrite lookup_insert_eq.
        by replace (Z.to_nat (start - start)) with O by lia.
      * rewrite decide_False by lia. by rewrite lookup_insert_ne.
Qed.

Lemma size_of_initial_segment (m : gmap Z string) (n : Z) :
  0 <= n -> (forall j, is_Some (m !! j) <-> 0 <= j < n) ->
  n = Z.of_nat (size m).
Proof.
  intros Hn Hdom.
  assert (Hd : dom m = list_to_set (seqZ 0 n)).
  { apply set_eq. intros j.
    rewrite elem_of_dom, elem_of_list_to_set, elem_of_seqZ, Hdom. lia. }
  rewrite <- size_dom, Hd, size_list_to_set by apply NoDup_seqZ.
  rewrite length_seqZ. lia.
Qed.

Lemma empty_engine_eq dim max_ram_gb :
  empty_engine dim max_ram_gb
  = {| embedding_dim := dim; max_bytes := max_ram_gb * 1024 ^ 3;
       indices := ∅; id_maps := ∅; next_ids := ∅ |}.
Proof.
  unfold empty_engine, VectorEngine_init, load_all. simpl.
  by rewrite !map_fold_empty.
Qed.

Lemma empty_engine_consistent dim max_ram_gb :
  engine_consistent (empty_engine dim max_ram_gb).
Proof.
  rewrite empty_engine_eq. split.
  - intros c. simpl. rewrite !lookup_empty. done.
  - intros c s. simpl. unfold get2. rewrite !lookup_empty. done.
Qed.

(** The engine with one of its dictionaries' entries replaced: what the
    steps of [add_vectors] do to the entries. *)
Lemma ensure_collection_spec (e : VectorEngine) c :
  engine_consistent e ->
  engine_consistent (ensure_collection e c)
  /\ is_Some (indices (ensure_collection e c) !! c)
  /\ (forall c' s', get2 (id_maps (ensure_collection e c)) c' s'
                     = get2 (id_maps e) c' s')
  /\ (forall c' s', get2 (next_ids (ensure_collection e c)) c' s'
                     = get2 (next_ids e) c' s').
Proof.
  intros [HA HB]. unfold ensure_collection.
  destruct (decide (is_Some (indices e !! c))) as [Hc|Hc].
  { split; [by split|]. split; [done|]. by split. }
  assert (Hi : indices e !! c = None).
  { destruct (indices e !! c) eqn:E; [|done]. exfalso. apply Hc. by eexists. }
  destruct (HA c) as [[_ HAm] [_ HAn]].
  assert (Hm : id_maps e !! c = None).
  { destruct (id_maps e !! c) eqn:E; [|done]. exfalso. apply Hc, HAm. by eexists. }
  assert (Hn : next_ids e !! c = None).
  { destruct (next_ids e !! c) eqn:E; [|done]. exfalso. apply Hc, HAn. by eexists. }
  assert (G : forall V (d : gmap string (gmap string V)) c' s',
             d !! c = None -> get2 (<[c := ∅]> d) c' s' = get2 d c' s').
  { intros V d c' s' Hd. unfold get2.
    destruct (decide (c = c')) as [<-|Hne].
    - rewrite lookup_insert_eq, Hd. simpl. apply lookup_empty.
    - by rewrite lookup_insert_ne. }
  simpl. split; [split|].
  - intros c'. simpl. destruct (decide (c = c')) as [<-|Hne].
    + rewrite !lookup_insert_eq. split; split; by eexists.
    + rewrite !lookup_insert_ne by done. apply HA.
  - intros c' s'. simpl. unfold shard_consistent. simpl.
    specialize (HB c' s'). unfold shard_consistent in HB.
    rewrite !G by done.
    destruct (get2 (indices e) c' s'); [|done].
    destruct HB as (m & n & H1 & H2 & H3).
    exists m, n. rewrite !lookup2_Ok in *. by rewrite !G.
  - split; [rewrite lookup_insert_eq; by eexists|].
    split; intros c' s'; by apply G.
Qed.

Lemma ensure_shard_spec (e : VectorEngine) c s :
  engine_consistent e ->
  is_Some (indices e !! c) ->
  exists e2,
    ensure_shard e c s = (e2, Ok ())
    /\ engine_consistent e2
    /\ is_Some (get2 (indices e2) c s)
    /\ next_id_of e2 c s = next_id_of e c s
    /\ id_map_of e2 c s = id_map_of e c s.
Proof.
  intros [HA HB] Hc. unfold ensure_shard.
  destruct (contains2 (indices e) c s) eqn:Hcs.
  { exists e. repeat split; try done; try apply HA.
    by apply contains2_true. }
  assert (Hi : get2 (indices e) c s = None).
  { apply eq_None_not_Some. rewrite <- contains2_true. by rewrite Hcs. }
  pose proof (HB c s) as HBcs. rewrite Hi in HBcs. destruct HBcs as [Hm Hn].
  rewrite !store2_Ok by (done || by apply HA).
  eexists. split; [reflexivity|].
  split; [split|].
  - intros c'. simpl. rewrite !set2_outer. specialize (HA c'). tauto.
  - intros c' s'. simpl. unfold shard_consistent. simpl.
    rewrite !get2_set2.
    destruct (decide (c = c' /\ s = s')) as [[<- <-]|Hne].
    + exists ∅, 0. rewrite !lookup2_Ok, !get2_set2.
      rewrite !decide_True by done.
      split; [done|]. split; [done|]. split; [done|].
      intros j. rewrite lookup_empty. split; [by intros [? ?]|lia].
    + specialize (HB c' s'). unfold shard_consistent in HB.
      destruct (get2 (indices e) c' s'); [|done].
      destruct HB as (m & n & H1 & H2 & H3).
      exists m, n. rewrite !lookup2_Ok, !get2_set2 in *.
      rewrite !decide_False by done. done.
  - simpl. rewrite get2_set2, decide_True by done.
    split; [by eexists|].
    rewrite !next_id_of_get2, !id_map_of_get2. simpl.
    rewrite !get2_set2, !decide_True by done.
    by rewrite Hm, Hn.
Qed.

Lemma add_to_shard_spec (e : VectorEngine) c s vectors doc_ids :
  engine_consistent e ->
  is_Some (get2 (indices e) c s) ->
  engine_consistent (add_to_shard e c s vectors doc_ids).1
  /\ ((add_to_shard e c s vectors doc_ids).2 = Ok () ->
      next_id_of (add_to_shard e c s vectors doc_ids).1 c s
      = next_id_of e c s + Z.of_nat (length doc_ids)
      /\ id_map_of (add_to_shard e c s vectors doc_ids).1 c s
         = update_id_map (id_map_of e c s)
             (seqZ (next_id_of e c s) (Z.of_nat (length doc_ids))) doc_ids).
Proof.
  intros [HA HB] [index Hi]. unfold add_to_shard.
  pose proof (HB c s) as HBcs. rewrite Hi in HBcs.
  destruct HBcs as (m & start & Hm & Hn & Hstart & Hdom).
  apply lookup2_Ok in Hi as Hi'. rewrite Hi', Hn.
  assert (Hstart_of : next_id_of e c s = start)
    by (unfold next_id_of; by rewrite Hn).
  assert (Hm_of : id_map_of e c s = m)
    by (unfold id_map_of; by rewrite Hm).
  rewrite Hstart_of, Hm_of.
  destruct (add_items index _ _) as [index' returned].
  (* replacing the index of an existing shard keeps the consistency *)
  assert (Hkeep : forall id_maps' next_ids' m' n',
    (forall c', is_Some (id_maps' !! c') <-> is_Some (id_maps e !! c')) ->
    (forall c', is_Some (next_ids' !! c') <-> is_Some (next_ids e !! c')) ->
    (forall c' s', ¬ (c = c' /\ s = s') ->
        get2 id_maps' c' s' = get2 (id_maps e) c' s'
        /\ get2 next_ids' c' s' = get2 (next_ids e) c' s') ->
    get2 id_maps' c s = Some m' -> get2 next_ids' c s = Some n' ->
    0 <= n' -> (forall j, is_Some (m' !! j) <-> 0 <= j < n') ->
    engine_consistent
      {| embedding_dim := embedding_dim e; max_bytes := max_bytes e;
         indices := set2 (indices e) c s index';
         id_maps := id_maps'; next_ids := next_ids' |}).
  { intros id_maps' next_ids' m' n' Ho1 Ho2 Hother H1 H2 H3 H4. split.
    - intros c'. simpl. rewrite set2_outer, Ho1, Ho2.
      specialize (HA c').
      assert (Hic : is_Some (indices e !! c))
        by (eapply get2_is_Some_outer; by eexists).
      destruct (decide (c = c')) as [<-|Hne]; tauto.
    - intros c' s'. simpl. unfold shard_consistent. simpl.
      rewrite get2_set2.
      destruct (decide (c = c' /\ s = s')) as [[<- <-]|Hne].
      + exists m', n'. by rewrite !lookup2_Ok.
      + destruct (Hother c' s' Hne) as [E1 E2].
        specialize (HB c' s'). unfold shard_consistent in HB.
        destruct (get2 (indices e) c' s').
        * destruct HB as (m0 & n0 & G1 & G2 & G3).
          exists m0, n0. rewrite !lookup2_Ok in *. by rewrite E1, E2.
        * by rewrite E1, E2. }
  apply lookup2_Ok in Hm as Hm'. apply lookup2_Ok in Hn as Hn'.
  assert (Hcm : is_Some (id_maps e !! c))
    by (eapply get2_is_Some_outer; by eexists).
  assert (Hcn : is_Some (next_ids e !! c))
    by (eapply get2_is_Some_outer; by eexists).
  destruct returned; simpl negb; cbv iota.
  2: { simpl. split; [|done]. by eapply Hkeep. }
  assert (Hdom' : forall j,
    is_Some (update_id_map m (seqZ start (Z.of_nat (length doc_ids))) doc_ids !! j)
    <-> 0 <= j < start + Z.of_nat (length doc_ids)).
  { intros j. rewrite update_id_map_lookup.
    destruct (decide (start <= j < start + Z.of_nat (length doc_ids))) as [Hj|Hj].
    - split; [lia|]. intros _. apply lookup_lt_is_Some. lia.
    - rewrite Hdom. lia. }
  assert (Hset_outer : forall V (d : gmap string (gmap string V)) v c',
    is_Some (d !! c) -> is_Some (set2 d c s v !! c') <-> is_Some (d !! c')).
  { intros V d v c' Hd. rewrite set2_outer.
    destruct (decide (c = c')) as [<-|]; tauto. }
  destruct doc_ids as [|d doc_ids].
  - csimpl. rewrite store2_Ok by done. simpl. split.
    + apply (Hkeep _ _ m (start + 0)).
      * done.
      * intros c'. by apply Hset_outer.
      * intros c' s' Hne. by rewrite get2_set2, decide_False.
      * done.
      * by rewrite get2_set2, decide_True.
      * lia.
      * intros j. rewrite Hdom. lia.
    + intros _. rewrite next_id_of_get2, id_map_of_get2. simpl.
      rewrite get2_set2, decide_True, Hm' by done. simpl.
      split; [lia|done].
  - rewrite Hm. csimpl. rewrite !store2_Ok by done. simpl. split.
    + apply (Hkeep _ _
               (update_id_map m
                  (seqZ start (Z.of_nat (length (d :: doc_ids)))) (d :: doc_ids))
               (start + Z.of_nat (length (d :: doc_ids)))).
      * intros c'. by apply Hset_outer.
      * intros c'. by apply Hset_outer.
      * intros c' s' Hne. by rewrite !get2_set2, !decide_False.
      * by rewrite get2_set2, decide_True.
      * by rewrite get2_set2, decide_True.
      * lia.
      * apply Hdom'.
    + intros _. rewrite next_id_of_get2, id_map_of_get2. simpl.
      by rewrite !get2_set2, !decide_True.
Qed.

Lemma add_vectors_spec (e : VectorEngine) c vectors doc_ids shard_id :
  engine_consistent e ->
  engine_consistent (add_vectors e c vectors doc_ids shard_id).1
  /\ ((add_vectors e c vectors doc_ids shard_id).2 = Ok () ->
      next_id_of (add_vectors e c vectors doc_ids shard_id).1 c
                 (_normalize_shard_id shard_id)
      = next_id_of e c (_normalize_shard_id shard_id)
        + Z.of_nat (length doc_ids)
      /\ id_map_of (add_vectors e c vectors doc_ids shard_id).1 c
                   (_normalize_shard_id shard_id)
         = update_id_map (id_map_of e c (_normalize_shard_id shard_id))
             (seqZ (next_id_of e c (_normalize_shard_id shard_id))
                   (Z.of_nat (length doc_ids))) doc_ids).
Proof.
  intros He. unfold add_vectors.
  case_decide; [done|]. case_decide; [done|].
  destruct (ensure_collection_spec e c He) as (He1 & Hc1 & Gm & Gn).
  destruct (ensure_shard_spec _ c (_normalize_shard_id shard_id) He1 Hc1)
    as (e2 & -> & He2 & Hs2 & Hn2 & Hm2).
  destruct (add_to_shard_spec e2 c (_normalize_shard_id shard_id)
              vectors doc_ids He2 Hs2) as [Hcons Hbatch].
  split; [done|].
  intros Hok. destruct (Hbatch Hok) as [-> ->].
  rewrite Hn2, Hm2, !next_id_of_get2, !id_map_of_get2, Gm, Gn. done.
Qed.

Lemma reachable_consistent (e : VectorEngine) :
  reachable e -> engine_consistent e.
Proof.
  induction 1 as [dim g|e c v d s _ IH].
  - apply empty_engine_consistent.
  - by apply add_vectors_spec.
Qed.

(** C6.  In every engine reached from an empty one by calls of
    [add_vectors], every shard has an id-map and a counter, and
    [next_id] is the number of entries of the id-map; a successful batch
    of [n] doc_ids enters them at the internal ids
    [next_id, ..., next_id + n - 1], leaves the other entries alone and
    adds [n] to [next_id]. *)
Theorem next_id_counts_id_map (e : VectorEngine) :
  reachable e ->
  (forall c s, is_shard e c s ->
     exists m n, lookup2 (id_maps e) c s = Ok m
                 /\ lookup2 (next_ids e) c s = Ok n
                 /\ n = Z.of_nat (size m))
  /\ (forall c vectors doc_ids shard_id e',
        add_vectors e c vectors doc_ids shard_id = (e', Ok ()) ->
        let s := _normalize_shard_id shard_id in
        let start := next_id_of e c s in
        next_id_of e' c s = start + Z.of_nat (length doc_ids)
        /\ (forall i doc_id,
              doc_ids !! i = Some doc_id ->
              id_map_of e' c s !! (start + Z.of_nat i) = Some doc_id)
        /\ (forall j,
              ¬ (start <= j < start + Z.of_nat (length doc_ids)) ->
              id_map_of e' c s !! j = id_map_of e c s !! j)).
Proof.
  intros Hr. apply reachable_consistent in Hr as [HA HB]. split.
  - intros c s Hs. apply contains2_true in Hs as [index Hs].
    specialize (HB c s). rewrite Hs in HB.
    destruct HB as (m & n & Hm & Hn & Hpos & Hdom).
    exists m, n. repeat split; try done.
    by apply size_of_initial_segment.
  - intros c vectors doc_ids shard_id e' Hadd s start.
    destruct (add_vectors_spec e c vectors doc_ids shard_id (conj HA HB))
      as [_ Hbatch].
    rewrite Hadd in Hbatch. destruct (Hbatch eq_refl) as [Hn Hm].
    simpl in Hn, Hm. fold s in Hn, Hm. fold start in Hn, Hm.
    split; [done|]. rewrite Hm. split.
    + intros i doc_id Hi. rewrite update_id_map_lookup.
      apply lookup_lt_Some in Hi as Hlt.
      rewrite decide_True by lia.
      by replace (Z.to_nat (start + Z.of_nat i - start)) with i by lia.
    + intros j Hj. rewrite update_id_map_lookup. by rewrite decide_False.
Qed.

End ShardInvariant.

(** ** The proof-of-RAM challenge *)

Section Challenge.

Context {C : Codec} {P : Pydantic} {H : Sha256}.

Hypothesis sha256_length : forall m, length (sha256 m) = 32%nat.

Lemma to_bytes_8_big_fits n :
  0 <= n < 2 ^ 64 -> to_bytes_8_big n = Ok (big_endian_uint64 n).
Proof. intros Hn. unfold to_bytes_8_big. by rewrite decide_True. Qed.

Lemma to_bytes_8_big_overflow n :
  ¬ (0 <= n < 2 ^ 64) -> to_bytes_8_big n = Raise OverflowError.
Proof. intros Hn. unfold to_bytes_8_big. by rewrite decide_False. Qed.

Lemma digests_needed_step size :
  32 <= size -> digests_needed size = S (digests_needed (size - 32)).
Proof. unfold digests_needed. intros Hs. Z.div_mod_to_equations. lia. Qed.

Lemma digests_needed_partial size :
  0 < size < 32 -> digests_needed size = 1%nat.
Proof. unfold digests_needed. intros Hs. Z.div_mod_to_equations. lia. Qed.

Lemma digests_needed_none size : size <= 0 -> digests_needed size = O.
Proof. unfold digests_needed. intros Hs. Z.div_mod_to_equations. lia. Qed.

Lemma length_digest_stream seed offset n :
  length (digest_stream seed offset n) = (32 * n)%nat.
Proof.
  revert offset. induction n as [|n IH]; intros offset; simpl; [done|].
  rewrite length_app, sha256_length, IH. lia.
Qed.

(** The loop, started with [remaining] bytes to go, appends the first
    [remaining] bytes of the digest stream that starts at the current
    offset; it raises when an offset of that stream does not fit 64
    bits. *)
Lemma challenge_loop_spec seed size :
  forall (fuel : nat) (chunk_data : bytes) (current_offset : Z),
    let remaining := size - Z.of_nat (length chunk_data) in
    (digests_needed remaining <= fuel)%nat ->
    challenge_loop fuel seed size chunk_data current_offset
    = if decide (offsets_fit remaining current_offset) then
        Finished
          (chunk_data ++ take (Z.to_nat remaining)
             (digest_stream seed current_offset (digests_needed remaining)))
          (current_offset + Z.max 0 remaining)
      else Raised OverflowError.
Proof.
  induction fuel as [|fuel IH]; intros chunk_data current_offset remaining Hfuel.
  - (* no iteration is needed *)
    assert (Hrem : remaining <= 0).
    { destruct (decide (remaining <= 0)) as [|Hpos]; [done|].
      unfold digests_needed in Hfuel. Z.div_mod_to_equations. lia. }
    simpl. rewrite decide_False by (unfold remaining in Hrem; lia).
    rewrite decide_True by (by left).
    replace (Z.to_nat remaining) with O by lia.
    rewrite take_0, app_nil_r. f_equal. lia.
  - simpl. destruct (decide (Z.of_nat (length chunk_data) < size)) as [Hlt|Hge].
    2: { assert (Hrem : remaining <= 0) by (unfold remaining; lia).
         rewrite decide_True by (by left).
         replace (Z.to_nat remaining) with O by lia.
         rewrite take_0, app_nil_r. f_equal. lia. }
    assert (Hpos : 0 < remaining) by (unfold remaining; lia).
    destruct (decide (0 <= current_offset < 2 ^ 64)) as [Hin|Hout].
    2: { rewrite to_bytes_8_big_overflow by done.
         rewrite decide_False; [done|].
         intros [?|[? Hfit]]; [lia|].
         assert (1 <= digests_needed remaining)%nat;
           [unfold digests_needed; Z.div_mod_to_equations; lia|lia]. }
    rewrite to_bytes_8_big_fits by done.
    fold remaining.
    destruct (decide (remaining >= 32)) as [Hfull|Hpart].
    + (* a full digest *)
      rewrite IH; rewrite length_app, sha256_length;
        replace (size - Z.of_nat (length chunk_data + 32)) with (remaining - 32)
          by (unfold remaining; lia).
      2: { rewrite digests_needed_step in Hfuel by lia. lia. }
      assert (Hstep : digests_needed remaining
                      = S (digests_needed (remaining - 32)))
        by (apply digests_needed_step; lia).
      rewrite Hstep.
      destruct (decide (offsets_fit (remaining - 32) (current_offset + 32)))
        as [Hfit'|Hfit'].
      * rewrite decide_True.
        2: { right. rewrite Hstep. destruct Hfit' as [Hz|[? ?]]; [|lia].
             rewrite (digests_needed_none _ Hz). lia. }
        simpl digest_stream. rewrite <- app_assoc. f_equal; [|lia].
        f_equal. rewrite take_app_ge by (rewrite sha256_length; lia).
        rewrite sha256_length. f_equal. f_equal. lia.
      * rewrite decide_False; [done|].
        intros [?|[? Hfit]]; [lia|]. apply Hfit'. rewrite Hstep in Hfit.
        destruct (decide (remaining - 32 <= 0)); [by left|right]. lia.
    + (* the last, partial digest *)
      rewrite IH; rewrite length_app, length_take, sha256_length;
        replace (size - Z.of_nat (length chunk_data + Z.to_nat remaining `min` 32))
          with 0 by (unfold remaining in *; lia).
      2: { rewrite digests_needed_none by done. lia. }
      rewrite decide_True by (by left).
      assert (Hone : digests_needed remaining = 1%nat)
        by (apply digests_needed_partial; lia).
      rewrite Hone.
      rewrite decide_True by (right; rewrite Hone; lia).
      simpl. rewrite !app_nil_r. f_equal. lia.
Qed.

Lemma challenge_loop_chunk seed size fuel offset :
  (digests_needed size <= fuel)%nat ->
  challenge_loop fuel seed size [] offset
  = if decide (offsets_fit size offset) then
      Finished (spec_chunk seed offset size) (offset + Z.max 0 size)
    else Raised OverflowError.
Proof.
  intros Hfuel.
  rewrite challenge_loop_spec; simpl length;
    replace (size - Z.of_nat 0) with size by lia; done.
Qed.

Lemma length_spec_chunk seed offset size :
  Z.of_nat (length (spec_chunk seed offset size)) = Z.max 0 size.
Proof.
  unfold spec_chunk. rewrite length_take, length_digest_stream.
  unfold digests_needed. Z.div_mod_to_equations. lia.
Qed.

Lemma challenge_chunks_spec seed size fuel offsets :
  (digests_needed size <= fuel)%nat ->
  challenge_chunks fuel seed size offsets
  = Some (if decide (Forall (offsets_fit size) offsets) then
            Ok (map (fun offset => b64encode (spec_chunk seed offset size))
                    offsets)
          else Raise OverflowError).
Proof.
  intros Hfuel.
  induction offsets as [|offset offsets IH]; cbn [challenge_chunks map].
  - by rewrite decide_True.
  - rewrite challenge_loop_chunk by done.
    destruct (decide (offsets_fit size offset)) as [Hfit|Hfit].
    + rewrite IH.
      destruct (decide (Forall (offsets_fit size) offsets)) as [Hall|Hall].
      * by rewrite decide_True by (by constructor).
      * rewrite decide_False; [done|]. by inversion 1.
    + rewrite decide_False; [done|]. by inversion 1.
Qed.

Lemma required_with_default {A} (msg : gmap string json) name
    (validate : json -> option A) (a d : A) :
  required msg name validate = Ok a ->
  with_default msg name validate d = Ok a.
Proof. unfold required, with_default. by destruct (msg !! name). Qed.

Lemma parse_challenge_id msg request :
  ChallengeRequest_parse msg = Ok request ->
  with_default msg "challenge_id" validate_str "unknown"%string
  = Ok (cr_challenge_id request).
Proof.
  unfold ChallengeRequest_parse. intros Hp.
  repeat match type of Hp with
         | mbind _ ?r = Ok _ =>
           let E := fresh "E" in destruct r eqn:E; simpl in Hp; [|discriminate]
         end.
  injection Hp as <-. simpl. by apply required_with_default.
Qed.

(** C3.  For a challenge request with a well-formed hexadecimal seed,
    the chunks come in the order of the offsets and each is the base64
    text of the first [chunk_size] bytes of the successive SHA-256 digests
    of [epoch_seed || big_endian_uint64(current_offset)], the offset
    advancing by 32 per digest; the byte string has [chunk_size] bytes
    (none when [chunk_size] is not positive).  When an offset to hash does
    not fit 64 bits, or the chunk size is so large that the log line
    overflows, the response has no chunk.  Two requests with the same
    seed, offsets and chunk size get the same chunks. *)
Theorem challenge_chunks_of_digests
    (message_dict : gmap string json) (request : ChallengeRequest)
    (epoch_seed : bytes) (fuel : nat) (elapsed_ms : Z) :
  ChallengeRequest_parse message_dict = Ok request ->
  fromhex (cr_epoch_seed request) = Ok epoch_seed ->
  (digests_needed (cr_chunk_size request) <= fuel)%nat ->
  let chunk_size := cr_chunk_size request in
  (exists response,
      _handle_challenge fuel elapsed_ms message_dict = Some (Ok response)
      /\ chal_chunks response
         = if decide (chunk_size_kb_overflows chunk_size = false
                      /\ Forall (offsets_fit chunk_size) (cr_offsets request))
           then map (fun offset =>
                       b64encode (spec_chunk epoch_seed offset chunk_size))
                    (cr_offsets request)
           else [])
  /\ (forall offset,
        Z.of_nat (length (spec_chunk epoch_seed offset chunk_size))
        = Z.max 0 chunk_size
        /\ (offsets_fit chunk_size offset ->
            challenge_loop fuel epoch_seed chunk_size [] offset
            = Finished (spec_chunk epoch_seed offset chunk_size)
                       (offset + Z.max 0 chunk_size)))
  /\ (forall message_dict' request' fuel' elapsed_ms',
        ChallengeRequest_parse message_dict' = Ok request' ->
        fromhex (cr_epoch_seed request') = Ok epoch_seed ->
        cr_offsets request' = cr_offsets request ->
        cr_chunk_size request' = chunk_size ->
        (digests_needed chunk_size <= fuel')%nat ->
        exists response response',
          _handle_challenge fuel elapsed_ms message_dict = Some (Ok response)
          /\ _handle_challenge fuel' elapsed_ms' message_dict'
             = Some (Ok response')
          /\ chal_chunks response' = chal_chunks response).
Proof.
  intros Hparse Hseed Hfuel chunk_size.
  assert (Hrun : forall msg req fl el,
    ChallengeRequest_parse msg = Ok req ->
    fromhex (cr_epoch_seed req) = Ok epoch_seed ->
    (digests_needed (cr_chunk_size req) <= fl)%nat ->
    exists response,
      _handle_challenge fl el msg = Some (Ok response)
      /\ chal_chunks response
         = if decide (chunk_size_kb_overflows (cr_chunk_size req) = false
                      /\ Forall (offsets_fit (cr_chunk_size req))
                                (cr_offsets req))
           then map (fun offset =>
                       b64encode (spec_chunk epoch_seed offset (cr_chunk_size req)))
                    (cr_offsets req)
           else []).
  { intros msg req fl el Hp Hs Hf. unfold _handle_challenge.
    rewrite Hp, (parse_challenge_id _ _ Hp).
    destruct (chunk_size_kb_overflows (cr_chunk_size req)) eqn:Hkb.
    { rewrite decide_False by (by intros [? _]). simpl. by eexists. }
    rewrite Hs, challenge_chunks_spec by done.
    destruct (decide (Forall _ _)) as [Hall|Hall].
    - rewrite decide_True by done. simpl. by eexists.
    - rewrite decide_False by (by intros [_ ?]). simpl. by eexists. }
  split; [by apply Hrun|]. split.
  - intros offset. split; [apply length_spec_chunk|].
    intros Hfit. rewrite challenge_loop_chunk by done. by rewrite decide_True.
  - intros msg' req' fuel' el' Hp' Hs' Hoff Hsize Hfuel'.
    destruct (Hrun _ _ fuel elapsed_ms Hparse Hseed Hfuel) as (r & Hr & Hc).
    destruct (Hrun msg' req' fuel' el' Hp' Hs') as (r' & Hr' & Hc').
    { by rewrite Hsize. }
    exists r, r'. repeat split; try done.
    rewrite Hc, Hc', Hoff, Hsize. done.
Qed.

End Challenge.

(** ** The wire codec *)

Lemma Z_of_byte_of_Z (z : Z) : Z_of_byte (byte_of_Z z) = z mod 256.
Proof.
  unfold Z_of_byte, byte_of_Z.
  assert (Hr : 0 <= z mod 256 < 256) by (apply Z.mod_pos_bound; lia).
  destruct (Byte.of_N (Z.to_N (z mod 256))) as [b|] eqn:Hb; simpl.
  - apply Byte.to_of_N in Hb. rewrite Hb. lia.
  - apply Byte.of_N_None_iff in Hb. lia.
Qed.

Lemma f32_frombytes_tobytes (w : Z) :
  0 <= w < 2 ^ 32 ->
  f32_frombytes (byte_of_Z w) (byte_of_Z (w / 256)) (byte_of_Z (w / 65536))
                (byte_of_Z (w / 16777216)) = w.
Proof.
  intros Hw. unfold f32_frombytes. rewrite !Z_of_byte_of_Z.
  change (2 ^ 32) with 4294967296 in Hw.
  Z.div_mod_to_equations. lia.
Qed.

Lemma frombuffer_tobytes (data : list Z) :
  Forall (fun w => 0 <= w < 2 ^ 32) data ->
  frombuffer (tobytes data) = Some data.
Proof.
  induction 1 as [|w data Hw _ IH]; [done|].
  unfold tobytes in *. simpl. rewrite IH.
  by rewrite f32_frombytes_tobytes.
Qed.

Lemma reshape_exact (data shape : list Z) :
  Forall (fun d => 0 <= d) shape ->
  product shape = Z.of_nat (length data) ->
  reshape data shape
  = Ok {| nd_dtype := float32; nd_shape := shape; nd_data := data |}.
Proof.
  intros Hshape Hsize. unfold reshape.
  assert (Hall : forallb (fun d => 0 <=? d) shape = true).
  { apply forallb_forall. intros d Hd.
    rewrite Forall_forall in Hshape. apply Z.leb_le, Hshape.
    by apply list_elem_of_In. }
  rewrite Hall, Hsize, Z.eqb_refl. done.
Qed.

Section Roundtrip.

Context {C : Codec} {DC : DtypeCast}.

Hypothesis zstd_roundtrip :
  forall b, zstd_decompress (zstd_compress b) = Some b.
Hypothesis b64_roundtrip :
  forall b, b64decode (b64encode b) = Some b.

(** C5.  For a float32 array [V] of shape [(n, dim)], [encode_vectors V]
    returns a text and the shape [(n, dim)], and [decode_vectors]
    applied to them gives [V] back, bit for bit.  zstandard and base64
    decode what they encoded. *)
Theorem decode_encode_vectors (V : ndarray) (n dim : Z) :
  float32_matrix V n dim ->
  exists data_b64,
    encode_vectors V = Ok (data_b64, [n; dim])
    /\ decode_vectors data_b64 [n; dim] = Ok V.
Proof.
  intros (Hdtype & Hshape & Hn & Hdim & Hsize & Hdata).
  destruct V as [dt sh data]. simpl in *. subst dt sh.
  unfold encode_vectors, ensure_float32, decode_vectors.
  cbn [nd_dtype nd_shape nd_data]. rewrite decide_False by (by intros ?).
  rewrite result_bind_Ok. cbn [nd_data nd_shape].
  eexists. split; [reflexivity|].
  rewrite b64_roundtrip. cbn [of_option]. rewrite result_bind_Ok.
  rewrite zstd_roundtrip. cbn [of_option]. rewrite result_bind_Ok.
  rewrite frombuffer_tobytes by done. cbn [of_option]. rewrite result_bind_Ok.
  apply reshape_exact; [by repeat constructor|simpl; lia].
Qed.

End Roundtrip.

(** ** The search handler *)

Section SearchHandler.

Context {F : Type} {FO : FloatOps F} {K : AnnKernel F}.
Context {C : Codec} {P : Pydantic} {H : Sha256}.

(** C1 (amended).  The search handler calls the engine's [search] with
    [k] equal to the request's [top_k]; when the incoming message has no
    field [top_k], that is the default 10 of the message schema (the
    fallback 50 of the handler is never used). *)
Theorem search_k_is_top_k (node : MinerNode) (message_dict : gmap string json)
    (request : SearchRequest) (query_vector : ndarray) (k : Z) :
  search_arguments message_dict = Ok (request, query_vector, k) ->
  k = sr_top_k request
  /\ (message_dict !! "top_k"%string = None -> k = 10)
  /\ (forall v, message_dict !! "top_k"%string = Some v ->
                validate_int v = Some k)
  /\ _handle_search node message_dict
     = Ok {| resp_request_id := sr_request_id request;
             resp_node_id := node_id node;
             resp_results :=
               match search (engine node) (sr_collection_id request)
                            (map f32_of_bits (nd_data query_vector))
                            (sr_top_k request) (sr_shard_id request) with
               | Ok results => results
               | Raise _ => []
               end |}.
Proof.
  unfold search_arguments. intros Hargs.
  destruct (SearchRequest_parse message_dict) as [request0|] eqn:Hparse;
    simpl in Hargs; [|done].
  destruct (decode_query_vector _ _) as [qv|] eqn:Hdecode;
    simpl in Hargs; [|done].
  injection Hargs as <- <- <-.
  unfold SearchRequest_getattr_int. rewrite decide_True by done.
  split; [done|].
  assert (Hfields :
    required message_dict "request_id" validate_str = Ok (sr_request_id request0)
    /\ with_default message_dict "top_k" validate_int 10
       = Ok (sr_top_k request0)).
  { unfold SearchRequest_parse in Hparse.
    repeat match type of Hparse with
           | mbind _ ?r = Ok _ =>
             let E := fresh "E" in
             destruct r eqn:E; simpl in Hparse; [|discriminate]
           end.
    injection Hparse as <-. by simpl. }
  destruct Hfields as [Hid Htop].
  split; [|split].
  - intros Hnone. unfold with_default in Htop. rewrite Hnone in Htop.
    by injection Htop.
  - intros v Hv. unfold with_default in Htop. rewrite Hv in Htop.
    destruct (validate_int v); simpl in Htop; [|done]. by injection Htop as ->.
  - unfold _handle_search, search_arguments.
    rewrite Hparse. simpl. rewrite Hdecode. simpl.
    unfold SearchRequest_getattr_int. rewrite decide_True by done.
    destruct (search _ _ _ _ _); simpl; [done|].
    by rewrite Hid.
Qed.

End SearchHandler.

(** ** The model on concrete inputs *)

Module Examples.

Import Reference.





Lemma fold_digest_length (m : bytes) : length (sha256 m) = 32%nat.
Proof. reflexivity. Qed.

Lemma store_codec_zstd (b : bytes) : zstd_decompress (zstd_compress b) = Some b.
Proof. reflexivity. Qed.

Lemma store_codec_b64 (b : bytes) : b64decode (b64encode b) = Some b.
Proof.
  simpl. f_equal. unfold bytes_of_string, string_of_bytes.
  rewrite list_ascii_of_string_of_list_ascii.
  induction b as [|x b IH]; simpl; [done|].
  by rewrite byte_of_ascii_of_byte, IH.
Qed.

(** C1: a request without [top_k] reaches the engine with [k = 10]. *)
Lemma search_default_k_counterexample :
  search_message !! "top_k"%string = None
  /\ exists request query_vector k,
       search_arguments search_message = Ok (request, query_vector, k)
       /\ k = 10 /\ k ≠ 50.
Proof.
  split; [vm_compute; reflexivity|].
  eexists _, _, _. split; [vm_compute; reflexivity|]. split; [reflexivity|lia].
Qed.

Lemma search_k_is_top_k_witness :
  exists request query_vector,
    search_arguments search_message = Ok (request, query_vector, 10)
    /\ 10 = sr_top_k request
    /\ resp_results
         <$> (match _handle_search node0 search_message with
              | Ok r => Some r | Raise _ => None end) = Some [].
Proof.
  eexists _, _.
  assert (Hargs : search_arguments search_message
                  = Ok ({| sr_request_id := "r1"; sr_collection_id := "c1";
                           sr_shard_id := None;
                           sr_query_b64 := "0000000000000000";
                           sr_shape := [4]; sr_top_k := 10 |},
                        {| nd_dtype := float32; nd_shape := [4];
                           nd_data := [808464432; 808464432;
                                       808464432; 808464432] |}, 10))
    by (vm_compute; reflexivity).
  split; [exact Hargs|].
  destruct (search_k_is_top_k node0 _ _ _ _ Hargs) as (Hk & _ & _ & Hh).
  split; [exact Hk|]. rewrite Hh. vm_compute. reflexivity.
Defined.

(** C2: a shard whose id contains [shard_] is reloaded under another id
    and without its id-map. *)
Theorem save_load_loses_prefixed_shard :
  (search engine_a "c1" [1; 0; 0; 0] 1 (Some "shard_0"%string)
     = Ok [("a"%string, 1)]
   /\ get_total_vectors engine_a = 1
   /\ exists reloaded,
        save_and_reload engine_a = Ok reloaded
        /\ get_total_vectors reloaded = 1
        /\ search reloaded "c1" [1; 0; 0; 0] 1 (Some "shard_0"%string) = Ok []
        /\ contains2 (indices reloaded) "c1" "shard_0" = false
        /\ contains2 (indices reloaded) "c1" "0" = true
        /\ lookup2 (id_maps reloaded) "c1" "0" = Ok ∅)
  /\ (get_total_vectors engine_ab = 2
      /\ exists reloaded,
           save_and_reload engine_ab = Ok reloaded
           /\ get_total_vectors reloaded = 1
           /\ search reloaded "c1" [1; 0; 0; 0] 1 (Some "shard_0"%string)
              = Ok []).
Proof.
  split.
  - split; [vm_compute; reflexivity|]. split; [vm_compute; reflexivity|].
    eexists. split; [vm_compute; reflexivity|].
    repeat split; vm_compute; reflexivity.
  - split; [vm_compute; reflexivity|].
    eexists. split; [vm_compute; reflexivity|].
    repeat split; vm_compute; reflexivity.
Qed.

Lemma challenge_chunks_of_digests_witness :
  exists response,
    _handle_challenge 2 7 challenge_message = Some (Ok response)
    /\ chal_chunks response
       = [b64encode (spec_chunk (repeat "000"%byte 32) 0 40)]
    /\ length (spec_chunk (repeat "000"%byte 32) 0 40) = 40%nat.
Proof.
  assert (Hparse : ChallengeRequest_parse challenge_message
                   = Ok {| cr_challenge_id := "ch1";
                           cr_epoch_seed :=
     "0000000000000000000000000000000000000000000000000000000000000000";
                           cr_offsets := [0]; cr_chunk_size := 40;
                           cr_deadline_ms := 1000 |})
    by (vm_compute; reflexivity).
  destruct (challenge_chunks_of_digests fold_digest_length
              challenge_message _ (repeat "000"%byte 32) 2 7 Hparse)
    as ((response & Hrun & Hchunks) & _ & _).
  - vm_compute; reflexivity.
  - vm_compute; lia.
  - exists response. split; [exact Hrun|]. rewrite Hchunks.
    split; vm_compute; reflexivity.
Defined.

Lemma decode_encode_vectors_witness :
  float32_matrix array_1_2 1 2
  /\ exists data_b64,
       encode_vectors array_1_2 = Ok (data_b64, [1; 2])
       /\ decode_vectors data_b64 [1; 2] = Ok array_1_2.
Proof.
  assert (Hwf : float32_matrix array_1_2 1 2).
  { unfold float32_matrix. simpl. repeat split; try lia; try done.
    repeat constructor; lia. }
  split; [exact Hwf|].
  exact (decode_encode_vectors store_codec_zstd store_codec_b64
           array_1_2 1 2 Hwf).
Defined.

Lemma next_id_counts_id_map_witness :
  reachable engine_two
  /\ exists m n,
       lookup2 (id_maps engine_two) "c1" "default" = Ok m
       /\ lookup2 (next_ids engine_two) "c1" "default" = Ok n
       /\ n = Z.of_nat (size m).
Proof.
  assert (Hr : reachable engine_two).
  { apply (reachable_add (empty_engine 4 1)). apply reachable_empty. }
  split; [exact Hr|].
  apply (proj1 (next_id_counts_id_map engine_two Hr) "c1"%string "default"%string).
  vm_compute. reflexivity.
Defined.

(** C7: with both the width and the count wrong, the error is the one
    about the dimension. *)
Lemma count_mismatch_counterexample :
  Z.of_nat (length (@nil string)) ≠ shape0 (one_row [1; 0; 0])
  /\ add_vectors engine0 "c1" (one_row [1; 0; 0]) [] None
     = (engine0, Raise (ValueError_dimension 3 4))
  /\ forall got expected,
       (add_vectors engine0 "c1" (one_row [1; 0; 0]) [] None).2
       ≠ Raise (ValueError_count got expected).
Proof.
  split; [simpl; lia|].
  assert (Hraise : add_vectors engine0 "c1" (one_row [1; 0; 0]) [] None
                   = (engine0, Raise (ValueError_dimension 3 4)))
    by (vm_compute; reflexivity).
  split; [exact Hraise|]. intros got expected. by rewrite Hraise.
Qed.

Lemma add_vectors_checks_witness :
  add_vectors engine0 "c1" (one_row [1; 0; 0]) ["a"%string] None
    = (engine0, Raise (ValueError_dimension 3 4))
  /\ add_vectors engine0 "c1" (one_row [1; 0; 0; 0]) [] None
     = (engine0, Raise (ValueError_count 0 1)).
Proof.
  split.
  - apply (proj1 (add_vectors_checks engine0 "c1" (one_row [1; 0; 0])
                    ["a"%string] None)).
    vm_compute. discriminate.
  - apply (proj2 (add_vectors_checks engine0 "c1" (one_row [1; 0; 0; 0])
                    [] None)).
    + vm_compute. reflexivity.
    + vm_compute. discriminate.
Defined.

Lemma search_empty_cases_witness :
  search engine_two "c1" [0; 0; 0; 0] 5 None = Ok []
  /\ search engine_two "c1" [1; 0; 0; 0] 0 None = Ok []
  /\ search engine_two "c2" [1; 0; 0; 0] 5 None = Ok []
  /\ search engine_two "c1" [1; 0; 0; 0] 5 (Some "x"%string) = Ok [].
Proof.
  split; [|split; [|split]]; apply search_empty_cases.
  - do 4 right. vm_compute. reflexivity.
  - do 3 right. left. lia.
  - left. vm_compute. reflexivity.
  - right. left. eexists. split; vm_compute; reflexivity.
Defined.


(** C4 on an empty engine of dimension 384 with 1 GiB: 699050 vectors
    fit, 699051 do not. *)
Lemma can_accept_iff_witness :
  can_accept (VectorEngine_init empty_disk 384 1) 699050 = true
  /\ can_accept (VectorEngine_init empty_disk 384 1) 699051 = false.
Proof.
  split.
  - apply (proj1 (can_accept_iff (VectorEngine_init empty_disk 384 1) 699050)).
    vm_compute. discriminate.
  - apply (proj1 (proj2 (proj2
             (can_accept_iff (VectorEngine_init empty_disk 384 1) 699051)))).
    vm_compute. reflexivity.
Defined.

Lemma search_drops_unmapped_hits_witness :
  (""%string, 1) ∉ [("a"%string, 1); ("b"%string, 0)].
Proof.
  refine (proj1 (proj1 (proj2 search_drops_unmapped_hits)
                   Z float_ops scan_kernel engine_two "c1"%string
                   [1; 0; 0; 0] 5 None _ _) 1).
  vm_compute. reflexivity.
Defined.

End Examples.

Module NaNExample.

Import WithNaN.


End NaNExample.

(** * Further properties *)

(** ** Shards do not interfere *)

Section ShardIsolation.

Context {F : Type} {FO : FloatOps F} {K : AnnKernel F}.

Lemma store2_inv {V} (d d' : gmap string (gmap string V)) c s v :
  store2 d c s v = Ok d' ->
  exists inner, d !! c = Some inner /\ d' = <[c := <[s := v]> inner]> d.
Proof.
  unfold store2. destruct (d !! c) as [inner|]; simpl; [|done].
  intros [= <-]. by exists inner.
Qed.

Lemma lookup2_insert2_ne {V} (d : gmap string (gmap string V)) inner c s v c' s' :
  d !! c = Some inner ->
  (c', s') ≠ (c, s) ->
  lookup2 (<[c := <[s := v]> inner]> d) c' s' = lookup2 d c' s'.
Proof.
  intros Hc Hne. unfold lookup2.
  destruct (decide (c = c')) as [<-|Hcc].
  - rewrite lookup_insert_eq, Hc. simpl.
    rewrite lookup_insert_ne; [done|]. intros <-. by apply Hne.
  - by rewrite lookup_insert_ne.
Qed.

Lemma get2_insert2_ne {V} (d : gmap string (gmap string V)) inner c s v c' s' :
  d !! c = Some inner ->
  (c', s') ≠ (c, s) ->
  get2 (<[c := <[s := v]> inner]> d) c' s' = get2 d c' s'.
Proof.
  intros Hc Hne. unfold get2.
  destruct (decide (c = c')) as [<-|Hcc].
  - rewrite lookup_insert_eq, Hc. simpl.
    rewrite lookup_insert_ne; [done|]. intros <-. by apply Hne.
  - by rewrite lookup_insert_ne.
Qed.

(** [search] reads the index and the id-map of the addressed shard only. *)
Lemma search_ext (e1 e2 : VectorEngine) c q k s :
  get2 (indices e1) c (_normalize_shard_id s)
    = get2 (indices e2) c (_normalize_shard_id s) ->
  (is_Some (get2 (indices e1) c (_normalize_shard_id s)) ->
   lookup2 (id_maps e1) c (_normalize_shard_id s)
     = lookup2 (id_maps e2) c (_normalize_shard_id s)) ->
  search e1 c q k s = search e2 c q k s.
Proof.
  unfold search, get2. intros Hi Hm.
  destruct (indices e1 !! c) as [sh1|]; destruct (indices e2 !! c) as [sh2|];
    simpl in *.
  - destruct (sh1 !! _normalize_shard_id s) as [i1|];
      destruct (sh2 !! _normalize_shard_id s) as [i2|]; try done.
    injection Hi as ->. by rewrite Hm by (by eexists).
  - rewrite Hi. done.
  - rewrite <- Hi. done.
  - done.
Qed.

Lemma others_kept_refl c s (e : VectorEngine) : others_kept c s e e.
Proof. by intros c' s' _. Qed.

Lemma others_kept_trans c s (e1 e2 e3 : VectorEngine) :
  others_kept c s e1 e2 -> others_kept c s e2 e3 -> others_kept c s e1 e3.
Proof.
  intros H12 H23 c' s' Hne.
  destruct (H12 c' s' Hne) as [Hi Hm]. destruct (H23 c' s' Hne) as [Hi' Hm'].
  split; [by rewrite Hi', Hi|].
  intros Hs. rewrite Hm' by (by rewrite Hi). by apply Hm.
Qed.

Lemma ensure_collection_others c s (e : VectorEngine) :
  others_kept c s e (ensure_collection e c).
Proof.
  unfold ensure_collection.
  destruct (decide (is_Some (indices e !! c))) as [Hc|Hc];
    [apply others_kept_refl|].
  assert (Hi : indices e !! c = None).
  { destruct (indices e !! c) eqn:E; [|done]. exfalso. apply Hc. by eexists. }
  intros c' s' _. simpl. unfold get2, lookup2.
  destruct (decide (c = c')) as [<-|Hne].
  - rewrite !lookup_insert_eq, Hi. simpl. rewrite lookup_empty.
    split; [done|]. by intros [? ?].
  - rewrite !lookup_insert_ne by done. done.
Qed.

Lemma ensure_shard_others c s (e : VectorEngine) :
  others_kept c s e (ensure_shard e c s).1.
Proof.
  unfold ensure_shard.
  destruct (contains2 (indices e) c s); [apply others_kept_refl|].
  destruct (store2 (indices e) c s _) as [indices'|] eqn:Hi;
    [|apply others_kept_refl].
  apply store2_inv in Hi as (inner & Hc & ->).
  assert (Hidx : forall c' s', (c', s') ≠ (c, s) ->
            get2 (<[c := <[s := init_index (embedding_dim e) 1000000]> inner]>
                    (indices e)) c' s' = get2 (indices e) c' s').
  { intros c' s' Hne. by apply get2_insert2_ne. }
  destruct (store2 (id_maps e) c s ∅) as [id_maps'|] eqn:Hm.
  2: { intros c' s' Hne. simpl. split; [by apply Hidx|done]. }
  apply store2_inv in Hm as (inner_m & Hcm & ->).
  assert (Hmap : forall c' s', (c', s') ≠ (c, s) ->
            lookup2 (<[c := <[s := ∅]> inner_m]> (id_maps e)) c' s'
            = lookup2 (id_maps e) c' s').
  { intros c' s' Hne. by apply lookup2_insert2_ne. }
  destruct (store2 (next_ids e) c s 0) as [next_ids'|];
    intros c' s' Hne; simpl; (split; [by apply Hidx|intros _; by apply Hmap]).
Qed.

Lemma add_to_shard_others c s (e : VectorEngine) vectors doc_ids :
  others_kept c s e (add_to_shard e c s vectors doc_ids).1.
Proof.
  unfold add_to_shard.
  destruct (lookup2 (indices e) c s) as [index|] eqn:Hi;
    [|apply others_kept_refl].
  destruct (lookup2 (next_ids e) c s) as [start_id|];
    [|apply others_kept_refl].
  destruct (add_items index _ _) as [index' returned].
  assert (Hc : exists inner, indices e !! c = Some inner).
  { unfold lookup2 in Hi. destruct (indices e !! c); [by eexists|done]. }
  destruct Hc as [inner Hc].
  assert (Hidx : forall c' s', (c', s') ≠ (c, s) ->
            get2 (set2 (indices e) c s index') c' s' = get2 (indices e) c' s').
  { intros c' s' Hne. unfold set2. rewrite Hc. simpl.
    by apply get2_insert2_ne. }
  destruct returned; simpl negb; cbv iota.
  2: { intros c' s' Hne. simpl. split; [by apply Hidx|done]. }
  assert (Hupd : forall updated : result (gmap string (gmap string (gmap Z string))),
    (updated = Ok (id_maps e)
     \/ exists m, updated = store2 (id_maps e) c s m) ->
    others_kept c s e
      (match updated with
       | Raise ex =>
         ({| embedding_dim := embedding_dim e; max_bytes := max_bytes e;
             indices := set2 (indices e) c s index';
             id_maps := id_maps e; next_ids := next_ids e |}, Raise ex)
       | Ok id_maps' =>
         match store2 (next_ids e) c s (start_id + Z.of_nat (length doc_ids)) with
         | Raise ex =>
           ({| embedding_dim := embedding_dim e; max_bytes := max_bytes e;
               indices := set2 (indices e) c s index';
               id_maps := id_maps'; next_ids := next_ids e |}, Raise ex)
         | Ok next_ids' =>
           ({| embedding_dim := embedding_dim e; max_bytes := max_bytes e;
               indices := set2 (indices e) c s index';
               id_maps := id_maps'; next_ids := next_ids' |}, Ok ())
         end
       end).1).
  { intros updated Hu.
    assert (Hmaps : forall id_maps', updated = Ok id_maps' ->
              forall c' s', (c', s') ≠ (c, s) ->
                lookup2 id_maps' c' s' = lookup2 (id_maps e) c' s').
    { intros id_maps' -> c' s' Hne. destruct Hu as [[= <-]|[m Hu]]; [done|].
      symmetry in Hu. apply store2_inv in Hu as (inner_m & Hcm & ->).
      by apply lookup2_insert2_ne. }
    destruct updated as [id_maps'|ex].
    - destruct (store2 (next_ids e) c s _);
        intros c' s' Hne; simpl;
        (split; [by apply Hidx|intros _; by apply (Hmaps id_maps')]).
    - intros c' s' Hne. simpl. split; [by apply Hidx|done]. }
  destruct doc_ids as [|doc_id doc_ids].
  - refine (Hupd (Ok (id_maps e)) _). by left.
  - destruct (lookup2 (id_maps e) c s) as [id_map|ex] eqn:Hm.
    + rewrite result_bind_Ok.
      refine (Hupd (store2 (id_maps e) c s _) _). right. by eexists.
    + rewrite result_bind_Raise. intros c' s' Hne. simpl.
      split; [by apply Hidx|done].
Qed.

Lemma add_vectors_others c s (e : VectorEngine) vectors doc_ids :
  others_kept c (_normalize_shard_id s) e
              (add_vectors e c vectors doc_ids s).1.
Proof.
  unfold add_vectors.
  case_decide; [apply others_kept_refl|].
  case_decide; [apply others_kept_refl|].
  pose proof (ensure_collection_others c (_normalize_shard_id s) e) as H1.
  pose proof (ensure_shard_others c (_normalize_shard_id s)
                (ensure_collection e c)) as H2.
  destruct (ensure_shard (ensure_collection e c) c (_normalize_shard_id s))
    as [e2 [[]|ex]] eqn:Hes; simpl in H2.
  - eapply others_kept_trans; [exact H1|].
    eapply others_kept_trans; [exact H2|]. apply add_to_shard_others.
  - simpl. by eapply others_kept_trans.
Qed.

(** X1.  Storing into one shard does not change what a search of any
    other shard returns, whether the call succeeds or raises. *)
Theorem add_vectors_other_shard_search (e : VectorEngine)
    (c : string) (vectors : ndarray2) (doc_ids : list string)
    (s : option string) (c' : string) (s' : option string)
    (q : list F) (k : Z) :
  (c', _normalize_shard_id s') ≠ (c, _normalize_shard_id s) ->
  search (add_vectors e c vectors doc_ids s).1 c' q k s' = search e c' q k s'.
Proof.
  intros Hne.
  destruct (add_vectors_others c s e vectors doc_ids _ _ Hne) as [Hi Hm].
  apply search_ext; [done|]. intros Hs. apply Hm. by rewrite <- Hi.
Qed.

End ShardIsolation.

(** ** The request handlers *)

Section Handlers.

Context {F : Type} {FO : FloatOps F} {K : AnnKernel F}.
Context {C : Codec} {P : Pydantic} {H : Sha256}.

Lemma StoreRequest_parse_request_id msg request :
  StoreRequest_parse msg = Ok request ->
  required msg "request_id" validate_str = Ok (st_request_id request).
Proof.
  unfold StoreRequest_parse. intros Hp.
  repeat match type of Hp with
         | mbind _ ?r = Ok _ =>
           let E := fresh "E" in destruct r eqn:E; simpl in Hp; [|discriminate]
         end.
  by injection Hp as <-.
Qed.

Lemma StoreRequest_parse_needs_request_id msg ex :
  required msg "request_id" validate_str = Raise ex ->
  exists ex', StoreRequest_parse msg = Raise ex'.
Proof.
  unfold StoreRequest_parse. intros Hr.
  destruct (with_default msg "type" _ _); simpl; [|by eexists].
  rewrite Hr. by eexists.
Qed.

Lemma store_attempt_node_id (node node' : MinerNode) msg r :
  store_attempt node msg = (node', r) -> node_id node' = node_id node.
Proof.
  unfold store_attempt.
  destruct (StoreRequest_parse msg); [|by intros [= <- _]].
  destruct (decode_vectors _ _); [|by intros [= <- _]].
  destruct (negb _); [by intros [= <- _]|].
  destruct (as_matrix _); [|by intros [= <- _]].
  destruct (add_vectors _ _ _ _ _) as [engine' [[]|ex]]; by intros [= <- _].
Qed.

Lemma handle_store_inv (node node' : MinerNode)
    (message_dict : gmap string json) (response : StoreResponse) :
  _handle_store node message_dict = (node', Ok response) ->
  match sto_status response with
  | status_ok =>
    exists request vectors matrix,
      StoreRequest_parse message_dict = Ok request
      /\ decode_vectors (st_vectors_b64 request) (st_shape request)
         = Ok vectors
      /\ as_matrix vectors = Ok matrix
      /\ can_accept (engine node)
           (Z.of_nat (length (st_doc_ids request))) = true
      /\ add_vectors (engine node) (st_collection_id request) matrix
           (st_doc_ids request) (st_shard_id request)
         = (engine node', Ok ())
      /\ sto_stored_count response
         = Z.of_nat (length (st_doc_ids request))
  | status_full =>
    node' = node /\ sto_stored_count response = 0
    /\ exists request,
         StoreRequest_parse message_dict = Ok request
         /\ can_accept (engine node)
              (Z.of_nat (length (st_doc_ids request))) = false
  | status_error =>
    sto_stored_count response = 0
    /\ exists ex, sto_error_message response = Some (StrOf ex)
                  /\ store_attempt node message_dict = (node', Raise ex)
  end.
Proof.
  unfold _handle_store.
  destruct (store_attempt node message_dict) as [node1 [response1|ex]] eqn:Ha.
  - intros [= <- <-]. revert Ha. unfold store_attempt.
    destruct (StoreRequest_parse message_dict) as [request|] eqn:Hp;
      [|done].
    destruct (decode_vectors _ _) as [vectors|] eqn:Hd; [|done].
    destruct (can_accept _ _) eqn:Hcap; simpl negb; cbv iota.
    2: { intros [= <- <-]. simpl. split; [done|]. split; [done|].
         by exists request. }
    destruct (as_matrix vectors) as [matrix|] eqn:Hm; [|done].
    destruct (add_vectors _ _ _ _ _) as [engine' [[]|ex]] eqn:Hadd; [|done].
    intros [= <- <-]. simpl. by exists request, vectors, matrix.
  - destruct (required message_dict "request_id" validate_str) as [rid|];
      simpl; [|done].
    intros [= <- <-]. simpl. split; [done|]. by exists ex.
Qed.

(** X2.  The store handler answers with a response, and does not raise,
    exactly when the message has a string [request_id]; the response
    echoes it.  A stored count other than zero comes only with status
    [ok], where it is the number of doc_ids and [add_vectors] succeeded
    on an engine that could accept them; with status [full] the engine
    is untouched. *)
Theorem handle_store_outcomes (node : MinerNode)
    (message_dict : gmap string json) :
  (forall request_id,
      required message_dict "request_id" validate_str = Ok request_id ->
      exists node' response,
        _handle_store node message_dict = (node', Ok response)
        /\ sto_request_id response = request_id
        /\ sto_node_id response = node_id node)
  /\ (forall ex,
        required message_dict "request_id" validate_str = Raise ex ->
        _handle_store node message_dict = (node, Raise ex))
  /\ (forall node' response,
        _handle_store node message_dict = (node', Ok response) ->
        (sto_stored_count response ≠ 0 -> sto_status response = status_ok)
        /\ (sto_status response = status_ok ->
            can_accept (engine node) (sto_stored_count response) = true
            /\ exists request matrix,
                 StoreRequest_parse message_dict = Ok request
                 /\ sto_stored_count response
                    = Z.of_nat (length (st_doc_ids request))
                 /\ add_vectors (engine node) (st_collection_id request)
                      matrix (st_doc_ids request) (st_shard_id request)
                    = (engine node', Ok ()))
        /\ (sto_status response = status_full -> node' = node)).
Proof.
  split; [|split].
  - intros request_id Hid. unfold _handle_store.
    destruct (store_attempt node message_dict) as [node' [response|ex]] eqn:Ha.
    + exists node', response. split; [done|].
      revert Ha. unfold store_attempt.
      destruct (StoreRequest_parse message_dict) as [request|] eqn:Hp;
        [|done].
      apply StoreRequest_parse_request_id in Hp. rewrite Hid in Hp.
      injection Hp as ->.
      destruct (decode_vectors _ _); [|done].
      destruct (negb _); [by intros [= <- <-]|].
      destruct (as_matrix _); [|done].
      destruct (add_vectors _ _ _ _ _) as [engine' [[]|ex]]; [|done].
      by intros [= <- <-].
    + rewrite Hid. simpl. by eexists _, _.
  - intros ex Hid. unfold _handle_store, store_attempt.
    destruct (StoreRequest_parse_needs_request_id _ _ Hid) as [ex' ->].
    by rewrite Hid.
  - intros node' response Hh. apply handle_store_inv in Hh.
    destruct (sto_status response).
    + destruct Hh as (request & vectors & matrix & Hp & _ & _ & Hcap & Hadd & Hn).
      split; [done|]. split; [|done]. intros _. rewrite Hn.
      split; [done|]. by exists request, matrix.
    + destruct Hh as (-> & Hn & _). split; [by rewrite Hn|]. by split.
    + destruct Hh as (Hn & _). split; [by rewrite Hn|]. by split.
Qed.

(** X3.  In an engine reached from an empty one, a store acknowledged
    with status [ok] has entered every doc_id of the request in the
    id-map of the addressed shard, at consecutive internal ids from the
    shard's previous [next_id] on, and has advanced [next_id] by the
    stored count. *)
Theorem handle_store_ok_enters_doc_ids (node node' : MinerNode)
    (message_dict : gmap string json) (request : StoreRequest)
    (response : StoreResponse) :
  reachable (engine node) ->
  StoreRequest_parse message_dict = Ok request ->
  _handle_store node message_dict = (node', Ok response) ->
  sto_status response = status_ok ->
  let c := st_collection_id request in
  let s := _normalize_shard_id (st_shard_id request) in
  let start := next_id_of (engine node) c s in
  reachable (engine node')
  /\ next_id_of (engine node') c s = start + sto_stored_count response
  /\ forall i doc_id,
       st_doc_ids request !! i = Some doc_id ->
       id_map_of (engine node') c s !! (start + Z.of_nat i) = Some doc_id.
Proof.
  intros Hr Hp Hh Hok c s start.
  pose proof (handle_store_inv node node' message_dict response Hh) as Hout.
  rewrite Hok in Hout.
  destruct Hout as (request' & vectors & matrix & Hp' & _ & _ & _ & Hadd & Hn).
  rewrite Hp in Hp'. injection Hp' as <-.
  pose proof (reachable_consistent _ Hr) as Hcons.
  destruct (add_vectors_spec (engine node) c matrix (st_doc_ids request)
              (st_shard_id request) Hcons) as [_ Hbatch].
  fold c in Hadd. rewrite Hadd in Hbatch.
  destruct (Hbatch eq_refl) as [Hnext Hmap]. simpl in Hnext, Hmap.
  fold s in Hnext, Hmap. fold start in Hnext, Hmap.
  split; [|split].
  - replace (engine node')
      with (add_vectors (engine node) c matrix (st_doc_ids request)
                        (st_shard_id request)).1 by (by rewrite Hadd).
    by constructor.
  - by rewrite Hn.
  - intros i doc_id Hi. rewrite Hmap, update_id_map_lookup.
    apply lookup_lt_Some in Hi as Hlt. rewrite decide_True by lia.
    by replace (Z.to_nat (start + Z.of_nat i - start)) with i by lia.
Qed.

Lemma SearchRequest_parse_request_id msg request :
  SearchRequest_parse msg = Ok request ->
  required msg "request_id" validate_str = Ok (sr_request_id request).
Proof.
  unfold SearchRequest_parse. intros Hp.
  repeat match type of Hp with
         | mbind _ ?r = Ok _ =>
           let E := fresh "E" in destruct r eqn:E; simpl in Hp; [|discriminate]
         end.
  by injection Hp as <-.
Qed.

(** X4.  The search handler raises exactly when the message has no
    string [request_id]; otherwise it answers with that id, the node's
    id and the results of the engine's search, or an empty list when the
    request does not validate, the query does not decode or the engine
    raises. *)
Theorem handle_search_outcomes (node : MinerNode)
    (message_dict : gmap string json) :
  (forall request_id,
      required message_dict "request_id" validate_str = Ok request_id ->
      exists results,
        _handle_search node message_dict
        = Ok {| resp_request_id := request_id; resp_node_id := node_id node;
                resp_results := results |}
        /\ ((forall request query k,
               search_arguments message_dict = Ok (request, query, k) ->
               search (engine node) (sr_collection_id request)
                      (map f32_of_bits (nd_data query)) k (sr_shard_id request)
               = Ok results
               \/ (results = []
                   /\ exists ex,
                        search (engine node) (sr_collection_id request)
                               (map f32_of_bits (nd_data query)) k
                               (sr_shard_id request) = Raise ex))
            /\ ((exists ex, search_arguments message_dict = Raise ex) ->
                results = [])))
  /\ (forall ex,
        required message_dict "request_id" validate_str = Raise ex ->
        _handle_search node message_dict = Raise ex).
Proof.
  split.
  - intros request_id Hid. unfold _handle_search.
    destruct (search_arguments message_dict) as [[[request query] k]|ex]
      eqn:Hargs.
    + assert (Hrid : sr_request_id request = request_id).
      { revert Hargs. unfold search_arguments.
        destruct (SearchRequest_parse message_dict) as [r|] eqn:Hp; [|done].
        apply SearchRequest_parse_request_id in Hp. rewrite Hid in Hp.
        injection Hp as Hp. simpl.
        destruct (decode_query_vector _ _); simpl; [|done].
        by intros [= <- _ _]. }
      rewrite result_bind_Ok.
      destruct (search _ _ _ _ _) as [results|ex] eqn:Hs.
      * rewrite result_bind_Ok. exists results. rewrite Hrid.
        split; [done|]. split; [|by intros [? ?]].
        intros ? ? ? [= <- <- <-]. by left.
      * rewrite result_bind_Raise, Hid. simpl. exists [].
        split; [done|]. split; [|done].
        intros ? ? ? [= <- <- <-]. right. split; [done|]. by exists ex.
    + rewrite result_bind_Raise, Hid. simpl. exists [].
      split; [done|]. split; [done|done].
  - intros ex Hid. unfold _handle_search, search_arguments.
    assert (Hp : exists ex', SearchRequest_parse message_dict = Raise ex').
    { unfold SearchRequest_parse.
      destruct (with_default message_dict "type" _ _); simpl; [|by eexists].
      rewrite Hid. by eexists. }
    destruct Hp as [ex' ->]. simpl. by rewrite Hid.
Qed.

(** X5.  The failure answers of the challenge handler: without a
    [challenge_id] the response carries the id ["unknown"], with a seed
    that is not hexadecimal it carries the request's id, and in both
    cases it has no chunk and a response time of zero, whatever the
    iteration bound; the handler raises only when the message has a
    [challenge_id] that is not a string. *)
Theorem handle_challenge_failures (fuel : nat) (elapsed_ms : Z)
    (message_dict : gmap string json) :
  (message_dict !! "challenge_id"%string = None ->
   _handle_challenge fuel elapsed_ms message_dict
   = Some (Ok {| chal_challenge_id := "unknown"; chal_chunks := [];
                 chal_response_time_ms := 0 |}))
  /\ (forall request ex,
        ChallengeRequest_parse message_dict = Ok request ->
        fromhex (cr_epoch_seed request) = Raise ex ->
        _handle_challenge fuel elapsed_ms message_dict
        = Some (Ok {| chal_challenge_id := cr_challenge_id request;
                      chal_chunks := [];
                      chal_response_time_ms := 0 |}))
  /\ (forall ex,
        _handle_challenge fuel elapsed_ms message_dict = Some (Raise ex) ->
        exists v, message_dict !! "challenge_id"%string = Some v
                  /\ validate_str v = None).
Proof.
  split; [|split].
  - intros Hnone. unfold _handle_challenge.
    assert (Hp : exists ex, ChallengeRequest_parse message_dict = Raise ex).
    { assert (Hr : required message_dict "challenge_id" validate_str
                   = Raise (ValidationError "challenge_id"))
        by (unfold required; by rewrite Hnone).
      unfold ChallengeRequest_parse.
      destruct (with_default message_dict "type" _ _);
        [rewrite result_bind_Ok, Hr|]; by eexists. }
    destruct Hp as [ex ->]. unfold with_default. by rewrite Hnone.
  - intros request ex Hp Hseed. unfold _handle_challenge.
    rewrite Hp, Hseed, (parse_challenge_id _ _ Hp).
    by destruct (chunk_size_kb_overflows _).
  - intros ex. unfold _handle_challenge.
    assert (Hfail :
      (challenge_id ← with_default message_dict "challenge_id"
                        validate_str "unknown"%string;
       Ok {| chal_challenge_id := challenge_id; chal_chunks := [];
             chal_response_time_ms := 0 |}) = Raise ex ->
      exists v, message_dict !! "challenge_id"%string = Some v
                /\ validate_str v = None).
    { unfold with_default.
      destruct (message_dict !! "challenge_id"%string) as [v|]; [|done].
      destruct (validate_str v) eqn:Hv; [done|]. intros _. by exists v. }
    destruct (ChallengeRequest_parse message_dict) as [request|];
      [|intros [= Hr]; by apply Hfail].
    destruct (chunk_size_kb_overflows _); [intros [= Hr]; by apply Hfail|].
    destruct (fromhex _); [|intros [= Hr]; by apply Hfail].
    destruct (challenge_chunks _ _ _ _) as [[chunks|]|]; [done| |done].
    intros [= Hr]. by apply Hfail.
Qed.

Lemma ws_send_spec (ws ws' : websocket) (f : frame F) r :
  ws_send ws f = (ws', r) ->
  ws_open ws' = ws_open ws
  /\ (ws_open ws = true -> ws_sent ws' = f :: ws_sent ws /\ r = Ok ())
  /\ (ws_open ws = false -> ws' = ws /\ exists ex, r = Raise ex).
Proof.
  unfold ws_send. destruct (ws_open ws) eqn:Ho; intros [= <- <-]; simpl.
  - by repeat split.
  - repeat split; try done. by eexists.
Qed.

(** What the [try] block of the dispatcher does to the connection. *)
Lemma dispatch_spec fuel elapsed_ms (node node' : MinerNode)
    (ws ws' : websocket) message_dict r :
  dispatch fuel elapsed_ms node ws message_dict = Some (node', ws', r) ->
  ws_open ws' = ws_open ws
  /\ node_id node' = node_id node
  /\ match r with
     | Ok _ =>
       ws_open ws = true
       /\ exists f, ws_sent ws' = f :: ws_sent ws
          /\ match f with
             | StoreFrame _ =>
               type_is (message_dict !! "type"%string) "store_request" = true
             | SearchFrame _ =>
               type_is (message_dict !! "type"%string) "search_request" = true
             | ChallengeFrame _ =>
               type_is (message_dict !! "type"%string) "challenge_request"
               = true
             | ErrorFrame error =>
               type_is (message_dict !! "type"%string) "store_request" = false
               /\ type_is (message_dict !! "type"%string) "search_request"
                  = false
               /\ type_is (message_dict !! "type"%string) "challenge_request"
                  = false
               /\ err_error_code error = INVALID_MESSAGE
               /\ with_default message_dict "request_id"
                    validate_optional_str None = Ok (err_request_id error)
             end
     | Raise ex =>
       ws_sent ws' = ws_sent ws
       /\ (type_is (message_dict !! "type"%string) "store_request" = false ->
           type_is (message_dict !! "type"%string) "search_request" = false ->
           type_is (message_dict !! "type"%string) "challenge_request"
           = false ->
           ws_open ws = true ->
           with_default message_dict "request_id" validate_optional_str None
           = Raise ex)
     end.
Proof.
  unfold dispatch.
  assert (Hsend : forall (n n' : MinerNode) (f : frame F) w r0,
    (let '(w0, sent) := ws_send ws f in Some (n, w0, sent)) = Some (n', w, r0) ->
    n' = n /\ ws_open w = ws_open ws
    /\ match r0 with
       | Ok _ => ws_open ws = true /\ ws_sent w = f :: ws_sent ws
       | Raise _ => ws_sent w = ws_sent ws
       end).
  { intros n n' f w r0. destruct (ws_send ws f) as [w0 sent] eqn:Hs.
    intros [= <- <- <-]. apply ws_send_spec in Hs as (Ho & Hopen & Hclosed).
    split; [done|]. split; [done|].
    destruct (ws_open ws).
    - destruct (Hopen eq_refl) as [-> ->]. done.
    - destruct (Hclosed eq_refl) as [-> [ex ->]]. done. }
  destruct (type_is _ "store_request") eqn:Ht1.
  { destruct (_handle_store node message_dict) as [n1 [response|ex]] eqn:Hh.
    - intros Hd. apply Hsend in Hd as (-> & Ho & Hr).
      split; [done|]. split.
      { unfold _handle_store in Hh.
        destruct (store_attempt node message_dict) as [n2 r2] eqn:Ha.
        apply store_attempt_node_id in Ha.
        destruct r2; injection Hh as <-; done. }
      destruct r; [|done]. destruct Hr as [Hopen Hs].
      split; [done|]. by eexists.
    - intros [= <- <- <-]. split; [done|]. split; [|done].
      unfold _handle_store in Hh.
      destruct (store_attempt node message_dict) as [n2 r2] eqn:Ha.
      apply store_attempt_node_id in Ha.
      destruct r2; injection Hh as <-; done. }
  destruct (type_is _ "search_request") eqn:Ht2.
  { destruct (_handle_search node message_dict) as [response|ex].
    - intros Hd. apply Hsend in Hd as (-> & Ho & Hr).
      split; [done|]. split; [done|].
      destruct r; [|done]. destruct Hr as [Hopen Hs].
      split; [done|]. by eexists.
    - by intros [= <- <- <-]. }
  destruct (type_is _ "challenge_request") eqn:Ht3.
  { destruct (_handle_challenge fuel elapsed_ms message_dict)
      as [[response|ex]|]; [| |done].
    - intros Hd. apply Hsend in Hd as (-> & Ho & Hr).
      split; [done|]. split; [done|].
      destruct r; [|done]. destruct Hr as [Hopen Hs].
      split; [done|]. by eexists.
    - by intros [= <- <- <-]. }
  destruct (ErrorResponse_build _ _ _ _) as [error|ex] eqn:Hb.
  - intros Hd. destruct (ws_send ws (ErrorFrame error)) as [w0 sent] eqn:Hs.
    injection Hd as <- <- <-.
    apply ws_send_spec in Hs as (Ho & Hopen & Hclosed).
    split; [done|]. split; [done|].
    destruct (ws_open ws) eqn:Hws.
    + destruct (Hopen eq_refl) as [Hsent ->].
      split; [done|]. exists (ErrorFrame error). split; [done|].
      unfold ErrorResponse_build in Hb.
      destruct (with_default message_dict "request_id" _ _) as [rid|];
        simpl in Hb; [|done].
      injection Hb as <-. by repeat split.
    + destruct (Hclosed eq_refl) as [-> [ex ->]]. by split.
  - intros [= <- <- <-]. split; [done|]. split; [done|]. split; [done|].
    intros _ _ _ _. unfold ErrorResponse_build in Hb.
    destruct (with_default message_dict "request_id" _ _); [done|].
    simpl in Hb. by injection Hb as ->.
Qed.

(** What a run of [_handle_message] that returns has done. *)
Lemma handle_message_inv (fuel : nat) (elapsed_ms : Z)
    (node node' : MinerNode) (ws ws' : websocket)
    (raw_message : parsed_message) (r : result unit) :
  _handle_message fuel elapsed_ms node ws raw_message = Some (node', ws', r) ->
  ws_open ws' = ws_open ws
  /\ node_id node' = node_id node
  /\ (ws_sent ws' = ws_sent ws \/ exists f, ws_sent ws' = f :: ws_sent ws)
  /\ (ws_open ws = false -> ws_sent ws' = ws_sent ws)
  /\ (forall message_dict request_id,
        raw_message = Object message_dict ->
        ws_open ws = true ->
        with_default message_dict "request_id" validate_optional_str None
        = Ok request_id ->
        r = Ok ()
        /\ exists f, ws_sent ws' = f :: ws_sent ws
           /\ match f with
              | StoreFrame _ =>
                type_is (message_dict !! "type"%string) "store_request" = true
              | SearchFrame _ =>
                type_is (message_dict !! "type"%string) "search_request"
                = true
              | ChallengeFrame _ =>
                type_is (message_dict !! "type"%string) "challenge_request"
                = true
              | ErrorFrame error =>
                err_request_id error = request_id
                /\ (err_error_code error = INVALID_MESSAGE
                    \/ err_error_code error = INTERNAL_ERROR)
                /\ (type_is (message_dict !! "type"%string) "store_request"
                    = false ->
                    type_is (message_dict !! "type"%string) "search_request"
                    = false ->
                    type_is (message_dict !! "type"%string)
                            "challenge_request" = false ->
                    err_error_code error = INVALID_MESSAGE)
              end)
  /\ (forall ex,
        r = Raise ex ->
        ws_sent ws' = ws_sent ws
        /\ (raw_message = NotAnObject
            \/ exists message_dict,
                 raw_message = Object message_dict
                 /\ with_default message_dict "request_id"
                      validate_optional_str None = Raise ex)).
Proof.
  unfold _handle_message.
  assert (Hsend1 : forall (w : websocket) (f : frame F),
    ws_open (ws_send w f).1 = ws_open w
    /\ (ws_open w = true -> ws_sent (ws_send w f).1 = f :: ws_sent w)
    /\ (ws_open w = false -> ws_sent (ws_send w f).1 = ws_sent w)).
  { intros w f. unfold ws_send. by destruct (ws_open w) eqn:Ho; simpl. }
  destruct raw_message as [| |message_dict].
  - intros [= <- <- <-].
    destruct (Hsend1 ws (ErrorFrame
                {| err_request_id := None; err_node_id := Some (node_id node);
                   err_error_code := INTERNAL_ERROR;
                   err_error_message := StrOf (ValueError "JSONDecodeError") |}))
      as (Ho & Hopen & Hclosed).
    split; [done|]. split; [done|]. split.
    { destruct (ws_open ws); [right; eexists; by apply Hopen|left; by apply Hclosed]. }
    split; [done|]. split; [done|]. done.
  - intros [= <- <- <-]. split; [done|]. split; [done|].
    split; [by left|]. split; [done|]. split; [done|].
    intros ex _. split; [done|]. by left.
  - destruct (dispatch fuel elapsed_ms node ws message_dict)
      as [[[n1 w1] r1]|] eqn:Hd; [|done].
    apply dispatch_spec in Hd as (Ho & Hn & Hr).
    destruct r1 as [[]|ex1].
    + intros [= <- <- <-]. destruct Hr as (Hopen & f & Hs & Hf).
      split; [done|]. split; [done|]. split; [right; by exists f|].
      split; [intros Hc; by rewrite Hc in Hopen|].
      split; [|done].
      intros md rid [= <-] _ Hrid. split; [done|]. exists f. split; [done|].
      destruct f as [| | |error]; try done.
      destruct Hf as (? & ? & ? & Hcode & Hreq).
      rewrite Hrid in Hreq. injection Hreq as ->.
      split; [done|]. split; [by left|done].
    + destruct (ErrorResponse_build message_dict (node_id node) INTERNAL_ERROR
                  (StrOf ex1)) as [error|ex2] eqn:Hb.
      * intros [= <- <- <-].
        destruct (Hsend1 w1 (ErrorFrame error)) as (Ho' & Hopen & Hclosed).
        destruct Hr as [Hr Hunknown].
        rewrite Hr in Hopen, Hclosed. rewrite Ho in Hopen, Hclosed.
        split; [by rewrite Ho'|]. split; [done|]. split.
        { destruct (ws_open ws);
            [right; eexists; by apply Hopen|left; by apply Hclosed]. }
        split; [done|]. split; [|done].
        intros md rid [= <-] Hopen' Hrid. split; [done|].
        exists (ErrorFrame error). split; [by apply Hopen|].
        unfold ErrorResponse_build in Hb. rewrite Hrid in Hb.
        injection Hb as <-. simpl. split; [done|]. split; [by right|].
        intros Ht1 Ht2 Ht3.
        (* with an unknown type the [try] block raises only when the
           error response cannot be built *)
        specialize (Hunknown Ht1 Ht2 Ht3 Hopen'). by rewrite Hrid in Hunknown.
      * intros [= <- <- <-]. destruct Hr as [Hr _].
        split; [done|]. split; [done|].
        split; [left; done|]. split; [done|]. split.
        { intros md rid [= <-] _ Hrid. unfold ErrorResponse_build in Hb.
          by rewrite Hrid in Hb. }
        intros ex [= <-]. split; [done|]. right. exists message_dict.
        split; [done|]. unfold ErrorResponse_build in Hb.
        destruct (with_default message_dict "request_id" _ _); [done|].
        by injection Hb as ->.
Qed.

(** With fuel for the digests of a chunk the challenge handler
    returns. *)
Lemma handle_challenge_total :
  (forall m, length (sha256 m) = 32%nat) ->
  forall fuel elapsed_ms message_dict,
    (forall request,
        ChallengeRequest_parse message_dict = Ok request ->
        (digests_needed (cr_chunk_size request) <= fuel)%nat) ->
    exists r, _handle_challenge fuel elapsed_ms message_dict = Some r.
Proof.
  intros Hsha fuel elapsed_ms message_dict Hfuel. unfold _handle_challenge.
  destruct (ChallengeRequest_parse message_dict) as [request|]; [|by eexists].
  destruct (chunk_size_kb_overflows _); [by eexists|].
  destruct (fromhex _) as [epoch_seed|]; [|by eexists].
  rewrite (challenge_chunks_spec Hsha) by (by apply Hfuel).
  destruct (decide _); by eexists.
Qed.

(** X6.  With an iteration bound that covers the digests of a challenge,
    [_handle_message] returns for every message.  It writes at most one
    frame, none on a closed connection, and leaves the connection's
    state and the node's id as they were.  On an open connection a
    message that is a JSON object whose [request_id] is absent, null or
    a string is answered by exactly one frame and no exception escapes:
    a store, search or challenge response only for a message of that
    type, and an [INVALID_MESSAGE] error with the [request_id] for every
    other type.  An exception escapes only for a message that is not an
    object or whose [request_id] is neither null nor a string, and then
    nothing is written.  SHA-256 digests have 32 bytes. *)
Theorem handle_message_frames (fuel : nat) (elapsed_ms : Z)
    (node : MinerNode) (ws : websocket) (raw_message : parsed_message) :
  (forall m, length (sha256 m) = 32%nat) ->
  (forall message_dict request,
      raw_message = Object message_dict ->
      ChallengeRequest_parse message_dict = Ok request ->
      (digests_needed (cr_chunk_size request) <= fuel)%nat) ->
  exists node' ws' r,
  _handle_message fuel elapsed_ms node ws raw_message = Some (node', ws', r)
  /\ ws_open ws' = ws_open ws
  /\ node_id node' = node_id node
  /\ (ws_sent ws' = ws_sent ws \/ exists f, ws_sent ws' = f :: ws_sent ws)
  /\ (ws_open ws = false -> ws_sent ws' = ws_sent ws)
  /\ (forall message_dict request_id,
        raw_message = Object message_dict ->
        ws_open ws = true ->
        with_default message_dict "request_id" validate_optional_str None
        = Ok request_id ->
        r = Ok ()
        /\ exists f, ws_sent ws' = f :: ws_sent ws
           /\ match f with
              | StoreFrame _ =>
                type_is (message_dict !! "type"%string) "store_request" = true
              | SearchFrame _ =>
                type_is (message_dict !! "type"%string) "search_request"
                = true
              | ChallengeFrame _ =>
                type_is (message_dict !! "type"%string) "challenge_request"
                = true
              | ErrorFrame error =>
                err_request_id error = request_id
                /\ (err_error_code error = INVALID_MESSAGE
                    \/ err_error_code error = INTERNAL_ERROR)
                /\ (type_is (message_dict !! "type"%string) "store_request"
                    = false ->
                    type_is (message_dict !! "type"%string) "search_request"
                    = false ->
                    type_is (message_dict !! "type"%string)
                            "challenge_request" = false ->
                    err_error_code error = INVALID_MESSAGE)
              end)
  /\ (forall ex,
        r = Raise ex ->
        ws_sent ws' = ws_sent ws
        /\ (raw_message = NotAnObject
            \/ exists message_dict,
                 raw_message = Object message_dict
                 /\ with_default message_dict "request_id"
                      validate_optional_str None = Raise ex)).
Proof.
  intros Hsha Hfuel.
  assert (Hsome : exists out,
            _handle_message fuel elapsed_ms node ws raw_message = Some out).
  { unfold _handle_message. destruct raw_message as [| |message_dict];
      [by eexists|by eexists|].
    destruct (handle_challenge_total Hsha fuel elapsed_ms message_dict)
      as [rc Hrc]; [intros request; by apply Hfuel|].
    unfold dispatch. rewrite Hrc.
    destruct (type_is _ "store_request").
    { destruct (_handle_store node message_dict) as [n1 [response|ex]].
      - destruct (ws_send ws (StoreFrame response)) as [w [[]|ex]].
        + by eexists.
        + destruct (ErrorResponse_build _ _ _ _); by eexists.
      - destruct (ErrorResponse_build _ _ _ _); by eexists. }
    destruct (type_is _ "search_request").
    { destruct (_handle_search node message_dict) as [response|ex].
      - destruct (ws_send ws (SearchFrame response)) as [w [[]|ex]].
        + by eexists.
        + destruct (ErrorResponse_build _ _ _ _); by eexists.
      - destruct (ErrorResponse_build _ _ _ _); by eexists. }
    destruct (type_is _ "challenge_request").
    { destruct rc as [response|ex].
      - destruct (ws_send ws (ChallengeFrame response)) as [w [[]|ex]].
        + by eexists.
        + destruct (ErrorResponse_build _ _ _ _); by eexists.
      - destruct (ErrorResponse_build _ _ _ _); by eexists. }
    destruct (ErrorResponse_build message_dict (node_id node) INVALID_MESSAGE _)
      as [error|ex].
    - destruct (ws_send ws (ErrorFrame error)) as [w [[]|ex]].
      + by eexists.
      + destruct (ErrorResponse_build _ _ _ _); by eexists.
    - destruct (ErrorResponse_build _ _ _ _); by eexists. }
  destruct Hsome as [[[node' ws'] r] Hrun].
  exists node', ws', r. split; [exact Hrun|].
  by apply (handle_message_inv fuel elapsed_ms node node' ws ws' raw_message r).
Qed.


End Handlers.

(** ** More on the wire codec *)

Lemma Z_of_byte_range (b : byte) : 0 <= Z_of_byte b < 256.
Proof.
  unfold Z_of_byte. pose proof (Byte.to_N_bounded b). lia.
Qed.

Lemma f32_frombytes_range (b0 b1 b2 b3 : byte) :
  0 <= f32_frombytes b0 b1 b2 b3 < 2 ^ 32.
Proof.
  unfold f32_frombytes.
  pose proof (Z_of_byte_range b0). pose proof (Z_of_byte_range b1).
  pose proof (Z_of_byte_range b2). pose proof (Z_of_byte_range b3).
  change (2 ^ 32) with 4294967296. lia.
Qed.

(** [frombuffer] succeeds exactly on buffers of a multiple of four bytes
    and yields one 32-bit pattern for every four bytes. *)
Lemma frombuffer_Some (b : bytes) (ws : list Z) :
  frombuffer b = Some ws ->
  length b = (4 * length ws)%nat /\ Forall (fun w => 0 <= w < 2 ^ 32) ws.
Proof.
  assert (Hn : forall n (b : bytes) ws,
    (length b <= n)%nat -> frombuffer b = Some ws ->
    length b = (4 * length ws)%nat /\ Forall (fun w => 0 <= w < 2 ^ 32) ws).
  { induction n as [|n IH]; intros b' ws' Hlen.
    - destruct b'; [|simpl in Hlen; lia]. simpl. intros [= <-]. by split.
    - destruct b' as [|b0 [|b1 [|b2 [|b3 rest]]]]; simpl; try done.
      + intros [= <-]. by split.
      + destruct (frombuffer rest) as [ws1|] eqn:Hr; [|done].
        intros [= <-]. destruct (IH rest ws1) as [Hl Hw];
          [simpl in Hlen; lia|done|].
        split; [simpl; lia|]. constructor; [apply f32_frombytes_range|done]. }
  by apply (Hn (length b)).
Qed.

Lemma frombuffer_None (b : bytes) :
  frombuffer b = None <-> (length b mod 4 ≠ 0)%nat.
Proof.
  assert (Hn : forall n (b : bytes),
    (length b <= n)%nat ->
    frombuffer b = None <-> (length b mod 4 ≠ 0)%nat).
  { induction n as [|n IH]; intros b' Hlen.
    - destruct b'; [|simpl in Hlen; lia]. simpl. split; [done|].
      intros Hc. by destruct Hc.
    - destruct b' as [|b0 [|b1 [|b2 [|b3 rest]]]];
        cbn [frombuffer length].
      + split; [done|]. intros Hc. by destruct Hc.
      + split; [intros _; vm_compute; lia|done].
      + split; [intros _; vm_compute; lia|done].
      + split; [intros _; vm_compute; lia|done].
      + specialize (IH rest ltac:(simpl in Hlen; lia)).
        replace (S (S (S (S (length rest)))))
          with (length rest + 1 * 4)%nat by lia.
        rewrite Nat.Div0.mod_add.
        destruct (frombuffer rest); [|tauto].
        split; [done|]. intros Hm. by apply IH in Hm. }
  by apply (Hn (length b)).
Qed.

Lemma product_nonneg (shape : list Z) :
  Forall (fun d => 0 <= d) shape -> 0 <= product shape.
Proof. induction 1; simpl; lia. Qed.

(** What [reshape] returns accounts for every element, also when a
    dimension was left open. *)
Lemma reshape_Ok (data shape : list Z) (a : ndarray) :
  reshape data shape = Ok a ->
  nd_dtype a = float32 /\ nd_data a = data
  /\ length (nd_shape a) = length shape
  /\ Forall (fun d => 0 <= d) (nd_shape a)
  /\ product (nd_shape a) = Z.of_nat (length data)
  /\ (Forall (fun d => 0 <= d) shape -> nd_shape a = shape).
Proof.
  unfold reshape.
  destruct (forallb (fun d => 0 <=? d) shape) eqn:Hnn.
  - assert (Hall : Forall (fun d => 0 <= d) shape).
    { apply Forall_forall. intros d Hd. apply Z.leb_le.
      rewrite forallb_forall in Hnn. apply Hnn. by apply list_elem_of_In. }
    destruct (product shape =? Z.of_nat (length data)) eqn:Hp; [|done].
    intros [= <-]. simpl. apply Z.eqb_eq in Hp. by repeat split.
  - destruct (forallb (fun d => -1 <=? d) shape) eqn:Hm1; [|done]. simpl.
    destruct (Z.of_nat (length (filter (fun d => d = -1) shape)) =? 1)
      eqn:Hone; [|done].
    set (known := product (filter (fun d => d ≠ -1) shape)).
    destruct (known =? 0) eqn:Hk; [done|]. simpl.
    destruct (Z.of_nat (length data) mod known =? 0) eqn:Hdiv; [|done].
    intros [= <-]. simpl.
    apply Z.eqb_neq in Hk. apply Z.eqb_eq in Hdiv. apply Z.eqb_eq in Hone.
    assert (Hge : Forall (fun d => -1 <= d) shape).
    { apply Forall_forall. intros d Hd. apply Z.leb_le.
      rewrite forallb_forall in Hm1. apply Hm1. by apply list_elem_of_In. }
    assert (Hknown : 0 < known).
    { assert (0 <= known); [|lia]. unfold known. apply product_nonneg.
      apply Forall_forall. intros d Hd. apply list_elem_of_filter in Hd as [Hne Hd].
      rewrite Forall_forall in Hge. specialize (Hge d Hd). lia. }
    set (inferred := Z.of_nat (length data) / known).
    assert (Hinf : known * inferred = Z.of_nat (length data)).
    { unfold inferred. apply Z.div_exact in Hdiv; lia. }
    assert (Hinf0 : 0 <= inferred).
    { unfold inferred. apply Z.div_pos; lia. }
    split; [done|]. split; [done|]. split; [by rewrite length_map|].
    split; [|split].
    + apply Forall_forall. intros d Hd.
      apply list_elem_of_fmap in Hd as (d0 & -> & Hd0).
      destruct (d0 =? -1) eqn:E; [done|]. apply Z.eqb_neq in E.
      rewrite Forall_forall in Hge. specialize (Hge d0 Hd0). lia.
    + (* the product with the open dimension filled in *)
      assert (Hprod : forall l : list Z,
        product (map (fun d => if d =? -1 then inferred else d) l)
        = product (filter (fun d => d ≠ -1) l)
          * inferred ^ Z.of_nat (length (filter (fun d => d = -1) l))).
      { induction l as [|d l IHl]; [done|].
        rewrite !filter_cons. simpl map. simpl product.
        destruct (decide (d = -1)) as [->|Hd].
        - rewrite decide_False by (intros Hc; by apply Hc).
          rewrite Z.eqb_refl. cbn [length]. rewrite IHl.
          rewrite Nat2Z.inj_succ, Z.pow_succ_r by lia. ring.
        - rewrite decide_True by done. cbn [product foldr].
          apply Z.eqb_neq in Hd as ->. rewrite IHl.
          fold (product (filter (fun d => d ≠ -1) l)). ring. }
      rewrite Hprod, Hone. fold known. lia.
    + intros Hall. exfalso.
      assert (forallb (fun d => 0 <=? d) shape = true); [|congruence].
      apply forallb_forall. intros d Hd. apply Z.leb_le.
      rewrite Forall_forall in Hall. apply Hall. by apply list_elem_of_In.
Qed.

Section CodecProperties.

Context {C : Codec} {DC : DtypeCast}.

(** X7.  Whatever [decode_vectors] returns is a float32 array whose
    shape accounts for every element, four bytes of the decompressed
    buffer each; the shape is the one asked for unless that left a
    dimension open.  It raises when the text is not base64, the bytes are
    not a zstandard frame, the buffer is not a multiple of four bytes, or
    the shape, with no dimension open, does not give the number of
    elements. *)
Theorem decode_vectors_outcomes (data_b64 : string) (shape : list Z) :
  (forall a, decode_vectors data_b64 shape = Ok a ->
     float32_array a
     /\ length (nd_shape a) = length shape
     /\ (Forall (fun d => 0 <= d) shape -> nd_shape a = shape)
     /\ exists compressed vector_bytes,
          b64decode data_b64 = Some compressed
          /\ zstd_decompress compressed = Some vector_bytes
          /\ length vector_bytes = (4 * length (nd_data a))%nat
          /\ frombuffer vector_bytes = Some (nd_data a))
  /\ (forall compressed vector_bytes,
        b64decode data_b64 = Some compressed ->
        zstd_decompress compressed = Some vector_bytes ->
        ((length vector_bytes mod 4 ≠ 0)%nat ->
         exists ex, decode_vectors data_b64 shape = Raise ex)
        /\ (Forall (fun d => 0 <= d) shape ->
            4 * product shape ≠ Z.of_nat (length vector_bytes) ->
            exists ex, decode_vectors data_b64 shape = Raise ex))
  /\ (b64decode data_b64 = None ->
      exists ex, decode_vectors data_b64 shape = Raise ex)
  /\ (forall compressed,
        b64decode data_b64 = Some compressed ->
        zstd_decompress compressed = None ->
        exists ex, decode_vectors data_b64 shape = Raise ex).
Proof.
  unfold decode_vectors. split; [|split; [|split]].
  - intros a.
    destruct (b64decode data_b64) as [compressed|] eqn:Hb; simpl; [|done].
    destruct (zstd_decompress compressed) as [vector_bytes|] eqn:Hz;
      simpl; [|done].
    destruct (frombuffer vector_bytes) as [flat|] eqn:Hf; simpl; [|done].
    intros Hr. apply reshape_Ok in Hr as (Hd & Hdata & Hlen & Hnn & Hp & Hsh).
    apply frombuffer_Some in Hf as Hf'. destruct Hf' as [Hl Hw].
    subst flat. split; [by repeat split|]. split; [done|]. split; [done|].
    exists compressed, vector_bytes. by repeat split.
  - intros compressed vector_bytes Hb Hz. rewrite Hb. cbn [of_option].
    rewrite result_bind_Ok, Hz. cbn [of_option]. rewrite result_bind_Ok.
    split.
    + intros Hm. apply frombuffer_None in Hm as ->. by eexists.
    + intros Hnn Hne.
      destruct (frombuffer vector_bytes) as [flat|] eqn:Hf; simpl;
        [|by eexists].
      apply frombuffer_Some in Hf as [Hl _].
      destruct (reshape flat shape) as [a|] eqn:Hr; [|by eexists].
      apply reshape_Ok in Hr as (_ & _ & _ & _ & Hp & Hsh).
      rewrite (Hsh Hnn) in Hp. lia.
  - intros ->. by eexists.
  - intros compressed Hb Hz. rewrite Hb. cbn [of_option].
    rewrite result_bind_Ok, Hz. by eexists.
Qed.

Section WithRoundtrip.

Hypothesis zstd_roundtrip :
  forall b, zstd_decompress (zstd_compress b) = Some b.
Hypothesis b64_roundtrip :
  forall b, b64decode (b64encode b) = Some b.

Lemma decode_of_encoded (data shape : list Z) :
  Forall (fun w => 0 <= w < 2 ^ 32) data ->
  Forall (fun d => 0 <= d) shape ->
  product shape = Z.of_nat (length data) ->
  decode_vectors (b64encode (zstd_compress (tobytes data))) shape
  = Ok {| nd_dtype := float32; nd_shape := shape; nd_data := data |}.
Proof.
  intros Hdata Hshape Hsize. unfold decode_vectors.
  rewrite b64_roundtrip. cbn [of_option]. rewrite result_bind_Ok.
  rewrite zstd_roundtrip. cbn [of_option]. rewrite result_bind_Ok.
  rewrite frombuffer_tobytes by done. cbn [of_option].
  rewrite result_bind_Ok. by apply reshape_exact.
Qed.

Lemma mapM_result_length {A B} (f : A -> result B) (l : list A) l' :
  mapM f l = Ok l' -> length l' = length l.
Proof.
  revert l'. induction l as [|a l IH]; intros l'; cbn [mapM].
  - by intros [= <-].
  - destruct (f a) as [b|]; [|done]. rewrite result_bind_Ok.
    destruct (mapM f l) as [k|]; [|done]. rewrite result_bind_Ok.
    intros [= <-]. cbn [length]. by rewrite (IH k).
Qed.

Lemma ensure_float32_Ok (V a : ndarray) :
  ensure_float32 V = Ok a ->
  nd_dtype a = float32
  /\ nd_shape a = nd_shape V
  /\ length (nd_data a) = length (nd_data V).
Proof.
  unfold ensure_float32.
  destruct (decide (nd_dtype V ≠ float32)) as [Hd|Hd].
  - destruct (mapM _ _) as [data|] eqn:Hm; [|done].
    rewrite result_bind_Ok. intros [= <-]. cbn [nd_dtype nd_shape nd_data].
    by rewrite (mapM_result_length _ _ _ Hm).
  - intros [= <-]. split; [|done].
    destruct (decide (nd_dtype V = float32)); [done|]. by destruct Hd.
Qed.

(** X8.  For an array of any rank and dtype whose elements convert to
    float32, [encode_vectors] returns a text and the shape of the array,
    and decoding them gives the converted array; the conversion yields
    32-bit patterns.  When an element does not convert, [encode_vectors]
    raises the exception of the conversion. *)
Theorem decode_encode_any_dtype (V : ndarray) :
  (forall a,
     ensure_float32 V = Ok a ->
     Forall (fun d => 0 <= d) (nd_shape V) ->
     product (nd_shape V) = Z.of_nat (length (nd_data V)) ->
     Forall (fun w => 0 <= w < 2 ^ 32) (nd_data a) ->
     exists data_b64,
       encode_vectors V = Ok (data_b64, nd_shape V)
       /\ decode_vectors data_b64 (nd_shape V) = Ok a)
  /\ (forall ex, ensure_float32 V = Raise ex -> encode_vectors V = Raise ex).
Proof.
  split.
  - intros a Ha Hshape Hsize Hdata. unfold encode_vectors.
    rewrite Ha, result_bind_Ok.
    destruct (ensure_float32_Ok V a Ha) as (Hdt & Hsh & Hlen).
    rewrite Hsh. eexists. split; [reflexivity|].
    rewrite decode_of_encoded by (done || by rewrite Hlen).
    destruct a as [dt sh da]. simpl in *. by subst.
  - intros ex Hex. unfold encode_vectors. by rewrite Hex.
Qed.

(** X9.  [encode_query_vector] converts its argument to float32 first
    and raises the exception of the conversion when an element does not
    convert.  Otherwise it raises [ValueError] for an array that is not
    one-dimensional, and for a one-dimensional array it returns a text
    and a shape from which [decode_query_vector] gives the converted
    array back. *)
Theorem query_vector_roundtrip (v : ndarray) :
  (forall ex, ensure_float32 v = Raise ex -> encode_query_vector v = Raise ex)
  /\ (forall a,
        ensure_float32 v = Ok a ->
        length (nd_shape v) ≠ 1%nat ->
        encode_query_vector v = Raise (ValueError "Query vector must be 1D"))
  /\ (forall a n,
        ensure_float32 v = Ok a ->
        nd_shape v = [n] ->
        n = Z.of_nat (length (nd_data v)) ->
        Forall (fun w => 0 <= w < 2 ^ 32) (nd_data a) ->
        exists b64_string,
          encode_query_vector v = Ok (b64_string, [n])
          /\ decode_query_vector b64_string [n] = Ok a).
Proof.
  split; [|split].
  - intros ex Hex. unfold encode_query_vector. by rewrite Hex.
  - intros a Ha Hrank. unfold encode_query_vector.
    rewrite Ha, result_bind_Ok.
    destruct (ensure_float32_Ok v a Ha) as (_ & Hsh & _).
    rewrite Hsh. by rewrite decide_True.
  - intros a n Ha Hshape Hn Hdata. unfold encode_query_vector.
    rewrite Ha, result_bind_Ok.
    destruct (ensure_float32_Ok v a Ha) as (Hdt & Hsh & Hlen).
    rewrite Hsh, Hshape. rewrite decide_False by (simpl; lia).
    eexists. split; [reflexivity|].
    change (decode_query_vector ?x ?y) with (decode_vectors x y).
    rewrite decode_of_encoded;
      [|done|repeat constructor; lia|simpl; rewrite Hlen; lia].
    destruct a as [dt sh da]. simpl in *. congruence.
Qed.

End WithRoundtrip.

End CodecProperties.

(** ** The challenge bytes as one stream *)

Section ChallengeStream.

Context {H : Sha256}.

Hypothesis sha256_length : forall m, length (sha256 m) = 32%nat.

Lemma digest_stream_app seed offset (n1 n2 : nat) :
  digest_stream seed offset (n1 + n2)
  = digest_stream seed offset n1
    ++ digest_stream seed (offset + 32 * Z.of_nat n1) n2.
Proof.
  revert offset. induction n1 as [|n1 IH]; intros offset.
  - simpl. f_equal. lia.
  - cbn [Nat.add digest_stream]. rewrite IH, <- app_assoc. do 3 f_equal. lia.
Qed.

Lemma digests_needed_mono size1 size2 :
  size1 <= size2 -> (digests_needed size1 <= digests_needed size2)%nat.
Proof. unfold digests_needed. intros Hs. Z.div_mod_to_equations. lia. Qed.

Lemma offsets_fit_mono size1 size2 offset :
  size1 <= size2 -> offsets_fit size2 offset -> offsets_fit size1 offset.
Proof.
  intros Hs [Hz|[Ho Hfit]]; [left; lia|].
  destruct (decide (size1 <= 0)); [by left|right].
  pose proof (digests_needed_mono _ _ Hs). split; [done|lia].
Qed.

Lemma spec_chunk_prefix seed offset size1 size2 :
  0 <= size1 <= size2 ->
  spec_chunk seed offset size1
  = take (Z.to_nat size1) (spec_chunk seed offset size2).
Proof.
  intros Hs. unfold spec_chunk.
  rewrite take_take. replace (Z.to_nat size1 `min` Z.to_nat size2)%nat
    with (Z.to_nat size1) by lia.
  pose proof (digests_needed_mono size1 size2 ltac:(lia)) as Hn.
  replace (digests_needed size2)
    with (digests_needed size1 + (digests_needed size2 - digests_needed size1))%nat
    by lia.
  rewrite digest_stream_app, take_app_le; [done|].
  rewrite (length_digest_stream sha256_length).
  unfold digests_needed. Z.div_mod_to_equations. lia.
Qed.

Lemma spec_chunk_shift seed offset size :
  0 <= size ->
  spec_chunk seed (offset + 32) size
  = drop 32 (spec_chunk seed offset (size + 32)).
Proof.
  intros Hs. unfold spec_chunk.
  assert (Hn : digests_needed (size + 32) = S (digests_needed size)).
  { unfold digests_needed. Z.div_mod_to_equations. lia. }
  rewrite Hn. cbn [digest_stream].
  replace (Z.to_nat (size + 32)) with (32 + Z.to_nat size)%nat by lia.
  rewrite take_app_add' by (by rewrite sha256_length).
  by rewrite drop_app_length' by (by rewrite sha256_length).
Qed.

(** X10.  The chunks of one seed fit together like reads of one stream:
    at the same offset the chunk of a smaller size is the beginning of
    the chunk of a larger size, and the chunk at [offset + 32] is the
    chunk at [offset], 32 bytes longer, without its first 32 bytes. *)
Theorem challenge_chunks_nest (fuel : nat) (seed : bytes)
    (offset size1 size2 : Z) :
  0 <= size1 <= size2 ->
  offsets_fit size2 offset ->
  (digests_needed size2 <= fuel)%nat ->
  exists chunk1 chunk2 end1 end2,
    challenge_loop fuel seed size1 [] offset = Finished chunk1 end1
    /\ challenge_loop fuel seed size2 [] offset = Finished chunk2 end2
    /\ chunk1 = take (Z.to_nat size1) chunk2
    /\ (32 <= size2 ->
        exists chunk3 end3,
          challenge_loop fuel seed (size2 - 32) [] (offset + 32)
          = Finished chunk3 end3
          /\ chunk3 = drop 32 chunk2).
Proof.
  intros Hs Hfit Hfuel.
  pose proof (digests_needed_mono size1 size2 ltac:(lia)) as Hn.
  exists (spec_chunk seed offset size1), (spec_chunk seed offset size2).
  eexists _, _.
  rewrite !(challenge_loop_chunk sha256_length) by lia.
  rewrite decide_True by (eapply offsets_fit_mono; [|exact Hfit]; lia).
  rewrite decide_True by done.
  split; [reflexivity|]. split; [reflexivity|].
  split; [by apply spec_chunk_prefix|].
  intros Hfull. eexists _, _.
  assert (Hn' : digests_needed size2 = S (digests_needed (size2 - 32))).
  { unfold digests_needed. Z.div_mod_to_equations. lia. }
  rewrite (challenge_loop_chunk sha256_length) by lia.
  rewrite decide_True.
  - split; [reflexivity|].
    rewrite spec_chunk_shift by lia. do 2 f_equal. lia.
  - destruct Hfit as [?|[Ho Hf]]; [lia|].
    destruct (decide (size2 - 32 <= 0)); [by left|right]. lia.
Qed.

End ChallengeStream.

(** ** Checkpoints *)

Section Checkpoint.

Context {F : Type} {FO : FloatOps F} {K : AnnKernel F}.

Lemma save_shard_keeps (e : VectorEngine) c s index (dir : gmap string file)
    name :
  is_Some (dir !! name) -> is_Some (save_shard e c s index dir !! name).
Proof.
  intros Hn. unfold save_shard.
  assert (H1 : is_Some (<[shard_bin_name s := IndexFile index]> dir !! name))
    by (rewrite lookup_insert_is_Some'; by right).
  destruct (_ ≫= _) as [[id_map next_id]|]; [|done].
  rewrite lookup_insert_is_Some'. by right.
Qed.

Lemma save_collection_spec (e : VectorEngine) c (d d' : disk) :
  save_collection e c d = Ok d' ->
  root_files d' = root_files d
  /\ (forall c', c' ≠ c -> subdirs d' !! c' = subdirs d !! c')
  /\ (forall c' name, is_Some (get2 (subdirs d) c' name) ->
                      is_Some (get2 (subdirs d') c' name)).
Proof.
  unfold save_collection.
  destruct (indices e !! c) as [shards|]; [|by intros [= <-]].
  case_decide; [done|]. intros [= <-]. simpl.
  split; [done|]. split; [intros c' Hne; by rewrite lookup_insert_ne|].
  intros c' name. unfold get2.
  destruct (decide (c = c')) as [<-|Hne]; [|by rewrite lookup_insert_ne].
  rewrite lookup_insert_eq. simpl.
  destruct (subdirs d !! c) as [dir|]; simpl; [|by intros [? ?]].
  intros Hn.
  apply (map_fold_weak_ind
           (fun (acc : gmap string file) (_ : gmap string Index) =>
              is_Some (acc !! name))); [done|].
  intros s index m acc _ IH. by apply save_shard_keeps.
Qed.

Lemma save_collection_Ok_iff (e : VectorEngine) c (d : disk) :
  (exists d', save_collection e c d = Ok d')
  <-> (is_Some (indices e !! c) -> root_files d !! c = None).
Proof.
  unfold save_collection.
  destruct (indices e !! c) as [shards|].
  - case_decide as Hr.
    + split; [by intros [? ?]|]. intros Hn. destruct Hr as [f Hf].
      rewrite Hn in Hf; [done|by eexists].
    + split; [|by eexists]. intros _ _.
      destruct (root_files d !! c) eqn:E; [|done]. destruct Hr. by eexists.
  - split; [by intros _ [? ?]|by eexists].
Qed.

(** The loop of [save_all] over a list of collection ids. *)
Lemma save_loop_spec (e : VectorEngine) (l : list string) :
  forall d : disk,
    ((exists d', foldl (fun acc c => d' ← acc; save_collection e c d')
                       (Ok d) l = Ok d')
     <-> (forall c, c ∈ l -> is_Some (indices e !! c) ->
                    root_files d !! c = None))
    /\ (forall d',
          foldl (fun acc c => d' ← acc; save_collection e c d') (Ok d) l
          = Ok d' ->
          root_files d' = root_files d
          /\ (forall c, c ∉ l -> subdirs d' !! c = subdirs d !! c)
          /\ (forall c name, is_Some (get2 (subdirs d) c name) ->
                             is_Some (get2 (subdirs d') c name))).
Proof.
  induction l as [|c l IH]; intros d.
  - simpl. split.
    + split; [intros _ c Hc; by apply not_elem_of_nil in Hc|by eexists].
    + by intros d' [= <-].
  - cbn [foldl]. rewrite result_bind_Ok.
    destruct (save_collection e c d) as [d1|ex] eqn:Hs.
    + apply save_collection_spec in Hs as Hs'.
      destruct Hs' as (Hroot & Hother & Hkeep).
      destruct (IH d1) as [Hiff Hspec]. split.
      * rewrite Hiff. rewrite Hroot.
        assert (Hc : is_Some (indices e !! c) -> root_files d !! c = None).
        { apply save_collection_Ok_iff. by eexists. }
        split.
        -- intros Hl c' Hin. apply elem_of_cons in Hin as [->|Hin]; [done|].
           by apply Hl.
        -- intros Hl c' Hin. apply Hl. by right.
      * intros d' Hd'. destruct (Hspec d' Hd') as (Hr' & Ho' & Hk').
        split; [by rewrite Hr'|]. split.
        -- intros c' Hin. rewrite Ho' by (intros ?; apply Hin; by right).
           apply Hother. intros ->. apply Hin. by left.
        -- intros c' name Hn. by apply Hk', Hkeep.
    + assert (Hraise : forall l',
        foldl (fun acc c0 => d' ← acc; save_collection e c0 d') (Raise ex) l'
        = Raise ex) by (induction l' as [|? ? IHl]; [done|apply IHl]).
      rewrite Hraise. split; [|done]. split; [by intros [? ?]|].
      intros Hl. exfalso.
      assert (Hex : exists d', save_collection e c d = Ok d').
      { apply save_collection_Ok_iff. apply Hl. by left. }
      destruct Hex as [d' Hd']. by rewrite Hd' in Hs.
Qed.

(** X11.  For an engine whose collection ids are path components and
    whose shard ids can be part of a file name, [save_all] succeeds
    exactly when no collection has the name of a plain file in the data
    directory.  When it succeeds the files of the root directory are as
    before (nothing is written in the legacy layout), the directories of
    other names are as before, and no file has been removed. *)
Theorem save_all_writes_current_layout (e : VectorEngine) (d : disk) :
  ids_are_names e ->
  ((exists d', save_all e d = Ok d')
   <-> (forall c, is_Some (indices e !! c) -> root_files d !! c = None))
  /\ (forall d',
        save_all e d = Ok d' ->
        root_files d' = root_files d
        /\ (forall c, indices e !! c = None ->
                      subdirs d' !! c = subdirs d !! c)
        /\ (forall c name, is_Some (get2 (subdirs d) c name) ->
                           is_Some (get2 (subdirs d') c name))).
Proof.
  intros _. unfold save_all.
  destruct (save_loop_spec e (map_to_list (indices e)).*1 d) as [Hiff Hspec].
  assert (Hin : forall c, c ∈ (map_to_list (indices e)).*1
                          <-> is_Some (indices e !! c)).
  { intros c. rewrite list_elem_of_fmap. split.
    - intros ([c' m] & -> & Hm). apply elem_of_map_to_list in Hm.
      by eexists.
    - intros [m Hm]. exists (c, m). split; [done|].
      by apply elem_of_map_to_list. }
  split.
  - rewrite Hiff. split.
    + intros Hl c Hc. apply Hl; [by apply Hin|done].
    + intros Hl c _ Hc. by apply Hl.
  - intros d' Hd'. destruct (Hspec d' Hd') as (Hr & Ho & Hk).
    split; [done|]. split; [|done].
    intros c Hc. apply Ho. rewrite Hin, Hc. by intros [? ?].
Qed.

End Checkpoint.

(** ** The RAM reservation *)

Lemma touch_loop_length (chunk_idx : Z) (l : list Z) :
  forall c,
    ba_length
      (foldl (fun c page =>
                let offset := page * poram_page_size in
                ba_set c offset (byte_of_Z ((chunk_idx + offset) mod 256)))
             c l) = ba_length c.
Proof.
  induction l as [|p l IH]; intros c; [done|].
  cbn [foldl]. by rewrite IH.
Qed.

Lemma touch_loop_written (chunk_idx : Z) (n : nat) (c : bytearray) (k : Z) :
  ba_written
    (foldl (fun c page =>
              let offset := page * poram_page_size in
              ba_set c offset (byte_of_Z ((chunk_idx + offset) mod 256)))
           c (seqZ 0 (Z.of_nat n))) !! k
  = if decide (k mod poram_page_size = 0
               /\ 0 <= k < Z.of_nat n * poram_page_size)
    then Some (byte_of_Z ((chunk_idx + k) mod 256))
    else ba_written c !! k.
Proof.
  unfold poram_page_size.
  induction n as [|n IH].
  - simpl. rewrite decide_False by lia. done.
  - rewrite seqZ_S, foldl_app. cbn [foldl ba_set ba_written].
    rewrite Z.add_0_l, Nat2Z.inj_succ.
    destruct (decide (k = Z.of_nat n * 4096)) as [->|Hne].
    + rewrite lookup_insert_eq. rewrite decide_True; [done|].
      split; [apply Z_mod_mult|lia].
    + rewrite lookup_insert_ne by done. rewrite IH.
      destruct (decide (k mod 4096 = 0 /\ 0 <= k < Z.of_nat n * 4096))
        as [[Hm Hr]|Hn].
      * rewrite decide_True; [done|]. split; [done|lia].
      * rewrite decide_False; [done|]. intros [Hm Hr]. apply Hn.
        split; [done|]. split; [lia|].
        apply Z.mod_divide in Hm; [|lia]. destruct Hm as [q ->]. nia.
Qed.

Lemma touch_pages_get (chunk_idx : Z) (k : Z) :
  0 <= k < poram_chunk_size ->
  ba_get (touch_pages chunk_idx (ba_new poram_chunk_size)) k
  = Some (if decide (k mod poram_page_size = 0)
          then byte_of_Z chunk_idx else x00).
Proof.
  intros Hk. unfold ba_get, touch_pages.
  rewrite touch_loop_length. cbn [ba_length ba_new].
  rewrite decide_True by exact Hk.
  assert (Hn : 0 <= poram_chunk_size / poram_page_size)
    by (vm_compute; discriminate).
  rewrite <- (Z2Nat.id _ Hn), touch_loop_written, (Z2Nat.id _ Hn).
  cbn [ba_written ba_new].
  assert (Hsz : poram_chunk_size / poram_page_size * poram_page_size
                = poram_chunk_size) by (vm_compute; reflexivity).
  rewrite Hsz, lookup_empty.
  destruct (decide (k mod poram_page_size = 0)) as [Hm|Hm].
  - rewrite decide_True by (split; [exact Hm|exact Hk]).
    cbn [default]. unfold byte_of_Z. rewrite Z.mod_mod by lia.
    replace ((chunk_idx + k) mod 256) with (chunk_idx mod 256);
      [reflexivity|].
    unfold poram_page_size in Hm.
    apply Z.mod_divide in Hm; [|lia]. destruct Hm as [q ->].
    replace (chunk_idx + q * 4096) with (chunk_idx + (q * 16) * 256) by lia.
    by rewrite Z_mod_plus_full.
  - rewrite decide_False by (intros [Hc _]; exact (Hm Hc)). reflexivity.
Qed.

Lemma allocate_chunks_spec (allocates : Z -> bool) (l : list Z) :
  forall acc,
    allocate_chunks allocates l acc
    = if decide (Forall (fun i => allocates i = true) l)
      then Ok (acc ++ map (fun i => touch_pages i (ba_new poram_chunk_size)) l)
      else Raise (RuntimeError "Cannot allocate").
Proof.
  induction l as [|i l IH]; intros acc.
  - cbn [allocate_chunks map]. rewrite decide_True by constructor.
    by rewrite app_nil_r.
  - cbn [allocate_chunks]. destruct (allocates i) eqn:Hi.
    + rewrite IH. destruct (decide (Forall _ l)) as [Hl|Hl].
      * rewrite decide_True by (by constructor).
        cbn [map]. by rewrite <- app_assoc.
      * rewrite decide_False; [done|]. intros Hc. apply Hl.
        by inversion Hc.
    + rewrite decide_False; [done|]. intros Hc. inversion Hc; congruence.
Qed.

(** X12.  [_initialize_poram_memory] succeeds exactly when every one of
    the [max_ram_gb] one-gibibyte arrays is granted, and raises a
    [RuntimeError] otherwise.  On success there are [max_ram_gb] chunks
    (none for a value below one), [total_bytes] is [max_ram_gb * 2^30],
    and in chunk number [i] the first byte of every 4096-byte page is
    [i mod 256] and every other byte is zero. *)
Theorem poram_memory_layout (allocates : Z -> bool) (max_ram_gb : Z) :
  ((forall i, 0 <= i < max_ram_gb -> allocates i = true) ->
   exists pm,
     _initialize_poram_memory allocates max_ram_gb = Ok pm
     /\ Z.of_nat (length (pm_chunks pm)) = Z.max 0 max_ram_gb
     /\ pm_total_bytes pm = max_ram_gb * 2 ^ 30
     /\ forall (i : nat) chunk,
          pm_chunks pm !! i = Some chunk ->
          ba_length chunk = 2 ^ 30
          /\ forall k, 0 <= k < 2 ^ 30 ->
               Z_of_byte <$> ba_get chunk k
               = Some (if decide (k mod 4096 = 0)
                       then Z.of_nat i mod 256 else 0))
  /\ ((exists i, 0 <= i < max_ram_gb /\ allocates i = false) ->
      exists msg,
        _initialize_poram_memory allocates max_ram_gb
        = Raise (RuntimeError msg)).
Proof.
  unfold _initialize_poram_memory. rewrite allocate_chunks_spec.
  assert (Hall : Forall (fun i => allocates i = true) (seqZ 0 max_ram_gb)
                 <-> forall i, 0 <= i < max_ram_gb -> allocates i = true).
  { rewrite Forall_forall. split.
    - intros Hf i Hi. apply Hf. apply elem_of_seqZ. lia.
    - intros Hf i Hi. apply elem_of_seqZ in Hi. apply Hf. lia. }
  split.
  - intros Hf. rewrite decide_True by (by apply Hall).
    rewrite result_bind_Ok. eexists. split; [reflexivity|].
    cbn [pm_chunks pm_total_bytes app].
    split; [rewrite length_map, length_seqZ; lia|].
    split; [lia|].
    intros i chunk Hi. rewrite list_lookup_fmap in Hi.
    destruct (seqZ 0 max_ram_gb !! i) as [j|] eqn:Hj; [|discriminate Hi].
    cbn [fmap option_fmap option_map] in Hi.
    apply (inj Some) in Hi. subst chunk.
    apply lookup_seqZ in Hj as [-> Hlt]. rewrite Z.add_0_l.
    assert (Hsize : poram_chunk_size = 2 ^ 30) by (vm_compute; reflexivity).
    split.
    + unfold touch_pages. rewrite touch_loop_length. exact Hsize.
    + intros k Hk. rewrite <- Hsize in Hk.
      rewrite touch_pages_get by exact Hk.
      cbn [fmap option_fmap option_map]. unfold poram_page_size.
      destruct (decide (k mod 4096 = 0));
        [by rewrite Z_of_byte_of_Z|reflexivity].
  - intros (i & Hi & Hno). rewrite decide_False.
    + rewrite result_bind_Raise. by eexists.
    + rewrite Hall. intros Hf. rewrite Hf in Hno; [discriminate|exact Hi].
Qed.

(** ** Connecting to a coordinator *)

Lemma split_comma_nonempty (s : list ascii) : split_comma s ≠ [].
Proof.
  destruct s as [|c t]; [done|]. cbn [split_comma].
  case_decide; [done|]. by destruct (split_comma t).
Qed.

Lemma connect_first_spec (connect : string -> connect_outcome)
    (urls : list string) :
  forall contacted ending,
    connect_first connect urls = (contacted, ending) ->
    (exists rest, urls = contacted ++ rest)
    /\ match ending with
       | SessionOn url =>
         exists refused, contacted = refused ++ [url]
           /\ Forall (fun u => connect u = Refuses) refused
           /\ connect url = Accepts
       | ConnectRaised e =>
         exists refused url, contacted = refused ++ [url]
           /\ Forall (fun u => connect u = Refuses) refused
           /\ connect url = Breaks e
       | NoCoordinator =>
         contacted = urls /\ Forall (fun u => connect u = Refuses) urls
       end.
Proof.
  induction urls as [|url rest IH]; intros contacted ending.
  - intros [= <- <-]. split; [by exists []|]. by split.
  - cbn [connect_first]. destruct (connect url) eqn:Hu.
    + intros [= <- <-]. split; [by exists rest|].
      exists []. by repeat split.
    + destruct (connect_first connect rest) as [contacted' ending'].
      intros [= <- <-].
      destruct (IH contacted' ending' eq_refl) as [[rest' Hr] Hend].
      split; [exists rest'; by rewrite Hr at 1|].
      destruct ending' as [url'|e|].
      * destruct Hend as (refused & -> & Hf & Ha).
        exists (url :: refused). repeat split; [|done]. by constructor.
      * destruct Hend as (refused & url' & -> & Hf & Ha).
        exists (url :: refused), url'. repeat split; [|done].
        by constructor.
      * destruct Hend as [-> Hf]. split; [done|]. by constructor.
    + intros [= <- <-]. split; [by exists rest|].
      exists [], url. by repeat split.
Qed.

(** X13.  [_connect_and_run] tries the comma-separated coordinator URLs
    in the order written, and there is always at least one to try.  URLs
    are passed over only on a refused connection ([OSError], timeout,
    [InvalidURI]); the session runs on the first URL that accepts, and
    any other exception of a connection attempt is raised at once: in
    both cases no later URL is contacted.  The final "could not connect"
    exception is raised exactly when every URL refused. *)
Theorem connect_and_run_order (connect : string -> connect_outcome)
    (coordinator_url : string) :
  let urls := coordinator_urls coordinator_url in
  let '(contacted, ending) := _connect_and_run connect coordinator_url in
  urls ≠ []
  /\ contacted ≠ []
  /\ (exists rest, urls = contacted ++ rest)
  /\ match ending with
     | SessionOn url =>
       exists refused, contacted = refused ++ [url]
         /\ Forall (fun u => connect u = Refuses) refused
         /\ connect url = Accepts
     | ConnectRaised e =>
       exists refused url, contacted = refused ++ [url]
         /\ Forall (fun u => connect u = Refuses) refused
         /\ connect url = Breaks e
     | NoCoordinator =>
       contacted = urls /\ Forall (fun u => connect u = Refuses) urls
     end.
Proof.
  unfold _connect_and_run.
  assert (Hne : coordinator_urls coordinator_url ≠ []).
  { unfold coordinator_urls. intros Hc. apply map_eq_nil in Hc.
    by apply split_comma_nonempty in Hc. }
  cbn zeta.
  destruct (connect_first connect (coordinator_urls coordinator_url))
    as [contacted ending] eqn:Hc.
  apply connect_first_spec in Hc as [Hpre Hend].
  split; [done|]. split; [|by split].
  destruct ending as [url|e|].
  - destruct Hend as (refused & -> & _). by destruct refused.
  - destruct Hend as (refused & url & -> & _). by destruct refused.
  - by destruct Hend as [-> _].
Qed.

(** ** File names of the shards *)

Lemma list_ascii_of_string_app (a b : string) :
  list_ascii_of_string (a ++ b)
  = list_ascii_of_string a ++ list_ascii_of_string b.
Proof.
  induction a as [|ch a IH]; [done|].
  change (String ch a +:+ b) with (String ch (a +:+ b)).
  cbn [list_ascii_of_string app]. by rewrite IH.
Qed.

Lemma string_app_inv_tail (a b t : string) :
  (a ++ t = b ++ t)%string -> a = b.
Proof.
  intros Heq. apply (f_equal list_ascii_of_string) in Heq.
  rewrite !list_ascii_of_string_app in Heq.
  apply app_inv_tail in Heq.
  apply (f_equal string_of_list_ascii) in Heq.
  by rewrite !string_of_list_ascii_of_string in Heq.
Qed.

Lemma shard_bin_name_inj (s s' : string) :
  shard_bin_name s = shard_bin_name s' -> s = s'.
Proof.
  unfold shard_bin_name. intros Heq.
  apply (f_equal list_ascii_of_string) in Heq.
  rewrite !list_ascii_of_string_app in Heq.
  apply app_inv_head, app_inv_tail in Heq.
  apply (f_equal string_of_list_ascii) in Heq.
  by rewrite !string_of_list_ascii_of_string in Heq.
Qed.

Lemma shard_map_name_inj (s s' : string) :
  shard_map_name s = shard_map_name s' -> s = s'.
Proof.
  unfold shard_map_name. intros Heq.
  apply (f_equal list_ascii_of_string) in Heq.
  rewrite !list_ascii_of_string_app in Heq.
  apply app_inv_head, app_inv_tail in Heq.
  apply (f_equal string_of_list_ascii) in Heq.
  by rewrite !string_of_list_ascii_of_string in Heq.
Qed.

Lemma shard_bin_name_ne_map (s s' : string) :
  shard_bin_name s ≠ shard_map_name s'.
Proof.
  unfold shard_bin_name, shard_map_name. intros Heq.
  apply (f_equal list_ascii_of_string) in Heq.
  rewrite !list_ascii_of_string_app in Heq.
  apply app_inv_head in Heq.
  apply (f_equal reverse) in Heq. rewrite !reverse_app in Heq.
  cbn in Heq. discriminate Heq.
Qed.

Lemma shard_bin_name_list (s : string) :
  list_ascii_of_string (shard_bin_name s)
  = list_ascii_of_string "shard_" ++ list_ascii_of_string s
    ++ list_ascii_of_string ".bin".
Proof.
  unfold shard_bin_name. by rewrite !list_ascii_of_string_app.
Qed.

Lemma glob_shard_bin_bin (s : string) :
  glob_shard_bin (shard_bin_name s) = true.
Proof.
  unfold glob_shard_bin. cbv zeta. rewrite shard_bin_name_list.
  rewrite !andb_true_iff. split; [split|].
  - unfold starts_with. apply bool_decide_eq_true. done.
  - unfold ends_with, starts_with. apply bool_decide_eq_true.
    rewrite !reverse_app. done.
  - apply bool_decide_eq_true. rewrite !length_app. cbn. lia.
Qed.

Lemma glob_shard_bin_map (s : string) :
  glob_shard_bin (shard_map_name s) = false.
Proof.
  unfold glob_shard_bin, shard_map_name. cbv zeta.
  rewrite !list_ascii_of_string_app.
  apply andb_false_iff. left. apply andb_false_iff. right.
  unfold ends_with, starts_with. apply bool_decide_eq_false.
  rewrite !reverse_app. cbn. discriminate.
Qed.

Lemma rfind_dot_app (l1 l2 : list ascii) :
  rfind_dot l2 = None ->
  rfind_dot (l1 ++ "."%char :: l2) = Some (length l1).
Proof.
  intros H2. induction l1 as [|c l1 IH].
  - cbn. rewrite H2. by rewrite decide_True.
  - cbn [app rfind_dot length]. by rewrite IH.
Qed.

Lemma path_stem_shard_bin (s : string) :
  path_stem (shard_bin_name s) = ("shard_" ++ s)%string.
Proof.
  unfold path_stem. cbv zeta. rewrite shard_bin_name_list.
  rewrite app_assoc.
  change (list_ascii_of_string ".bin")
    with ("."%char :: list_ascii_of_string "bin").
  rewrite rfind_dot_app by done.
  rewrite take_app_length.
  rewrite !bool_decide_eq_true_2 by (rewrite !length_app; cbn; lia).
  cbn [andb].
  by rewrite <- list_ascii_of_string_app, string_of_list_ascii_of_string.
Qed.

Lemma str_remove_shard_prefix (s : string) :
  str_remove "shard_" ("shard_" ++ s) = str_remove "shard_" s.
Proof.
  unfold str_remove. rewrite list_ascii_of_string_app. done.
Qed.
Section Totals.

Context {F : Type} {FO : FloatOps F} {K : AnnKernel F}.

Lemma shard_total (acc : Z) (shards : gmap string Index) :
  map_fold (fun _ index total => total + get_current_count index) acc shards
  = acc + map_fold (fun _ index total => total + get_current_count index)
                   0 shards.
Proof.
  induction shards as [|s index shards Hs IH] using map_ind.
  - rewrite !map_fold_empty. lia.
  - rewrite !map_fold_insert_L by (done || intros; lia). lia.
Qed.

Lemma total_insert (m : gmap string (gmap string Index)) c shards :
  m !! c = None ->
  map_fold (fun _ collection_shards total =>
              map_fold (fun _ index total => total + get_current_count index)
                       total collection_shards) 0 (<[c := shards]> m)
  = map_fold (fun _ collection_shards total =>
                map_fold (fun _ index total =>
                            total + get_current_count index)
                         total collection_shards) 0 m
    + map_fold (fun _ index total => total + get_current_count index)
               0 shards.
Proof.
  intros Hc. rewrite map_fold_insert_L; [apply shard_total| |done].
  intros c1 c2 s1 s2 y _ _ _. cbv beta.
  rewrite (shard_total (map_fold _ y s2) s1), (shard_total y s2).
  rewrite (shard_total (map_fold _ y s1) s2), (shard_total y s1). lia.
Qed.

Lemma total_ext (m1 : gmap string (gmap string Index)) :
  forall m2 : gmap string (gmap string Index),
    (forall c s, get2 m1 c s = get2 m2 c s) ->
    map_fold (fun _ collection_shards total =>
                map_fold (fun _ index total =>
                            total + get_current_count index)
                         total collection_shards) 0 m1
    = map_fold (fun _ collection_shards total =>
                  map_fold (fun _ index total =>
                              total + get_current_count index)
                           total collection_shards) 0 m2.
Proof.
  induction m1 as [|c shards m1 Hc IH] using map_ind; intros m2 Hget.
  - rewrite map_fold_empty.
    induction m2 as [|c shards m2 Hc IH2] using map_ind.
    + by rewrite map_fold_empty.
    + rewrite total_insert by done.
      assert (Hempty : shards = ∅).
      { apply map_eq. intros s. rewrite lookup_empty.
        specialize (Hget c s). unfold get2 in Hget.
        rewrite lookup_empty, lookup_insert_eq in Hget. done. }
      rewrite Hempty, map_fold_empty, <- IH2; [lia|].
      intros c' s. specialize (Hget c' s). unfold get2 in *.
      rewrite lookup_empty in *. cbn in *.
      destruct (decide (c = c')) as [<-|Hne].
      * by rewrite Hc.
      * by rewrite lookup_insert_ne in Hget.
  - rewrite total_insert by done.
    destruct (m2 !! c) as [shards2|] eqn:Hc2.
    + assert (Heq : shards2 = shards).
      { apply map_eq. intros s. specialize (Hget c s). unfold get2 in Hget.
        rewrite lookup_insert_eq, Hc2 in Hget. done. }
      subst shards2.
      rewrite <- (insert_delete_id m2 c shards Hc2).
      rewrite total_insert by apply lookup_delete_eq.
      rewrite (IH (delete c m2)); [done|].
      intros c' s. specialize (Hget c' s). unfold get2 in *.
      destruct (decide (c = c')) as [<-|Hne].
      * by rewrite Hc, lookup_delete_eq.
      * by rewrite lookup_insert_ne in Hget by done;
          rewrite lookup_delete_ne.
    + assert (Hempty : shards = ∅).
      { apply map_eq. intros s. rewrite lookup_empty.
        specialize (Hget c s). unfold get2 in Hget.
        rewrite lookup_insert_eq, Hc2 in Hget. done. }
      rewrite Hempty, map_fold_empty, (IH m2); [lia|].
      intros c' s. specialize (Hget c' s). unfold get2 in *.
      destruct (decide (c = c')) as [<-|Hne].
      * by rewrite Hc, Hc2.
      * by rewrite lookup_insert_ne in Hget.
Qed.

Lemma get_total_vectors_ext (e1 e2 : VectorEngine) :
  (forall c s, get2 (indices e1) c s = get2 (indices e2) c s) ->
  get_total_vectors e1 = get_total_vectors e2.
Proof. apply total_ext. Qed.

End Totals.

(** ** Saving and loading again *)

Section Persistence.

Context {F : Type} {FO : FloatOps F} {K : AnnKernel F}.

Lemma save_shard_full (e : VectorEngine) c s index
    (dir : gmap string file) m n :
  get2 (id_maps e) c s = Some m ->
  get2 (next_ids e) c s = Some n ->
  save_shard e c s index dir
  = <[shard_map_name s := MapFile m (Some n)]>
      (<[shard_bin_name s := IndexFile index]> dir).
Proof.
  intros Hm Hn. unfold save_shard.
  apply lookup2_Ok in Hm. rewrite Hm, result_bind_Ok.
  unfold get2 in Hn. destruct (next_ids e !! c) as [counters|]; [|done].
  simpl in Hn. cbn [of_option]. rewrite result_bind_Ok. by rewrite Hn.
Qed.

Lemma collection_dir_saved (e : VectorEngine) c (shards : gmap string Index) :
  (forall s, is_Some (shards !! s) ->
     exists m n, get2 (id_maps e) c s = Some m
                 /\ get2 (next_ids e) c s = Some n) ->
  saved_dir e c shards (map_fold (save_shard e c) ∅ shards).
Proof.
  apply (map_fold_weak_ind
           (fun (acc : gmap string file) (m : gmap string Index) =>
              (forall s, is_Some (m !! s) ->
                 exists m' n, get2 (id_maps e) c s = Some m'
                              /\ get2 (next_ids e) c s = Some n) ->
              saved_dir e c m acc)).
  - intros _. split; [|split].
    + intros s. by rewrite !lookup_empty.
    + intros s. rewrite lookup_empty. by intros [? ?].
    + intros name. rewrite lookup_empty. by intros [? ?].
  - intros s index m acc Hnone IH Hall.
    destruct IH as (Hbin & Hmap & Honly).
    { intros s' Hs'. apply Hall. rewrite lookup_insert_is_Some'. by right. }
    destruct (Hall s) as (m' & n & Hm' & Hn).
    { rewrite lookup_insert_eq. by eexists. }
    rewrite (save_shard_full _ _ _ _ _ _ _ Hm' Hn).
    split; [|split].
    + intros s'.
      rewrite lookup_insert_ne by (intros Hc; symmetry in Hc;
                                   by apply shard_bin_name_ne_map in Hc).
      destruct (decide (s = s')) as [<-|Hne].
      * by rewrite !lookup_insert_eq.
      * rewrite !lookup_insert_ne; [apply Hbin|done|].
        intros Hc. by apply shard_bin_name_inj in Hc.
    + intros s' Hs'. destruct (decide (s = s')) as [<-|Hne].
      * exists m', n. by rewrite lookup_insert_eq.
      * rewrite lookup_insert_ne in Hs' by done.
        destruct (Hmap s' Hs') as (m2 & n2 & H1 & H2 & H3).
        exists m2, n2. split; [done|]. split; [done|].
        rewrite lookup_insert_ne
          by (intros Hc; by apply shard_map_name_inj in Hc).
        rewrite lookup_insert_ne; [done|].
        apply shard_bin_name_ne_map.
    + intros name Hname.
      apply lookup_insert_is_Some' in Hname as [<-|Hname].
      { exists s. rewrite lookup_insert_eq. split; [by eexists|by right]. }
      apply lookup_insert_is_Some' in Hname as [<-|Hname].
      { exists s. rewrite lookup_insert_eq. split; [by eexists|by left]. }
      destruct (Honly name Hname) as (s' & Hs' & Hor).
      exists s'. split; [|done].
      rewrite lookup_insert_is_Some'. by right.
Qed.

Lemma save_loop_fresh (e : VectorEngine) (l : list string) :
  NoDup l ->
  forall d0 : disk,
    root_files d0 = ∅ ->
    (forall c, c ∈ l -> subdirs d0 !! c = None) ->
    exists d,
      foldl (fun acc c => d' ← acc; save_collection e c d') (Ok d0) l = Ok d
      /\ root_files d = ∅
      /\ forall c,
           subdirs d !! c
           = if decide (c ∈ l /\ is_Some (indices e !! c))
             then (fun shards => map_fold (save_shard e c) ∅ shards)
                    <$> indices e !! c
             else subdirs d0 !! c.
Proof.
  induction 1 as [|c l Hnin Hnd IH]; intros d0 Hroot Hfree.
  - exists d0. split; [done|]. split; [done|]. intros c.
    rewrite decide_False; [done|]. intros [Hc _].
    by apply not_elem_of_nil in Hc.
  - cbn [foldl]. rewrite result_bind_Ok. unfold save_collection at 2.
    destruct (indices e !! c) as [shards|] eqn:Hc.
    + rewrite decide_False
        by (rewrite Hroot, lookup_empty; by intros [? ?]).
      rewrite (Hfree c) by (by left). cbn [default].
      destruct (IH {| root_files := root_files d0;
                      subdirs := <[c := map_fold (save_shard e c) ∅ shards]>
                                   (subdirs d0) |})
        as (d & Hd & Hr & Hs).
      { done. }
      { intros c' Hc'. cbn [subdirs].
        rewrite lookup_insert_ne by (intros ->; done).
        apply Hfree. by right. }
      exists d. split; [done|]. split; [done|]. intros c'. rewrite Hs.
      cbn [subdirs].
      destruct (decide (c' ∈ l /\ is_Some (indices e !! c'))) as [[H1 H2]|Hn].
      * rewrite decide_True; [done|]. split; [by right|done].
      * destruct (decide (c = c')) as [<-|Hne].
        -- rewrite lookup_insert_eq, decide_True, Hc; [done|].
           split; [by left|by eexists].
        -- rewrite lookup_insert_ne by done.
           rewrite decide_False; [done|]. intros [H1 H2]. apply Hn.
           split; [|done]. apply elem_of_cons in H1 as [->|H1]; done.
    + destruct (IH d0 Hroot) as (d & Hd & Hr & Hs).
      { intros c' Hc'. apply Hfree. by right. }
      exists d. split; [done|]. split; [done|]. intros c'. rewrite Hs.
      destruct (decide (c' ∈ l /\ is_Some (indices e !! c'))) as [[H1 H2]|Hn].
      * rewrite decide_True; [done|]. split; [by right|done].
      * rewrite decide_False; [done|]. intros [H1 H2]. apply Hn.
        split; [|done]. apply elem_of_cons in H1 as [->|H1]; [|done].
        rewrite Hc in H2. by destruct H2.
Qed.

Lemma save_all_fresh (e : VectorEngine) :
  exists d,
    save_all e {| root_files := ∅; subdirs := ∅ |} = Ok d
    /\ root_files d = ∅
    /\ forall c,
         subdirs d !! c
         = (fun shards => map_fold (save_shard e c) ∅ shards)
             <$> indices e !! c.
Proof.
  unfold save_all.
  destruct (save_loop_fresh e (map_to_list (indices e)).*1
              (NoDup_fst_map_to_list _)
              {| root_files := ∅; subdirs := ∅ |})
    as (d & Hd & Hr & Hs); [done|done|].
  exists d. split; [done|]. split; [done|]. intros c. rewrite Hs.
  cbn [subdirs]. rewrite lookup_empty.
  destruct (indices e !! c) as [shards|] eqn:Hc.
  - rewrite decide_True; [done|]. split; [|by eexists].
    apply list_elem_of_fmap. exists (c, shards). split; [done|].
    by apply elem_of_map_to_list.
  - rewrite decide_False; [done|]. by intros [_ [? ?]].
Qed.

Lemma ensure_collection_get2 (e : VectorEngine) c :
  same_collections e ->
  same_collections (ensure_collection e c)
  /\ is_Some (indices (ensure_collection e c) !! c)
  /\ embedding_dim (ensure_collection e c) = embedding_dim e
  /\ max_bytes (ensure_collection e c) = max_bytes e
  /\ forall c' s',
       get2 (indices (ensure_collection e c)) c' s' = get2 (indices e) c' s'
       /\ get2 (id_maps (ensure_collection e c)) c' s'
          = get2 (id_maps e) c' s'
       /\ get2 (next_ids (ensure_collection e c)) c' s'
          = get2 (next_ids e) c' s'.
Proof.
  intros Hsame. unfold ensure_collection.
  destruct (decide (is_Some (indices e !! c))) as [Hc|Hc]; [done|].
  cbn [indices id_maps next_ids embedding_dim max_bytes].
  assert (Hi : indices e !! c = None)
    by (destruct (indices e !! c); [destruct Hc; by eexists|done]).
  assert (Hm : id_maps e !! c = None).
  { destruct (id_maps e !! c) eqn:E; [|done].
    destruct Hc. apply (proj2 (proj1 (Hsame c))). by eexists. }
  assert (Hn : next_ids e !! c = None).
  { destruct (next_ids e !! c) eqn:E; [|done].
    destruct Hc. apply (proj2 (proj2 (Hsame c))). by eexists. }
  split; [|split; [|split; [done|split; [done|]]]].
  - intros c'. cbn [indices id_maps next_ids].
    rewrite !lookup_insert_is_Some'. split; split.
    + intros [->|H1]; [by left|]. right. by apply (proj1 (Hsame c')).
    + intros [->|H1]; [by left|]. right. by apply (proj1 (Hsame c')).
    + intros [->|H1]; [by left|]. right. by apply (proj2 (Hsame c')).
    + intros [->|H1]; [by left|]. right. by apply (proj2 (Hsame c')).
  - rewrite lookup_insert_eq. by eexists.
  - intros c' s'. unfold get2.
    destruct (decide (c = c')) as [<-|Hne].
    + rewrite !lookup_insert_eq, Hi, Hm, Hn. done.
    + by rewrite !lookup_insert_ne.
Qed.

Lemma enter_shard_get2 (e : VectorEngine) c s index m n :
  same_collections e ->
  let e' := enter_shard e c s index (Some (MapFile m (Some n))) in
  same_collections e'
  /\ embedding_dim e' = embedding_dim e
  /\ max_bytes e' = max_bytes e
  /\ forall c' s',
       get2 (indices e') c' s'
       = (if decide (c = c' /\ s = s') then Some index
          else get2 (indices e) c' s')
       /\ get2 (id_maps e') c' s'
          = (if decide (c = c' /\ s = s') then Some m
             else get2 (id_maps e) c' s')
       /\ get2 (next_ids e') c' s'
          = (if decide (c = c' /\ s = s') then Some n
             else get2 (next_ids e) c' s').
Proof.
  intros Hsame.
  destruct (ensure_collection_get2 e c Hsame) as (Hs0 & _ & _ & _ & Hget).
  unfold enter_shard. cbn [default indices id_maps next_ids embedding_dim
                           max_bytes].
  split; [|split; [done|split; [done|]]].
  - intros c'. cbn [indices id_maps next_ids]. rewrite !set2_outer.
    split; split; (intros [->|H1]; [by left|right]).
    + by apply (proj1 (Hs0 c')).
    + by apply (proj1 (Hs0 c')).
    + by apply (proj2 (Hs0 c')).
    + by apply (proj2 (Hs0 c')).
  - intros c' s'. rewrite !get2_set2.
    destruct (Hget c' s') as (-> & -> & ->). done.
Qed.

Lemma load_dir_spec (e : VectorEngine) c (shards : gmap string Index)
    (dir : gmap string file) (acc0 : VectorEngine) :
  saved_dir e c shards dir ->
  (forall s, is_Some (shards !! s) -> plain_shard_id s) ->
  same_collections acc0 ->
  (forall s, get2 (indices acc0) c s = None
             /\ get2 (id_maps acc0) c s = None
             /\ get2 (next_ids acc0) c s = None) ->
  let acc := map_fold (load_shard c dir) acc0 dir in
  same_collections acc
  /\ embedding_dim acc = embedding_dim acc0
  /\ max_bytes acc = max_bytes acc0
  /\ forall c' s',
       get2 (indices acc) c' s'
       = (if decide (c' = c) then shards !! s'
          else get2 (indices acc0) c' s')
       /\ get2 (id_maps acc) c' s'
          = (if decide (c' = c)
             then shards !! s' ≫= fun _ => get2 (id_maps e) c s'
             else get2 (id_maps acc0) c' s')
       /\ get2 (next_ids acc) c' s'
          = (if decide (c' = c)
             then shards !! s' ≫= fun _ => get2 (next_ids e) c s'
             else get2 (next_ids acc0) c' s').
Proof.
  intros (Hbin & Hmap & Honly) Hplain Hsame0 Hfree. cbv zeta.
  pose (P := fun (acc : VectorEngine) (m : gmap string file) =>
         m ⊆ dir ->
         same_collections acc
         /\ embedding_dim acc = embedding_dim acc0
         /\ max_bytes acc = max_bytes acc0
         /\ forall c' s',
              get2 (indices acc) c' s'
              = (if decide (c' = c /\ is_Some (m !! shard_bin_name s'))
                 then shards !! s' else get2 (indices acc0) c' s')
              /\ get2 (id_maps acc) c' s'
                 = (if decide (c' = c /\ is_Some (m !! shard_bin_name s'))
                    then get2 (id_maps e) c s'
                    else get2 (id_maps acc0) c' s')
              /\ get2 (next_ids acc) c' s'
                 = (if decide (c' = c /\ is_Some (m !! shard_bin_name s'))
                    then get2 (next_ids e) c s'
                    else get2 (next_ids acc0) c' s')).
  assert (Hinv : P (map_fold (load_shard c dir) acc0 dir) dir).
  { apply (map_fold_weak_ind P); unfold P.
    - intros _. split; [done|]. split; [done|]. split; [done|].
      intros c' s'. rewrite lookup_empty.
      rewrite !decide_False by (intros [_ [? ?]]; done). done.
    - intros name f m acc Hnone IH Hsub.
      assert (Hf : dir !! name = Some f).
      { eapply lookup_weaken; [|exact Hsub]. apply lookup_insert_eq. }
      destruct IH as (Hsame & Hdim & Hmax & Hget).
      { etrans; [|exact Hsub]. by apply insert_subseteq. }
      unfold load_shard. destruct (glob_shard_bin name) eqn:Hglob.
      + destruct (Honly name) as (s & Hs & [->| ->]); [by eexists| |].
        2:{ by rewrite glob_shard_bin_map in Hglob. }
        rewrite path_stem_shard_bin, str_remove_shard_prefix.
        rewrite (Hplain s Hs).
        rewrite Hbin in Hf. destruct (shards !! s) as [index|] eqn:Hsh;
          [|done].
        cbn in Hf. injection Hf as <-.
        destruct (Hmap s) as (m' & n & Hm' & Hn & Hfile); [by eexists|].
        rewrite Hfile.
        destruct (enter_shard_get2 acc c s index m' n Hsame)
          as (Hsame' & Hdim' & Hmax' & Hget').
        split; [done|]. split; [congruence|]. split; [congruence|].
        intros c' s'. destruct (Hget' c' s') as (-> & -> & ->).
        destruct (Hget c' s') as (-> & -> & ->).
        destruct (decide (c = c' /\ s = s')) as [[<- <-]|Hne].
        * rewrite lookup_insert_eq.
          rewrite !decide_True by (split; [done|by eexists]).
          by rewrite Hsh, Hm', Hn.
        * destruct (decide (c' = c)) as [->|Hcc].
          -- assert (Hss : s ≠ s') by (intros ->; by apply Hne).
             rewrite lookup_insert_ne; [done|].
             intros Hc. by apply shard_bin_name_inj in Hc.
          -- rewrite !decide_False by (intros [? _]; done). done.
      + split; [done|]. split; [done|]. split; [done|].
        intros c' s'. destruct (Hget c' s') as (-> & -> & ->).
        rewrite lookup_insert_ne; [done|].
        intros ->. by rewrite glob_shard_bin_bin in Hglob. }
  destruct Hinv as (Hsame & Hdim & Hmax & Hget); [done|].
  split; [done|]. split; [done|]. split; [done|].
  intros c' s'. destruct (Hget c' s') as (-> & -> & ->).
  rewrite Hbin.
  destruct (decide (c' = c)) as [->|Hcc].
  - destruct (Hfree s') as (-> & -> & ->).
    destruct (shards !! s') as [index|] eqn:Hsh.
    + rewrite !decide_True by (split; [done|by eexists]). done.
    + rewrite !decide_False by (intros [_ [? ?]]; done). done.
  - rewrite !decide_False by (intros [? _]; done). done.
Qed.

Lemma load_all_saved (e e0 : VectorEngine) (d : disk) :
  engine_consistent e ->
  (forall c s, is_shard e c s -> plain_shard_id s) ->
  root_files d = ∅ ->
  (forall c, subdirs d !! c
             = (fun shards => map_fold (save_shard e c) ∅ shards)
                 <$> indices e !! c) ->
  indices e0 = ∅ -> id_maps e0 = ∅ -> next_ids e0 = ∅ ->
  embedding_dim (load_all e0 d) = embedding_dim e0
  /\ max_bytes (load_all e0 d) = max_bytes e0
  /\ forall c s,
       get2 (indices (load_all e0 d)) c s = get2 (indices e) c s
       /\ get2 (id_maps (load_all e0 d)) c s = get2 (id_maps e) c s
       /\ get2 (next_ids (load_all e0 d)) c s = get2 (next_ids e) c s.
Proof.
  intros [Hkeys Hcons] Hplain Hroot Hsub Hi0 Hm0 Hn0.
  unfold load_all. rewrite Hroot, map_fold_empty.
  assert (Hshard : forall c shards s,
            indices e !! c = Some shards -> is_Some (shards !! s) ->
            is_shard e c s
            /\ exists m n, get2 (id_maps e) c s = Some m
                           /\ get2 (next_ids e) c s = Some n).
  { intros c shards s Hc Hs.
    assert (Hg : is_Some (get2 (indices e) c s))
      by (unfold get2; by rewrite Hc).
    split; [by apply contains2_true|].
    specialize (Hcons c s). destruct Hg as [index Hg]. rewrite Hg in Hcons.
    destruct Hcons as (m & n & Hm & Hn & _).
    exists m, n. split; by apply lookup2_Ok. }
  pose (P := fun (acc : VectorEngine)
                 (sub : gmap string (gmap string file)) =>
         sub ⊆ subdirs d ->
         same_collections acc
         /\ embedding_dim acc = embedding_dim e0
         /\ max_bytes acc = max_bytes e0
         /\ forall c s,
              get2 (indices acc) c s
              = (if decide (is_Some (sub !! c)) then get2 (indices e) c s
                 else None)
              /\ get2 (id_maps acc) c s
                 = (if decide (is_Some (sub !! c)) then get2 (id_maps e) c s
                    else None)
              /\ get2 (next_ids acc) c s
                 = (if decide (is_Some (sub !! c))
                    then get2 (next_ids e) c s else None)).
  assert (Hinv :
    P (map_fold (fun c dir acc => map_fold (load_shard c dir) acc dir)
                e0 (subdirs d)) (subdirs d)).
  { apply (map_fold_weak_ind P); unfold P.
    - intros _. split.
      { intros c. rewrite Hi0, Hm0, Hn0, !lookup_empty. done. }
      split; [done|]. split; [done|].
      intros c s. rewrite lookup_empty.
      rewrite !decide_False by (by intros [? ?]).
      unfold get2. by rewrite Hi0, Hm0, Hn0, !lookup_empty.
    - intros c dir sub acc Hnone IH Hincl.
      assert (Hdir : subdirs d !! c = Some dir).
      { eapply lookup_weaken; [|exact Hincl]. apply lookup_insert_eq. }
      destruct IH as (Hsame & Hdim & Hmax & Hget).
      { etrans; [|exact Hincl]. by apply insert_subseteq. }
      rewrite Hsub in Hdir.
      destruct (indices e !! c) as [shards|] eqn:Hc; [|done].
      cbn in Hdir. injection Hdir as <-.
      destruct (load_dir_spec e c shards
                  (map_fold (save_shard e c) ∅ shards) acc)
        as (Hsame' & Hdim' & Hmax' & Hget').
      + apply collection_dir_saved. intros s Hs.
        by destruct (Hshard c shards s Hc Hs) as [_ ?].
      + intros s Hs. apply (Hplain c).
        by destruct (Hshard c shards s Hc Hs) as [? _].
      + done.
      + intros s. destruct (Hget c s) as (-> & -> & ->).
        rewrite !decide_False by (rewrite Hnone; by intros [? ?]). done.
      + split; [done|]. split; [congruence|]. split; [congruence|].
        intros c' s. destruct (Hget' c' s) as (-> & -> & ->).
        destruct (Hget c' s) as (-> & -> & ->).
        destruct (decide (c' = c)) as [->|Hne].
        * rewrite lookup_insert_eq.
          rewrite !decide_True by (by eexists).
          assert (Hg : get2 (indices e) c s = shards !! s)
            by (unfold get2; by rewrite Hc).
          rewrite Hg. split; [done|].
          destruct (shards !! s) as [index|] eqn:Hs; [done|].
          specialize (Hcons c s). rewrite Hg in Hcons.
          destruct Hcons as [-> ->]. done.
        * rewrite lookup_insert_ne by done. done. }
  destruct Hinv as (_ & Hdim & Hmax & Hget); [done|].
  split; [done|]. split; [done|].
  intros c s. destruct (Hget c s) as (-> & -> & ->).
  rewrite Hsub.
  destruct (indices e !! c) as [shards|] eqn:Hc.
  - rewrite !decide_True by (by eexists). done.
  - rewrite !decide_False by (by intros [? ?]).
    assert (Hg : get2 (indices e) c s = None)
      by (unfold get2; by rewrite Hc).
    specialize (Hcons c s). rewrite Hg in Hcons.
    destruct Hcons as [-> ->]. done.
Qed.

(** X14.  An engine whose collection ids are path components and whose
    shard ids contain neither [/], NUL, [shard_] nor [.bin] comes back
    from disk as it was: [save_all] into an empty data directory
    succeeds, and an engine constructed on that directory has for every
    collection and shard the same index, id-map and counter, so that the
    total number of vectors is the same and every search returns what it
    returned before. *)
Theorem save_load_roundtrip (e : VectorEngine) (max_ram_gb : Z) :
  engine_consistent e ->
  ids_are_names e ->
  (forall c s, is_shard e c s -> plain_shard_id s) ->
  exists d,
    save_all e {| root_files := ∅; subdirs := ∅ |} = Ok d
    /\ let e' := VectorEngine_init d (embedding_dim e) max_ram_gb in
       embedding_dim e' = embedding_dim e
       /\ (forall c s,
             get2 (indices e') c s = get2 (indices e) c s
             /\ get2 (id_maps e') c s = get2 (id_maps e) c s
             /\ get2 (next_ids e') c s = get2 (next_ids e) c s)
       /\ get_total_vectors e' = get_total_vectors e
       /\ (forall c q k s, search e' c q k s = search e c q k s).
Proof.
  intros Hcons _ Hplain.
  destruct (save_all_fresh e) as (d & Hd & Hroot & Hsub).
  exists d. split; [done|]. cbv zeta. unfold VectorEngine_init.
  destruct (load_all_saved e
              {| embedding_dim := embedding_dim e;
                 max_bytes := max_ram_gb * 1024 ^ 3;
                 indices := ∅; id_maps := ∅; next_ids := ∅ |} d)
    as (Hdim & _ & Hget); try done.
  split; [done|]. split; [done|].
  split; [apply get_total_vectors_ext; intros c s; by destruct (Hget c s)|].
  intros c q k s. apply search_ext.
  - by destruct (Hget c (_normalize_shard_id s)) as (-> & _).
  - intros [index Hidx].
    destruct (Hget c (_normalize_shard_id s)) as (Hi & Hm & _).
    rewrite Hi in Hidx. destruct Hcons as [_ Hcons].
    specialize (Hcons c (_normalize_shard_id s)). rewrite Hidx in Hcons.
    destruct Hcons as (m & n & Hm' & _). rewrite Hm'.
    apply lookup2_Ok. rewrite Hm. by apply lookup2_Ok.
Qed.

End Persistence.

(** ** The miner configuration *)

Module ConfigProperties.

Import Config.

Lemma filter_fields_lookup (data : gmap string jvalue) (k : string) :
  k ∈ config_fields ->
  filter (fun kv : string * jvalue => kv.1 ∈ config_fields) data !! k
  = data !! k.
Proof.
  intros Hk. apply option_eq. intros v.
  rewrite map_lookup_filter_Some. cbn. split; [by intros [? _]|done].
Qed.

Lemma filter_fields_keys (data : gmap string jvalue) :
  Forall (fun k => k ∈ config_fields)
    (map_to_list
       (filter (fun kv : string * jvalue => kv.1 ∈ config_fields) data)).*1.
Proof.
  apply Forall_forall. intros k Hk.
  apply list_elem_of_fmap in Hk as ([k' v] & -> & Hkv).
  apply elem_of_map_to_list, map_lookup_filter_Some in Hkv. by destruct Hkv.
Qed.

Lemma missing_or_empty_insert_ne (data : gmap string jvalue) k k' v :
  k ≠ k' ->
  missing_or_empty (<[k := v]> data) k' = missing_or_empty data k'.
Proof.
  intros Hne. unfold missing_or_empty. by rewrite lookup_insert_ne.
Qed.

(** What [load_config] does with an object, field by field. *)
Lemma load_config_Object (fresh_uuid : string) (data : gmap string jvalue) :
  load_config fresh_uuid (Object data)
  = match data !! "coordinator_url"%string, data !! "data_dir"%string,
          data !! "max_ram_gb"%string, data !! "embedding_dim"%string,
          data !! "index_version"%string, data !! "miner_secret"%string,
          data !! "sui_address"%string with
    | Some url, Some dir, Some ram, Some dim, Some version, Some secret,
      Some sui =>
      Returns
        {| coordinator_url := url; data_dir := dir;
           node_id := if missing_or_empty data "node_id"
                      then VStr fresh_uuid
                      else option.default VNull (data !! "node_id"%string);
           max_ram_gb := ram; embedding_dim := dim; index_version := version;
           miner_secret := secret; sui_address := sui;
           referral_address :=
             if missing_or_empty data "referral_address"
             then VStr default_referral
             else option.default VNull (data !! "referral_address"%string) |}
    | _, _, _, _, _, _, _ => Raises TypeError
    end.
Proof.
  unfold load_config, MinerConfig_init.
  rewrite decide_True by apply filter_fields_keys.
  rewrite !filter_fields_lookup by (vm_compute; set_solver).
  assert (Hb2 : missing_or_empty
                  (if missing_or_empty data "node_id"
                   then <["node_id"%string := VStr fresh_uuid]> data
                   else data) "referral_address"
                = missing_or_empty data "referral_address").
  { destruct (missing_or_empty data "node_id"); [|done].
    by apply missing_or_empty_insert_ne. }
  rewrite Hb2. clear Hb2.
  assert (Hnode : forall v,
            data !! "node_id"%string = Some v ->
            option.default VNull (data !! "node_id"%string) = v)
    by (by intros v ->).
  assert (Href : forall v,
            data !! "referral_address"%string = Some v ->
            option.default VNull (data !! "referral_address"%string) = v)
    by (by intros v ->).
  unfold missing_or_empty in *.
  destruct (data !! "node_id"%string) as [vn|] eqn:En;
    destruct (data !! "referral_address"%string) as [vr|] eqn:Er;
    try destruct (truthy vn); try destruct (truthy vr); cbn [negb].
  all: repeat (rewrite lookup_insert_eq
               || (rewrite lookup_insert_ne by discriminate)).
  all: rewrite ?En, ?Er.
  all: destruct (data !! "coordinator_url"%string); [|done].
  all: destruct (data !! "data_dir"%string); [|done].
  all: destruct (data !! "max_ram_gb"%string); [|done].
  all: destruct (data !! "embedding_dim"%string); [|done].
  all: destruct (data !! "index_version"%string); [|done].
  all: destruct (data !! "miner_secret"%string); [|done].
  all: destruct (data !! "sui_address"%string); [|done].
  all: done.
Qed.

Lemma truthy_VStr (s : string) : s ≠ ""%string -> truthy (VStr s) = true.
Proof.
  intros Hs. cbn. apply negb_true_iff, String.eqb_neq. done.
Qed.

(** X15.  [load_config] returns a configuration only for a file that
    holds a JSON object, and then [node_id] and [referral_address] are
    never empty: a value of the file that is not empty is kept, a
    missing or empty one is replaced by a fresh UUID and by the default
    referral id.  The seven other fields are those of the file; one of
    them missing is a [TypeError], and keys that are no fields are
    ignored. *)
Theorem load_config_outcomes (fresh_uuid : string) (file : config_file) :
  fresh_uuid ≠ ""%string ->
  (forall config,
     load_config fresh_uuid file = Returns config ->
     exists data,
       file = Object data
       /\ truthy (node_id config) = true
       /\ truthy (referral_address config) = true
       /\ (forall v, data !! "node_id"%string = Some v -> truthy v = true ->
                     node_id config = v)
       /\ (missing_or_empty data "node_id" = true ->
           node_id config = VStr fresh_uuid)
       /\ (forall v, data !! "referral_address"%string = Some v ->
                     truthy v = true -> referral_address config = v)
       /\ (missing_or_empty data "referral_address" = true ->
           referral_address config = VStr default_referral)
       /\ data !! "coordinator_url"%string = Some (coordinator_url config)
       /\ data !! "data_dir"%string = Some (data_dir config)
       /\ data !! "max_ram_gb"%string = Some (max_ram_gb config)
       /\ data !! "embedding_dim"%string = Some (embedding_dim config)
       /\ data !! "index_version"%string = Some (index_version config)
       /\ data !! "miner_secret"%string = Some (miner_secret config)
       /\ data !! "sui_address"%string = Some (sui_address config))
  /\ (forall data,
        file = Object data ->
        (load_config fresh_uuid file = Raises TypeError
         <-> exists k,
               k ∈ ["coordinator_url"; "data_dir"; "max_ram_gb";
                    "embedding_dim"; "index_version"; "miner_secret";
                    "sui_address"]%string
               /\ data !! k = None)
        /\ (forall k v,
              k ∉ config_fields ->
              load_config fresh_uuid (Object (<[k := v]> data))
              = load_config fresh_uuid file)).
Proof.
  intros Hfresh. split.
  - intros config Hload. destruct file as [| | |data]; try done.
    exists data. split; [done|]. rewrite load_config_Object in Hload.
    destruct (data !! "coordinator_url"%string); [|done].
    destruct (data !! "data_dir"%string); [|done].
    destruct (data !! "max_ram_gb"%string); [|done].
    destruct (data !! "embedding_dim"%string); [|done].
    destruct (data !! "index_version"%string); [|done].
    destruct (data !! "miner_secret"%string); [|done].
    destruct (data !! "sui_address"%string); [|done].
    injection Hload as <-. cbn [node_id referral_address coordinator_url
      data_dir max_ram_gb embedding_dim index_version miner_secret
      sui_address].
    unfold missing_or_empty.
    destruct (data !! "node_id"%string) as [vn|];
      destruct (data !! "referral_address"%string) as [vr|];
      try destruct (truthy vn) eqn:Hn; try destruct (truthy vr) eqn:Hr;
      cbn [negb option.default from_option id];
      rewrite ?(truthy_VStr fresh_uuid Hfresh);
      repeat split; try done; try (intros v [= <-]; congruence).
  - intros data ->. rewrite !load_config_Object. split.
    + split.
      * intros Hload.
        destruct (data !! "coordinator_url"%string) eqn:E1;
          [|exists "coordinator_url"%string; split; [set_solver|done]].
        destruct (data !! "data_dir"%string) eqn:E2;
          [|exists "data_dir"%string; split; [set_solver|done]].
        destruct (data !! "max_ram_gb"%string) eqn:E3;
          [|exists "max_ram_gb"%string; split; [set_solver|done]].
        destruct (data !! "embedding_dim"%string) eqn:E4;
          [|exists "embedding_dim"%string; split; [set_solver|done]].
        destruct (data !! "index_version"%string) eqn:E5;
          [|exists "index_version"%string; split; [set_solver|done]].
        destruct (data !! "miner_secret"%string) eqn:E6;
          [|exists "miner_secret"%string; split; [set_solver|done]].
        destruct (data !! "sui_address"%string) eqn:E7;
          [|exists "sui_address"%string; split; [set_solver|done]].
        done.
      * intros (k & Hk & Hnone).
        repeat (apply elem_of_cons in Hk as [->|Hk];
                [rewrite Hnone;
                 repeat (match goal with
                         | |- context [match ?o with _ => _ end] =>
                           destruct o
                         end); done|]).
        by apply not_elem_of_nil in Hk.
    + intros k v Hk.
      assert (Hne : forall k', k' ∈ config_fields ->
                               <[k := v]> data !! k' = data !! k').
      { intros k' Hk'. apply lookup_insert_ne. by intros ->. }
      rewrite load_config_Object. unfold missing_or_empty.
      rewrite !Hne by (vm_compute; set_solver). done.
Qed.


End ConfigProperties.

(** ** The further properties on sample inputs *)

Module FurtherExamples.

Import Reference Samples.

Lemma add_vectors_other_shard_search_witness :
  ("c1"%string, _normalize_shard_id None)
  ≠ ("c1"%string, _normalize_shard_id (Some "s2"%string))
  /\ search (add_vectors engine_two "c1" (one_row [1; 0; 0; 0])
               ["z"%string] (Some "s2"%string)).1
            "c1" [0; 1; 0; 0] 5 None
     = search engine_two "c1" [0; 1; 0; 0] 5 None.
Proof.
  assert (Hne : ("c1"%string, _normalize_shard_id None)
                ≠ ("c1"%string, _normalize_shard_id (Some "s2"%string)))
    by (vm_compute; discriminate).
  split; [exact Hne|].
  exact (add_vectors_other_shard_search engine_two "c1" (one_row [1; 0; 0; 0])
           ["z"%string] (Some "s2"%string) "c1" None [0; 1; 0; 0] 5 Hne).
Defined.

Lemma handle_store_ok_enters_doc_ids_witness :
  exists node' response,
    _handle_store node0 store_message = (node', Ok response)
    /\ sto_status response = status_ok
    /\ next_id_of (engine node') "c1" "default" = 1
    /\ id_map_of (engine node') "c1" "default" !! 0 = Some "a"%string.
Proof.
  pose (request := {| st_request_id := "r2"; st_collection_id := "c1";
                      st_shard_id := None; st_doc_ids := ["a"%string];
                      st_vectors_b64 := "0000000000000000";
                      st_shape := [1; 4] |}).
  pose (response := {| sto_request_id := "r2"; sto_node_id := "n1";
                       sto_stored_count := 1; sto_status := status_ok;
                       sto_error_message := None |}).
  assert (Hparse : StoreRequest_parse store_message = Ok request)
    by (vm_compute; reflexivity).
  assert (Hrun : _handle_store node0 store_message
                 = ((_handle_store node0 store_message).1, Ok response))
    by (vm_compute; reflexivity).
  assert (Hreach : reachable (engine node0)) by apply (reachable_empty 4 1).
  destruct (handle_store_ok_enters_doc_ids node0 _ store_message request
              response Hreach Hparse Hrun eq_refl) as (_ & Hnext & Hmap).
  exists (_handle_store node0 store_message).1, response.
  split; [exact Hrun|]. split; [reflexivity|]. split.
  - exact Hnext.
  - exact (Hmap 0%nat "a"%string eq_refl).
Defined.

Lemma handle_message_frames_witness :
  exists node' ws' r f,
    _handle_message 2 7 node0 open_connection (Object challenge_message)
    = Some (node', ws', r)
    /\ r = Ok ()
    /\ ws_sent ws' = [f]
    /\ node_id node' = "n1"%string.
Proof.
  destruct (handle_message_frames 2 7 node0 open_connection
              (Object challenge_message) Examples.fold_digest_length)
    as (node' & ws' & r & Hrun & _ & Hid & _ & _ & Hframe & _).
  - intros message_dict request [= <-] Hparse.
    vm_compute in Hparse. injection Hparse as <-. vm_compute. lia.
  - destruct (Hframe challenge_message None eq_refl eq_refl)
      as (Hr & f & Hsent & _); [vm_compute; reflexivity|].
    exists node', ws', r, f. split; [exact Hrun|].
    split; [exact Hr|]. split; [exact Hsent|exact Hid].
Defined.

Lemma decode_encode_any_dtype_witness :
  ensure_float32 array_3
  = Ok {| nd_dtype := float32; nd_shape := [3]; nd_data := [1; 2; 3] |}
  /\ exists data_b64,
       encode_vectors array_3 = Ok (data_b64, [3])
       /\ decode_vectors data_b64 [3]
          = Ok {| nd_dtype := float32; nd_shape := [3];
                  nd_data := [1; 2; 3] |}.
Proof.
  assert (Hcast : ensure_float32 array_3
                  = Ok {| nd_dtype := float32; nd_shape := [3];
                          nd_data := [1; 2; 3] |})
    by (vm_compute; reflexivity).
  split; [exact Hcast|].
  destruct (decode_encode_any_dtype Examples.store_codec_zstd
              Examples.store_codec_b64 array_3) as [Hok _].
  apply (Hok _ Hcast).
  - repeat constructor. vm_compute. discriminate.
  - vm_compute. reflexivity.
  - repeat constructor; vm_compute; (discriminate || reflexivity).
Defined.

Lemma query_vector_roundtrip_witness :
  exists b64_string,
    encode_query_vector array_3 = Ok (b64_string, [3])
    /\ decode_query_vector b64_string [3]
       = Ok {| nd_dtype := float32; nd_shape := [3]; nd_data := [1; 2; 3] |}.
Proof.
  destruct (query_vector_roundtrip Examples.store_codec_zstd
              Examples.store_codec_b64 array_3) as (_ & _ & Hok).
  apply (Hok _ 3).
  - vm_compute. reflexivity.
  - reflexivity.
  - vm_compute. reflexivity.
  - repeat constructor; vm_compute; (discriminate || reflexivity).
Defined.

Lemma challenge_chunks_nest_witness :
  exists chunk1 chunk2 end1 end2,
    challenge_loop 3 (repeat "000"%byte 32) 40 [] 0 = Finished chunk1 end1
    /\ challenge_loop 3 (repeat "000"%byte 32) 70 [] 0 = Finished chunk2 end2
    /\ chunk1 = take 40 chunk2.
Proof.
  destruct (challenge_chunks_nest Examples.fold_digest_length 3
              (repeat "000"%byte 32) 0 40 70)
    as (chunk1 & chunk2 & end1 & end2 & H1 & H2 & H3 & _).
  - lia.
  - right. split; [lia|]. vm_compute. reflexivity.
  - vm_compute. lia.
  - exists chunk1, chunk2, end1, end2. split; [exact H1|].
    split; [exact H2|exact H3].
Defined.

Lemma engine_two_shards c s : is_shard engine_two c s -> s = "default"%string.
Proof.
  intros Hs. apply contains2_true in Hs.
  destruct (decide ((c, s) = ("c1"%string, "default"%string)))
    as [[= _ ->]|Hne]; [done|].
  destruct (add_vectors_others "c1" None engine0
              {| shape0 := 2; shape1 := 4;
                 rows := [[0; 3; 0; 0]; [2; 0; 0; 0]] |}
              ["b"%string; "a"%string] c s Hne) as [Hsame _].
  unfold engine_two in Hs. rewrite Hsame in Hs. by destruct Hs.
Qed.

Lemma engine_two_names : ids_are_names engine_two.
Proof.
  assert (Hname : file_name_part "c1" /\ file_name_part "default")
    by (split; repeat constructor; discriminate).
  split.
  - intros c [shards Hc].
    assert (Hg : c = "c1"%string).
    { destruct (decide (c = "c1"%string)) as [->|Hne]; [done|].
      assert (Hi : indices engine_two
                   = {["c1"%string :=
                         {["default"%string :=
                             [(0, [0; 1; 0; 0]); (1, [1; 0; 0; 0])]]}]})
        by (vm_compute; reflexivity).
      rewrite Hi, lookup_singleton_ne in Hc; done. }
    subst c. repeat split; try discriminate. apply Hname.
  - intros c s Hs. apply engine_two_shards in Hs. subst s. apply Hname.
Qed.

Lemma save_load_roundtrip_witness :
  exists d,
    save_all engine_two {| root_files := ∅; subdirs := ∅ |} = Ok d
    /\ get_total_vectors (VectorEngine_init d 4 1) = 2
    /\ search (VectorEngine_init d 4 1) "c1" [2; 0; 0; 0] 1 None
       = search engine_two "c1" [2; 0; 0; 0] 1 None.
Proof.
  destruct (save_load_roundtrip engine_two 1)
    as (d & Hd & _ & _ & Htotal & Hsearch).
  - apply reachable_consistent. apply reachable_add.
    apply (reachable_empty 4 1).
  - apply engine_two_names.
  - intros c s Hs. apply engine_two_shards in Hs. subst s.
    vm_compute. reflexivity.
  - exists d. split; [exact Hd|]. split; [exact Htotal|apply Hsearch].
Defined.

Lemma save_all_writes_current_layout_witness :
  exists d,
    save_all engine_two empty_disk = Ok d /\ root_files d = ∅.
Proof.
  destruct (save_all_writes_current_layout engine_two empty_disk
              engine_two_names) as [Hiff Hkeeps].
  destruct (proj2 Hiff) as [d Hd]; [intros c _; apply lookup_empty|].
  exists d. split; [exact Hd|]. by destruct (Hkeeps d Hd) as [-> _].
Defined.

Lemma load_config_outcomes_witness :
  exists config,
    Config.load_config "0b0e" old_config_file = Config.Returns config
    /\ Config.node_id config = Config.VStr "0b0e"
    /\ Config.truthy (Config.referral_address config) = true.
Proof.
  destruct (Config.load_config "0b0e" old_config_file) as [config|ex] eqn:Hl;
    [|vm_compute in Hl; discriminate Hl].
  exists config. split; [reflexivity|].
  destruct (ConfigProperties.load_config_outcomes "0b0e" old_config_file)
    as [Hok _]; [discriminate|].
  destruct (Hok config Hl) as (data & Hdata & _ & Href & _ & Hnode & _).
  split; [|exact Href]. apply Hnode.
  injection Hdata as <-. vm_compute. reflexivity.
Defined.

End FurtherExamples.
